(** * MTG price finder: the multi-store card-search orchestrator

    A shallow embedding of the search core of [App.tsx] (the version with
    name validation, retries and batch mode): [fetchWithRetry],
    [validateCardName], [searchSingleCard] and [searchCards], together with
    the JavaScript built-ins they call, and the properties the specification
    states about them.

    Conventions of the embedding.
    - A JavaScript string is a [string]: a sequence of code units below 256
      (the Latin-1 part of the language's strings).
    - A JavaScript number is a [jsnum]: NaN, the two infinities, or a finite
      double written as an integer count of the smallest positive double,
      [2^-1074].  The two zeros are one value; nothing the search core does
      tells them apart.
    - Loop counters and millisecond delays are integers in the source and
      are modelled by [Z].
    - Effects (network requests, timers, console output, React state
      setters) are recorded in a trace; asynchronous code is a function from
      the trace so far to a completion and the extended trace. *)

From Stdlib Require Import ZArith List String Ascii Bool Lia.
From Stdlib Require Import Sorted Permutation DecimalString.
From Stdlib Require DecimalFacts DecimalPos DecimalN.
Import ListNotations.

Local Open Scope string_scope.
Local Open Scope Z_scope.

(** ** Strings *)

Module JsString.

Definition code (c : ascii) : Z := Z.of_N (N_of_ascii c).
Definition chr (n : Z) : ascii := ascii_of_N (Z.to_N n).

(** WhiteSpace and LineTerminator code units below 256: TAB, LF, VT, FF,
    CR, SP and NBSP. *)
Definition isWhiteSpace (c : ascii) : bool :=
  let n := code c in
  ((9 <=? n) && (n <=? 13)) || (n =? 32) || (n =? 160).

Fixpoint trimStart (s : string) : string :=
  match s with
  | EmptyString => EmptyString
  | String c s' => if isWhiteSpace c then trimStart s' else s
  end.

(** [trimEnd] keeps a character when it is not white space or when
    something survives to its right. *)
Fixpoint trimEnd (s : string) : string :=
  match s with
  | EmptyString => EmptyString
  | String c s' =>
      match trimEnd s' with
      | EmptyString => if isWhiteSpace c then EmptyString else String c EmptyString
      | t => String c t
      end
  end.

Definition trim (s : string) : string := trimEnd (trimStart s).

Fixpoint mapChars (f : ascii -> ascii) (s : string) : string :=
  match s with
  | EmptyString => EmptyString
  | String c s' => String (f c) (mapChars f s')
  end.

(** Lower-case mapping of one code unit: A-Z, and the Latin-1 capitals
    U+00C0..U+00DE except the multiplication sign U+00D7. *)
Definition lowerChar (c : ascii) : ascii :=
  let n := code c in
  if ((65 <=? n) && (n <=? 90))
     || ((192 <=? n) && (n <=? 222) && negb (n =? 215))
  then chr (n + 32) else c.

Definition toLowerCase (s : string) : string := mapChars lowerChar s.

Fixpoint startsWith (p s : string) : bool :=
  match p, s with
  | EmptyString, _ => true
  | String a p', String b s' => Ascii.eqb a b && startsWith p' s'
  | String _ _, EmptyString => false
  end.

(** [s.includes(t)] *)
Fixpoint includes (s t : string) : bool :=
  startsWith t s ||
  match s with
  | EmptyString => false
  | String _ s' => includes s' t
  end.

Fixpoint drop (n : nat) (s : string) : string :=
  match n, s with
  | O, _ => s
  | S n', String _ s' => drop n' s'
  | S _, EmptyString => EmptyString
  end.

(** [s.replace(pat, repl)] for a string pattern and a replacement without
    [$]: the first occurrence only. *)
Fixpoint replaceFirst (pat repl s : string) : string :=
  if startsWith pat s then repl ++ drop (String.length pat) s
  else match s with
       | EmptyString => EmptyString
       | String c s' => String c (replaceFirst pat repl s')
       end.

(** [s.replace(/\/$/, '')]: one slash at the very end is removed. *)
Fixpoint stripTrailingSlash (s : string) : string :=
  match s with
  | EmptyString => EmptyString
  | String c EmptyString => if Ascii.eqb c "/"%char then EmptyString else s
  | String c s' => String c (stripTrailingSlash s')
  end.

(** [s.split(sep)] for a one-character separator. *)
Fixpoint split (sep : ascii) (s : string) : list string :=
  match s with
  | EmptyString => [EmptyString]
  | String c s' =>
      if Ascii.eqb c sep then EmptyString :: split sep s'
      else match split sep s' with
           | [] => [String c EmptyString]
           | w :: ws => String c w :: ws
           end
  end.

Definition hexDigit (n : Z) : ascii :=
  if n <? 10 then chr (48 + n) else chr (55 + n).

Definition percent (byte : Z) : string :=
  String "%"%char (String (hexDigit (byte / 16)) (String (hexDigit (byte mod 16)) EmptyString)).

(** Characters [encodeURIComponent] leaves alone: letters, digits and
    [- _ . ! ~ * ' ( )]. *)
Definition isUnreserved (c : ascii) : bool :=
  let n := code c in
  ((65 <=? n) && (n <=? 90)) || ((97 <=? n) && (n <=? 122))
  || ((48 <=? n) && (n <=? 57))
  || (n =? 45) || (n =? 95) || (n =? 46) || (n =? 33) || (n =? 126)
  || (n =? 42) || (n =? 39) || (n =? 40) || (n =? 41).

(** A code unit from 128 to 255 is written as its two UTF-8 bytes. *)
Definition encodeChar (c : ascii) : string :=
  let n := code c in
  if isUnreserved c then String c EmptyString
  else if n <? 128 then percent n
  else percent (192 + n / 64) ++ percent (128 + n mod 64).

Fixpoint encodeURIComponent (s : string) : string :=
  match s with
  | EmptyString => EmptyString
  | String c s' => encodeChar c ++ encodeURIComponent s'
  end.

Definition isDigit (c : ascii) : bool :=
  let n := code c in (48 <=? n) && (n <=? 57).

(** The longest run of decimal digits at the start, and the rest. *)
Fixpoint spanDigits (s : string) : string * string :=
  match s with
  | EmptyString => (EmptyString, EmptyString)
  | String c s' =>
      if isDigit c then let (d, r) := spanDigits s' in (String c d, r)
      else (EmptyString, s)
  end.

Fixpoint digitsValue (acc : Z) (s : string) : Z :=
  match s with
  | EmptyString => acc
  | String c s' => digitsValue (10 * acc + (code c - 48)) s'
  end.

Definition ofZ (n : Z) : string :=
  NilZero.string_of_uint (N.to_uint (Z.to_N n)).

Fixpoint repeat (c : ascii) (n : nat) : string :=
  match n with
  | O => EmptyString
  | S n' => String c (repeat c n')
  end.

Fixpoint take (n : nat) (s : string) : string :=
  match n, s with
  | S n', String c s' => String c (take n' s')
  | _, _ => EmptyString
  end.

Fixpoint join (sep : string) (l : list string) : string :=
  match l with
  | [] => EmptyString
  | [x] => x
  | x :: rest => x ++ sep ++ join sep rest
  end.

End JsString.

(** ** Numbers *)

Module JsNumber.

(** [Fin n] is the double [n * 2^-1074].  Every finite double is such a
    multiple: the subnormals and the first binade have spacing [2^-1074],
    and every later binade a power-of-two multiple of it. *)
Inductive jsnum : Type :=
| NaN
| PInf
| NInf
| Fin (n : Z).

Definition unitExp : Z := 1074.
(** [2^1024], the first magnitude that overflows, counted in units. *)
Definition overflowBound : Z := 2 ^ (1024 + unitExp).

Definition bitLength (n : Z) : Z :=
  if n <=? 0 then 0 else Z.log2 n + 1.

(** Round-to-nearest, ties-to-even, of the non-negative rational [p / q]
    (counted in units) to 53 significant bits; the result is a count of
    units, not yet checked for overflow. *)
Definition roundUnits (p q : Z) : Z :=
  let n := p / q in
  let r := p mod q in
  let sh := Z.max 0 (bitLength n - 53) in
  let m := Z.shiftr n sh in
  let low := n mod 2 ^ sh in
  let twice := 2 * (low * q + r) in
  let den := 2 ^ sh * q in
  let m' := if den <? twice then m + 1
            else if twice =? den then (if Z.even m then m else m + 1)
            else m in
  Z.shiftl m' sh.

Definition ofUnits (negative : bool) (u : Z) : jsnum :=
  if overflowBound <=? u then (if negative then NInf else PInf)
  else Fin (if negative then - u else u).

(** The double nearest to [+/- p / q] units. *)
Definition roundRatio (negative : bool) (p q : Z) : jsnum :=
  ofUnits negative (roundUnits p q).

(** The double nearest to [+/- m * 10^e]. *)
Definition ofDecimal (negative : bool) (m e : Z) : jsnum :=
  if 0 <=? e then roundRatio negative (m * 10 ^ e * 2 ^ unitExp) 1
  else roundRatio negative (m * 2 ^ unitExp) (10 ^ (- e)).

Definition zero : jsnum := Fin 0.

Definition isNaN (x : jsnum) : bool :=
  match x with NaN => true | _ => false end.

(** [x - y] *)
Definition sub (x y : jsnum) : jsnum :=
  match x, y with
  | NaN, _ | _, NaN => NaN
  | PInf, PInf | NInf, NInf => NaN
  | PInf, _ | _, NInf => PInf
  | NInf, _ | _, PInf => NInf
  | Fin a, Fin b => roundRatio (a - b <? 0) (Z.abs (a - b)) 1
  end.

(** [x < y]; false when either side is NaN. *)
Definition ltb (x y : jsnum) : bool :=
  match x, y with
  | NaN, _ | _, NaN => false
  | _, NInf => false
  | NInf, _ => true
  | PInf, _ => false
  | Fin _, PInf => true
  | Fin a, Fin b => a <? b
  end.

(** [x <= y]; false when either side is NaN. *)
Definition leb (x y : jsnum) : bool :=
  match x, y with
  | NaN, _ | _, NaN => false
  | NInf, _ => true
  | _, PInf => true
  | _, NInf => false
  | PInf, _ => false
  | Fin a, Fin b => a <=? b
  end.

(** [x === y] on numbers. *)
Definition eqb (x y : jsnum) : bool :=
  match x, y with
  | PInf, PInf | NInf, NInf => true
  | Fin a, Fin b => a =? b
  | _, _ => false
  end.

(** ToBoolean on a number: zero and NaN are falsy. *)
Definition truthy (x : jsnum) : bool :=
  match x with
  | NaN => false
  | Fin n => negb (n =? 0)
  | _ => true
  end.

Import JsString.

(** StrUnsignedDecimalLiteral, longest prefix: [Infinity], or digits with
    an optional fraction and an optional exponent.  An exponent mark that
    no digit follows is not part of the literal. *)
Definition parseExponent (s : string) : Z :=
  match s with
  | String c s' =>
      if Ascii.eqb c "e"%char || Ascii.eqb c "E"%char then
        match s' with
        | String sg s'' =>
            if Ascii.eqb sg "-"%char then
              let (d, _) := spanDigits s'' in
              match d with EmptyString => 0 | _ => - digitsValue 0 d end
            else if Ascii.eqb sg "+"%char then
              let (d, _) := spanDigits s'' in digitsValue 0 d
            else
              let (d, _) := spanDigits s' in digitsValue 0 d
        | EmptyString => 0
        end
      else 0
  | EmptyString => 0
  end.

Definition parseUnsigned (negative : bool) (s : string) : jsnum :=
  if startsWith "Infinity" s then (if negative then NInf else PInf)
  else
    let (ip, r1) := spanDigits s in
    let (fp, r2) :=
      match r1 with
      | String c r1' => if Ascii.eqb c "."%char then spanDigits r1' else (EmptyString, r1)
      | EmptyString => (EmptyString, r1)
      end in
    match (ip ++ fp)%string with
    | EmptyString => NaN
    | ds => ofDecimal negative (digitsValue 0 ds)
              (parseExponent r2 - Z.of_nat (String.length fp))
    end.

(** [parseFloat(s)] for a string argument. *)
Definition parseFloat (s : string) : jsnum :=
  match trimStart s with
  | String c s' =>
      if Ascii.eqb c "-"%char then parseUnsigned true s'
      else if Ascii.eqb c "+"%char then parseUnsigned false s'
      else parseUnsigned false (String c s')
  | EmptyString => NaN
  end.

(** *** Number::toString, radix 10 *)

Definition numDigits (z : Z) : Z := Z.of_nat (String.length (ofZ z)).

(** The [n] with [10^(n-1) <= p / 2^1074 < 10^n], for [p > 0]. *)
Definition decimalExponent (p : Z) : Z :=
  let q := 2 ^ unitExp in
  if q <=? p then numDigits (p / q)
  else 1 - numDigits ((q + p - 1) / p - 1).

(** The [k]-digit candidate for [p] units: the neighbours of
    [p / 2^1074] on the grid of [k]-digit decimals that read back as [p],
    the closer one first, the even one on a tie.  Returns [(s, n)]. *)
Definition shortestAt (p n0 k : Z) : option (Z * Z) :=
  let e := n0 - k in
  let num := if 0 <=? e then p else p * 10 ^ (- e) in
  let den := if 0 <=? e then 2 ^ unitExp * 10 ^ e else 2 ^ unitExp in
  let lo := num / den in
  let frac := num mod den in
  let back (s : Z) := eqb (ofDecimal false s e) (Fin p) in
  let pick (s : Z) := if s =? 10 ^ k then Some (10 ^ (k - 1), n0 + 1) else Some (s, n0) in
  match back lo, back (lo + 1) with
  | true, true =>
      if 2 * frac <? den then pick lo
      else if den <? 2 * frac then pick (lo + 1)
      else if Z.even lo then pick lo else pick (lo + 1)
  | true, false => pick lo
  | false, true => pick (lo + 1)
  | false, false => None
  end.

(** The least number of digits that reads back, tried from [k] up. *)
Fixpoint shortestFrom (fuel : nat) (p n0 k : Z) : Z * Z :=
  match fuel with
  | O => (p, 0)
  | S fuel' =>
      match shortestAt p n0 k with
      | Some sn => sn
      | None => shortestFrom fuel' p n0 (k + 1)
      end
  end.

Definition formatDecimal (s n : Z) : string :=
  let ds := ofZ s in
  let k := Z.of_nat (String.length ds) in
  if (k <=? n) && (n <=? 21) then
    ds ++ repeat "0"%char (Z.to_nat (n - k))
  else if (0 <? n) && (n <=? 21) then
    take (Z.to_nat n) ds ++ "." ++ drop (Z.to_nat n) ds
  else if (-6 <? n) && (n <=? 0) then
    "0." ++ repeat "0"%char (Z.to_nat (- n)) ++ ds
  else
    let e := n - 1 in
    let sg := if e <? 0 then "-" else "+" in
    if k =? 1 then ds ++ "e" ++ sg ++ ofZ (Z.abs e)
    else take 1 ds ++ "." ++ drop 1 ds ++ "e" ++ sg ++ ofZ (Z.abs e).

Definition toStringPos (p : Z) : string :=
  let (s, n) := shortestFrom 17 p (decimalExponent p) 1 in
  formatDecimal s n.

(** [String(x)] for a number. *)
Definition toString (x : jsnum) : string :=
  match x with
  | NaN => "NaN"
  | PInf => "Infinity"
  | NInf => "-Infinity"
  | Fin n =>
      if n =? 0 then "0"
      else if n <? 0 then "-" ++ toStringPos (- n)
      else toStringPos n
  end.

End JsNumber.

(** ** Values, errors and completions *)

Import JsString.
Import JsNumber.

#[local] Set Warnings "-register-all".

(** What [response.json()] can produce, plus [undefined], which property
    access and a function without [return] produce. *)
Inductive JsVal : Type :=
| JUndefined
| JNull
| JBool (b : bool)
| JNum (x : jsnum)
| JStr (s : string)
| JArr (items : list JsVal)
| JObj (fields : list (string * JsVal)).

(** The values the search core can see thrown. *)
Inductive JsError : Type :=
| TypeError                                    (* a property of null, a call of a non-function *)
| NetworkFailure                               (* [fetch] rejected *)
| JsonFailure                                  (* [response.json()] rejected *)
| HttpError (status : Z) (statusText : string) (* new Error(`HTTP ${status}: ${statusText}`) *).

Inductive Completion (A : Type) : Type :=
| Normal (a : A)
| Throw (e : JsError).
Arguments Normal {A} a.
Arguments Throw {A} e.

Definition cbind {A B} (c : Completion A) (f : A -> Completion B) : Completion B :=
  match c with
  | Normal a => f a
  | Throw e => Throw e
  end.

Declare Scope completion_scope.
Delimit Scope completion_scope with completion.
Notation "x <- c ;; k" := (cbind c (fun x => k))
  (at level 61, c at next level, right associativity) : completion_scope.

Fixpoint lookupField (k : string) (fields : list (string * JsVal)) : JsVal :=
  match fields with
  | [] => JUndefined
  | (k', v) :: rest => if String.eqb k k' then v else lookupField k rest
  end.

Definition hasField (k : string) (fields : list (string * JsVal)) : bool :=
  existsb (fun kv => String.eqb k (fst kv)) fields.

(** [v.k], for a key that no built-in prototype defines (every key the
    search core reads is such a key): the own property of an object,
    [undefined] on any other value, a TypeError on [null] and [undefined]. *)
Definition getProp (v : JsVal) (k : string) : Completion JsVal :=
  match v with
  | JUndefined | JNull => Throw TypeError
  | JObj fields => Normal (lookupField k fields)
  | _ => Normal JUndefined
  end.

(** [v?.k] *)
Definition optProp (v : JsVal) (k : string) : JsVal :=
  match v with
  | JObj fields => lookupField k fields
  | _ => JUndefined
  end.

(** ToBoolean *)
Definition truthy (v : JsVal) : bool :=
  match v with
  | JUndefined | JNull => false
  | JBool b => b
  | JNum x => JsNumber.truthy x
  | JStr s => negb (String.eqb s "")
  | JArr _ | JObj _ => true
  end.

(** [a || b] on values already computed. *)
Definition jsOr (a b : JsVal) : JsVal := if truthy a then a else b.

(** [v === true] *)
Definition isTrue (v : JsVal) : bool :=
  match v with
  | JBool true => true
  | _ => false
  end.

(** ToString.  An array is joined with commas, [null] and [undefined]
    elements giving the empty string.  A parsed object prints as
    [[object Object]] unless it has an own [toString] property: that
    property is data, not a function, and the conversion then fails. *)
Fixpoint toStringV (v : JsVal) : Completion string :=
  match v with
  | JUndefined => Normal "undefined"
  | JNull => Normal "null"
  | JBool true => Normal "true"
  | JBool false => Normal "false"
  | JNum x => Normal (JsNumber.toString x)
  | JStr s => Normal s
  | JArr items =>
      let fix elems (l : list JsVal) : Completion (list string) :=
        match l with
        | [] => Normal []
        | x :: rest =>
            match (match x with
                   | JUndefined | JNull => Normal ""
                   | _ => toStringV x
                   end) with
            | Throw e => Throw e
            | Normal s =>
                match elems rest with
                | Throw e => Throw e
                | Normal ss => Normal (s :: ss)
                end
            end
        end in
      match elems items with
      | Throw e => Throw e
      | Normal ss => Normal (join "," ss)
      end
  | JObj fields =>
      if hasField "toString" fields then Throw TypeError
      else Normal "[object Object]"
  end.

(** [v.toLowerCase()]: only a string has the method. *)
Definition toLowerCaseV (v : JsVal) : Completion string :=
  match v with
  | JStr s => Normal (toLowerCase s)
  | _ => Throw TypeError
  end.

(** [parseFloat(v)]: the argument is converted to a string first. *)
Definition parseFloatV (v : JsVal) : Completion jsnum :=
  cbind (toStringV v) (fun s => Normal (parseFloat s)).

(** ** Data model of the search *)

Record Store : Type := {
  store_name : string;
  store_key : string;
  store_url : string;
  suggestApiUrl : string
}.

Definition stores : list Store := [
  {| store_name := "Players C&C";
     store_key := "playerscandc";
     store_url := "https://playerscandc.com/";
     suggestApiUrl := "https://playerscandc.com/search/suggest.json?q={term}&resources[type]=product&resources[limit]=10&section_id=predictive-search" |};
  {| store_name := "Mana Lounge";
     store_key := "manalounge";
     store_url := "https://www.manalounge.ca/";
     suggestApiUrl := "https://www.manalounge.ca/search/suggest.json?q={term}&resources[type]=product&resources[limit]=10&section_id=predictive-search" |};
  {| store_name := "Lamood Comics";
     store_key := "lamoodcomics";
     store_url := "https://lamoodcomics.ca/";
     suggestApiUrl := "https://lamoodcomics.ca/search/suggest.json?q={term}&resources[type]=product&resources[limit]=10&section_id=predictive-search" |}
].

(** [interface CardResult].  [name] and [image] hold whatever value the
    response carried; the other fields are built by the code. *)
Record CardResult : Type := {
  store : string;
  name : JsVal;
  priceMin : jsnum;
  priceMax : jsnum;
  availability : string;
  url : string;
  image : JsVal;
  condition : string
}.

Inductive Status : Type := found | not_found | no_inventory.

(** [interface CardSearchResult] *)
Record CardSearchResult : Type := {
  cardName : string;
  status : Status;
  results : list CardResult
}.

Inductive SearchMode : Type := single | list_mode.

(** ** Effects *)

(** What the console receives. *)
Inductive LogMessage : Type :=
| RetryWarning (attempt waitTime : Z) (error : JsError)
| ValidationWarning (error : JsError)
| StoreWarning (storeName cardName : string) (error : JsError)
| SearchError (error : JsError).

Inductive Event : Type :=
| EFetch (url : string)                 (* fetch(url) *)
| ETimeout (ms : Z)                     (* await of setTimeout(resolve, ms) *)
| EWarn (m : LogMessage)                (* console.warn *)
| EConsoleError (m : LogMessage)        (* console.error *)
| ESetLoading (b : bool)
| ESetError (message : string)
| ESetSearchResults (rs : list CardSearchResult)
| ESetShowSuggestions (b : bool).

Definition Trace : Type := list Event.

(** A response as the code reads it: [ok], [status], [statusText] and the
    outcome of [json()]. *)
Record Response : Type := {
  ok : bool;
  resp_status : Z;
  statusText : string;
  json : Completion JsVal
}.

(** The network: what the [k]-th request (counting from 0) for a URL
    brings, a rejection or a response. *)
Definition Network : Type := string -> nat -> Completion Response.

Definition isFetchOf (u : string) (e : Event) : bool :=
  match e with
  | EFetch u' => String.eqb u u'
  | _ => false
  end.

Definition requestsTo (u : string) (h : Trace) : nat :=
  List.length (filter (isFetchOf u) h).

(** An asynchronous computation: from the events so far to its completion
    and the events it adds.  Events stay when the computation throws. *)
Definition M (A : Type) : Type := Trace -> Completion A * Trace.

Definition ret {A} (a : A) : M A := fun _ => (Normal a, []).

Definition throw {A} (e : JsError) : M A := fun _ => (Throw e, []).

Definition bind {A B} (c : M A) (f : A -> M B) : M B :=
  fun h =>
    match c h with
    | (Normal a, d1) => let (r, d2) := f a (h ++ d1)%list in (r, (d1 ++ d2)%list)
    | (Throw e, d1) => (Throw e, d1)
    end.

(** [try { c } catch (error) { handler error }] *)
Definition tryCatch {A} (c : M A) (handler : JsError -> M A) : M A :=
  fun h =>
    match c h with
    | (Normal a, d1) => (Normal a, d1)
    | (Throw e, d1) => let (r, d2) := handler e (h ++ d1)%list in (r, (d1 ++ d2)%list)
    end.

(** [try { c } finally { f }] *)
Definition tryFinally {A} (c : M A) (f : M unit) : M A :=
  fun h =>
    let (r, d1) := c h in
    match f (h ++ d1)%list with
    | (Normal _, d2) => (r, (d1 ++ d2)%list)
    | (Throw e, d2) => (Throw e, (d1 ++ d2)%list)
    end.

Definition emit (e : Event) : M unit := fun _ => (Normal tt, [e]).

Definition liftC {A} (c : Completion A) : M A := fun _ => (c, []).

Declare Scope js_scope.
Delimit Scope js_scope with js.
Notation "x <- c ;; k" := (bind c (fun x => k))
  (at level 61, c at next level, right associativity) : js_scope.
Notation "c ;; k" := (bind c (fun _ => k))
  (at level 61, right associativity) : js_scope.

Fixpoint mapM {A B} (f : A -> M B) (l : list A) : M (list B) :=
  match l with
  | [] => ret []
  | x :: rest =>
      (y <- f x ;;
       ys <- mapM f rest ;;
       ret (y :: ys))%js
  end.

(** ** The search core *)

Section SearchCore.

Variable net : Network.

Local Open Scope js_scope.

(** [await fetch(url)] *)
Definition fetch (url : string) : M Response :=
  fun h => (net url (requestsTo url h), [EFetch url]).

(** [await new Promise(resolve => setTimeout(resolve, ms))] *)
Definition setTimeout (ms : Z) : M unit := emit (ETimeout ms).

Definition consoleWarn (m : LogMessage) : M unit := emit (EWarn m).
Definition consoleError (m : LogMessage) : M unit := emit (EConsoleError m).
Definition setLoading (b : bool) : M unit := emit (ESetLoading b).
Definition setError (s : string) : M unit := emit (ESetError s).
Definition setSearchResults (rs : list CardSearchResult) : M unit :=
  emit (ESetSearchResults rs).
Definition setShowSuggestions (b : bool) : M unit := emit (ESetShowSuggestions b).

(** *** [fetchWithRetry] *)

(** The body of the [try]: one request, its status check, its body. *)
Definition attemptOnce (url : string) : M JsVal :=
  response <- fetch url ;;
  if negb (ok response)
  then throw (HttpError (resp_status response) (statusText response))
  else liftC (json response).

(** The [for] loop from [attempt] on.  [fuel] bounds the iterations; the
    guard [attempt <= maxRetries] is the loop's own. *)
Fixpoint retryLoop (fuel : nat) (url : string) (maxRetries attempt : Z) : M JsVal :=
  if attempt <=? maxRetries then
    match fuel with
    | O => ret JUndefined
    | S fuel' =>
        tryCatch (attemptOnce url)
          (fun error =>
             let isLastAttempt := attempt =? maxRetries in
             if isLastAttempt then throw error
             else
               let waitTime := 2 ^ (attempt - 1) * 1000 in
               consoleWarn (RetryWarning attempt waitTime error) ;;
               setTimeout waitTime ;;
               retryLoop fuel' url maxRetries (attempt + 1))
    end
  else ret JUndefined.

(** The loop runs at most [maxRetries] times, so that much fuel is
    enough (see [retryLoop_fuel]). *)
Definition fetchWithRetry (url : string) (maxRetries : Z) : M JsVal :=
  retryLoop (Z.to_nat maxRetries) url maxRetries 1.

(** *** [validateCardName] *)

Definition validateUrl (cardName : string) : string :=
  "https://api.scryfall.com/cards/named?exact=" ++ encodeURIComponent (trim cardName).

Definition validateCardName (cardName : string) : M bool :=
  tryCatch
    (response <- fetch (validateUrl cardName) ;;
     ret (ok response))
    (fun error =>
       consoleWarn (ValidationWarning error) ;;
       ret false).

(** *** [searchSingleCard] *)

Definition proxyUrl (st : Store) (cardName : string) : string :=
  let encodedSearchTerm := encodeURIComponent (trim cardName) in
  let apiUrl := replaceFirst "{term}" encodedSearchTerm (suggestApiUrl st) in
  "https://api.allorigins.win/raw?url=" ++ encodeURIComponent apiUrl.

(** [data?.resources?.results?.products || []] *)
Definition productsOf (data : JsVal) : JsVal :=
  jsOr (optProp (optProp (optProp data "resources") "results") "products") (JArr []).

(** [product.available === true] *)
Definition isAvailable (product : JsVal) : Completion bool :=
  (a <- getProp product "available" ;;
   Normal (isTrue a))%completion.

(** The second filter: the lower-cased title includes the lower-cased
    card name. *)
Definition titleMatches (cardName : string) (product : JsVal) : Completion bool :=
  (title <- getProp product "title" ;;
   productTitle <- toLowerCaseV (jsOr title (JStr "")) ;;
   let searchCardName := toLowerCase cardName in
   Normal (includes productTitle searchCardName))%completion.

(** The object literal of the [map] callback, its fields in order. *)
Definition toCardResult (st : Store) (product : JsVal) : Completion CardResult :=
  (title <- getProp product "title" ;;
   price_min <- getProp product "price_min" ;;
   pmin <- parseFloatV (jsOr price_min (JStr "0")) ;;
   price_max <- getProp product "price_max" ;;
   pmax <- parseFloatV (jsOr price_max (JStr "0")) ;;
   purl <- getProp product "url" ;;
   u <- (if truthy purl
         then (path <- toStringV purl ;;
               Normal (stripTrailingSlash (store_url st) ++ path))
         else Normal (store_url st)) ;;
   pimage <- getProp product "image" ;;
   im <- (if truthy pimage then Normal pimage
          else (featured <- getProp product "featured_image" ;;
                Normal (optProp featured "url"))) ;;
   Normal {| store := store_name st;
             name := jsOr title (JStr "Unknown Card");
             priceMin := pmin;
             priceMax := pmax;
             availability := "In Stock";
             url := u;
             image := im;
             condition := "NM" |})%completion.

(** [array.filter(p)] for a callback that may throw. *)
Fixpoint filterC {A} (p : A -> Completion bool) (l : list A) : Completion (list A) :=
  match l with
  | [] => Normal []
  | x :: rest =>
      (keep <- p x ;;
       rest' <- filterC p rest ;;
       Normal (if keep then x :: rest' else rest'))%completion
  end.

(** [array.map(f)] for a callback that may throw. *)
Fixpoint mapC {A B} (f : A -> Completion B) (l : list A) : Completion (list B) :=
  match l with
  | [] => Normal []
  | x :: rest =>
      (y <- f x ;;
       ys <- mapC f rest ;;
       Normal (y :: ys))%completion
  end.

(** [products.filter(..).filter(..).map(..)]; [filter] is a method of
    arrays only. *)
Definition normalizeProducts (st : Store) (cardName : string) (products : JsVal)
  : Completion (list CardResult) :=
  match products with
  | JArr items =>
      (available <- filterC isAvailable items ;;
       matching <- filterC (titleMatches cardName) available ;;
       mapC (toCardResult st) matching)%completion
  | _ => Throw TypeError
  end.

(** The body of the per-store [try]. *)
Definition queryStore (st : Store) (cardName : string) : M (list CardResult) :=
  data <- fetchWithRetry (proxyUrl st cardName) 3 ;;
  liftC (normalizeProducts st cardName (productsOf data)).

(** The callback of [stores.map]: the body under its [catch]. *)
Definition searchStore (st : Store) (cardName : string) : M (list CardResult) :=
  tryCatch (queryStore st cardName)
    (fun error =>
       consoleWarn (StoreWarning (store_name st) cardName error) ;;
       ret []).

(** The comparator [(a, b) => a.priceMin - b.priceMin]. *)
Definition byPriceMin (a b : CardResult) : jsnum := sub (priceMin a) (priceMin b).

(** [Array.prototype.sort] with a comparator: a stable sort that places
    [b] before [a] only when the comparator of [a] and [b] is above zero
    (a NaN result counts as zero).  For a comparator that orders its
    arguments consistently every conforming sort gives this result.  For
    the others (a comparator that answers NaN, as this program's does
    next to a price that is not a number) the language leaves the order
    to the engine: the order computed here is then the one an insertion
    sort gives, a rearrangement of the list as with every engine, and the
    properties below state an order only for lists on which the
    comparator answers no NaN. *)
Fixpoint sortInsert {A} (cmp : A -> A -> jsnum) (x : A) (l : list A) : list A :=
  match l with
  | [] => [x]
  | y :: rest =>
      if ltb zero (cmp x y) then y :: sortInsert cmp x rest
      else x :: y :: rest
  end.

Fixpoint sort {A} (cmp : A -> A -> jsnum) (l : list A) : list A :=
  match l with
  | [] => []
  | x :: rest => sortInsert cmp x (sort cmp rest)
  end.

(** The store tasks start together and [Promise.all] returns their
    results in the order of [stores]; a task's requests go to its own
    URL, and the answer to a request depends on the URL and on how many
    requests that URL had before, so the tasks are run here one after the
    other.  The lists, the requests made and the waits are those of the
    program; its events are recorded here task by task, while in the
    program the events of the three tasks interleave as the answers
    arrive. *)
Definition searchSingleCard (cardName : string) : M CardSearchResult :=
  isValidCard <- validateCardName cardName ;;
  if negb isValidCard then
    ret {| cardName := cardName; status := not_found; results := [] |}
  else
    allResults <- mapM (fun st => searchStore st cardName) stores ;;
    let flatResults := List.concat allResults in
    ret {| cardName := cardName;
           status := if (0 <? List.length flatResults)%nat then found else no_inventory;
           results := sort byPriceMin flatResults |}.

(** *** [searchCards] *)

(** The component state [searchCards] reads. *)
Record Inputs : Type := {
  searchMode : SearchMode;
  searchTerm : string;
  cardList : string
}.

Definition cardsToSearch (i : Inputs) : list string :=
  match searchMode i with
  | single => [trim (searchTerm i)]
  | list_mode =>
      filter (fun card => negb (String.eqb card ""))
        (map trim (split "010"%char (cardList i)))
  end.

(** The [for] loop over [cardsToSearch], from index [i] on, with the
    outcomes gathered so far. *)
Fixpoint searchLoop (i : nat) (cards : list string) (acc : list CardSearchResult)
  : M (list CardSearchResult) :=
  match cards with
  | [] => ret acc
  | cardName :: rest =>
      (if (0 <? i)%nat then setTimeout 100 else ret tt) ;;
      result <- searchSingleCard cardName ;;
      let acc' := (acc ++ [result])%list in
      setSearchResults acc' ;;
      searchLoop (S i) rest acc'
  end.

Definition hasStatus (s : Status) (r : CardSearchResult) : bool :=
  match status r, s with
  | found, found | not_found, not_found | no_inventory, no_inventory => true
  | _, _ => false
  end.

Definition searchCards (i : Inputs) : M unit :=
  let cards := cardsToSearch i in
  if (List.length cards =? 0)%nat then
    setError (match searchMode i with
              | single => "Please enter a card name to search"
              | list_mode => "Please enter at least one card name"
              end)
  else
    setLoading true ;;
    setError "" ;;
    setSearchResults [] ;;
    setShowSuggestions false ;;
    tryFinally
      (tryCatch
         (rs <- searchLoop 0 cards [] ;;
          let totalFound := List.length (filter (hasStatus found) rs) in
          let totalNotFound := List.length (filter (hasStatus not_found) rs) in
          let totalNoInventory := List.length (filter (hasStatus no_inventory) rs) in
          if (totalFound =? 0)%nat && (totalNotFound =? 0)%nat && (totalNoInventory =? 0)%nat
          then setError "No cards found. Please check your search terms."
          else ret tt)
         (fun error =>
            setError "An error occurred while searching. Please try again." ;;
            consoleError (SearchError error)))
      (setLoading false).

End SearchCore.

(** ** Vocabulary of the properties *)

Local Open Scope list_scope.

(** What one attempt of [fetchWithRetry] makes of the network's answer:
    the parsed body, or the error its [try] block throws. *)
Definition attemptResult (r : Completion Response) : Completion JsVal :=
  match r with
  | Throw e => Throw e
  | Normal resp =>
      if negb (ok resp) then Throw (HttpError (resp_status resp) (statusText resp))
      else json resp
  end.

(** The answers to the requests for [url] from the [base]-th on fail with
    the errors [errs], in this order. *)
Definition failsWith (net : Network) (url : string) (base : nat) (errs : list JsError) : Prop :=
  forall k e, nth_error errs k = Some e ->
    attemptResult (net url (base + k)%nat) = Throw e.

(** The delay after the failure of attempt number [attempt], in ms. *)
Definition backoff (attempt : Z) : Z := 2 ^ (attempt - 1) * 1000.

(** The events of a run whose attempts from number [attempt] on fail with
    [errs], each followed by its warning and its wait, and that then makes
    one more request. *)
Fixpoint retryTrace (url : string) (errs : list JsError) (attempt : Z) : Trace :=
  match errs with
  | [] => [EFetch url]
  | e :: rest =>
      EFetch url
        :: EWarn (RetryWarning attempt (backoff attempt) e)
        :: ETimeout (backoff attempt)
        :: retryTrace url rest (attempt + 1)
  end.

(** The URLs requested, in order. *)
Fixpoint requests (t : Trace) : list string :=
  match t with
  | [] => []
  | EFetch u :: rest => u :: requests rest
  | _ :: rest => requests rest
  end.

(** The delays waited, in order. *)
Fixpoint timeouts (t : Trace) : list Z :=
  match t with
  | [] => []
  | ETimeout ms :: rest => ms :: timeouts rest
  | _ :: rest => timeouts rest
  end.

(** Requests and waits only, in order. *)
Definition pacing (t : Trace) : Trace :=
  filter (fun e => match e with EFetch _ | ETimeout _ => true | _ => false end) t.

(** [n] requests for [url] with the doubling waits between them, the
    first wait being the one after attempt number [attempt]. *)
Fixpoint retrySchedule (url : string) (n : nat) (attempt : Z) : Trace :=
  match n with
  | O => []
  | S O => [EFetch url]
  | S n' => EFetch url :: ETimeout (backoff attempt) :: retrySchedule url n' (attempt + 1)
  end.

(** A value [response.json()] can resolve to. *)
Definition isJson (v : JsVal) : bool :=
  match v with
  | JUndefined => false
  | _ => true
  end.

(** [a] may stand before [b] in a list ascending by minimum price. *)
Definition priceLe (a b : CardResult) : Prop :=
  leb (priceMin a) (priceMin b) = true.

(** [b] is not cheaper than [a]: the weaker order that also makes sense
    next to a price that is not a number. *)
Definition notCheaper (a b : CardResult) : Prop :=
  ltb (priceMin b) (priceMin a) = false.


(** The minimum price of [r] is a number. *)
Definition pricedMin (r : CardResult) : Prop := isNaN (priceMin r) = false.

(** What [validateCardName] makes of the network's answer. *)
Definition validOf (r : Completion Response) : bool :=
  match r with
  | Normal resp => ok resp
  | Throw _ => false
  end.

(** The fan-out of [searchSingleCard]: every store's list, in the order
    of [stores]. *)
Definition fanOut (net : Network) (cardName : string) : M (list (list CardResult)) :=
  mapM (fun st => searchStore net st cardName) stores.

(** The outcome for a name that failed validation. *)
Definition notFoundOutcome (name : string) : CardSearchResult :=
  {| cardName := name; status := not_found; results := [] |}.

(** The outcome for a valid name whose stores returned [flat], in the
    order of [stores]. *)
Definition mergedOutcome (name : string) (flat : list CardResult) : CardSearchResult :=
  {| cardName := name;
     status := if (0 <? List.length flat)%nat then found else no_inventory;
     results := sort byPriceMin flat |}.

(** The events [validateCardName] adds for the network's answer [r]. *)
Definition validationTrace (name : string) (r : Completion Response) : Trace :=
  EFetch (validateUrl name)
    :: match r with
       | Normal _ => []
       | Throw e => [EWarn (ValidationWarning e)]
       end.

(** The value at the path [resources.results.products] of a body. *)
Definition productsPath (data : JsVal) : JsVal :=
  optProp (optProp (optProp data "resources") "results") "products".

Definition isArray (v : JsVal) : bool :=
  match v with
  | JArr _ => true
  | _ => false
  end.

(** The list a store contributes to a search started after the events
    [h]. *)
Definition storeList (net : Network) (st : Store) (name : string) (h : Trace)
  : list CardResult :=
  match fst (searchStore net st name h) with
  | Normal rs => rs
  | Throw _ => []
  end.

(** The letters below U+0100 that have two cases: A to Z and a to z, and
    in Latin-1 the capitals U+00C0 to U+00DE and the small letters U+00E0
    to U+00FE, without the multiplication and division signs U+00D7 and
    U+00F7 that sit among them. *)
Definition isCasedLetter (c : ascii) : bool :=
  let n := code c in
  ((65 <=? n) && (n <=? 90)) || ((97 <=? n) && (n <=? 122))
  || ((192 <=? n) && (n <=? 254)
      && negb (n =? 215) && negb (n =? 223) && negb (n =? 247)).

(** [a] and [b] are the same letter up to case: the same code unit, or
    the capital and the small form of one letter, which are 32 places
    apart. *)
Definition sameLetter (a b : ascii) : bool :=
  Ascii.eqb a b
  || (isCasedLetter a && isCasedLetter b
      && (Z.abs (code a - code b) =? 32)).

(** Two texts of the same length, letter by letter the same up to case. *)
Fixpoint sameText (s t : string) : bool :=
  match s, t with
  | EmptyString, EmptyString => true
  | String a s', String b t' => sameLetter a b && sameText s' t'
  | _, _ => false
  end.

(** [needle] occurs in [hay] up to the case of letters: some substring
    of [hay] is [needle] letter by letter, up to case. *)
Definition ciSubstring (needle hay : string) : Prop :=
  exists pre mid post,
    hay = (pre ++ mid ++ post)%string /\ sameText mid needle = true.

(** The 256 code units. *)
Definition codeUnits : list ascii := map ascii_of_nat (seq 0 256).

(** The title of a product as text; a product without a title has the
    empty title. *)
Definition titleText (product : JsVal) : string :=
  match optProp product "title" with
  | JStr s => s
  | _ => EmptyString
  end.

(** The filter of the specification: the availability flag is [true] and
    the title contains the card name, case-insensitively. *)
Definition keeps (name : string) (product : JsVal) : Prop :=
  optProp product "available" = JBool true /\ ciSubstring name (titleText product).



(** The price the code reads from a field: the field parsed as a number,
    or 0 when the field is absent or otherwise falsy. *)
Definition priceOf (field : JsVal) : Completion jsnum :=
  parseFloatV (jsOr field (JStr "0")).

(** The code's two filters, as one test. *)
Definition keepsB (name : string) (product : JsVal) : bool :=
  isTrue (optProp product "available")
  && includes (toLowerCase (titleText product)) (toLowerCase name).

(** The events [searchCards] emits before its loop. *)
Definition prelude : Trace :=
  [ESetLoading true; ESetError ""; ESetSearchResults []; ESetShowSuggestions false].

(** The events of a batch whose cards, from index [i] on, ran as [runs]
    (each card's outcome and events), [acc] being the outcomes before
    them: a pause of 100 ms before every card but the one at index 0, the
    card's own events, then the publication of the outcomes so far. *)
Fixpoint batchTrace (i : nat) (acc : list CardSearchResult)
    (runs : list (CardSearchResult * Trace)) : Trace :=
  match runs with
  | [] => []
  | (out, seg) :: rest =>
      (if (0 <? i)%nat then [ETimeout 100] else [])
        ++ seg
        ++ ESetSearchResults (acc ++ [out])
        :: batchTrace (S i) (acc ++ [out]) rest
  end.

(** [runs] are the runs of [searchSingleCard] on [cards], one after the
    other in this order, each started after all the events before it. *)
Fixpoint sequentialRuns (net : Network) (h : Trace) (i : nat)
    (acc : list CardSearchResult) (cards : list string)
    (runs : list (CardSearchResult * Trace)) : Prop :=
  match cards, runs with
  | [], [] => True
  | name :: cards', (out, seg) :: runs' =>
      let h1 := h ++ (if (0 <? i)%nat then [ETimeout 100] else []) in
      searchSingleCard net name h1 = (Normal out, seg)
      /\ sequentialRuns net (h1 ++ seg ++ [ESetSearchResults (acc ++ [out])])
           (S i) (acc ++ [out]) cards' runs'
  | _, _ => False
  end.

(** The outcome sequences published to the component state, in order. *)
Fixpoint published (t : Trace) : list (list CardSearchResult) :=
  match t with
  | [] => []
  | ESetSearchResults rs :: rest => rs :: published rest
  | _ :: rest => published rest
  end.

(** The error messages set, in order. *)
Fixpoint errorsSet (t : Trace) : list string :=
  match t with
  | [] => []
  | ESetError m :: rest => m :: errorsSet rest
  | _ :: rest => errorsSet rest
  end.

(** The non-empty prefixes of [l], shortest first. *)
Definition prefixes {A} (l : list A) : list (list A) :=
  map (fun k => firstn k l) (seq 1 (List.length l)).

(** Network, timer and console events: all a single-card search emits. *)
Definition isSearchEvent (e : Event) : bool :=
  match e with
  | EFetch _ | ETimeout _ | EWarn _ => true
  | _ => false
  end.

(** The verdict of a filter callback that returned. *)
Definition verdict (c : Completion bool) : bool :=
  match c with
  | Normal b => b
  | Throw _ => false
  end.

(** A trace of network, timer and console events only. *)
Definition searchEvents (t : Trace) : Prop :=
  Forall (fun e => isSearchEvent e = true) t.

Fixpoint allWhiteSpace (s : string) : bool :=
  match s with
  | EmptyString => true
  | String c s' => isWhiteSpace c && allWhiteSpace s'
  end.

(** *** Sample responses *)

Definition okResponse (body : JsVal) : Completion Response :=
  Normal {| ok := true; resp_status := 200; statusText := "OK"; json := Normal body |}.

Definition errorResponse : Completion Response :=
  Normal {| ok := false; resp_status := 503; statusText := "Service Unavailable";
            json := Throw JsonFailure |}.

(** A store response body with the given products. *)
Definition searchBody (products : list JsVal) : JsVal :=
  JObj [("resources", JObj [("results", JObj [("products", JArr products)])])].

Definition product (available : bool) (title priceMin priceMax path : string) : JsVal :=
  JObj [("available", JBool available); ("title", JStr title);
        ("price_min", JStr priceMin); ("price_max", JStr priceMax);
        ("url", JStr path)].

Definition isValidation (u : string) : bool := startsWith "https://api.scryfall.com/" u.

(** Every name is valid; the first store answers at once, the second
    after two failures, the third has nothing in stock. *)
Definition sampleNet : Network := fun u k =>
  if isValidation u then okResponse JNull
  else if includes u "playerscandc" then
    okResponse (searchBody [product true "Lightning Bolt (M11)" "5.00" "6.00" "/products/bolt-m11";
                            product true "Shock" "0.25" "0.25" "/products/shock";
                            product false "Lightning Bolt (Beta)" "900.00" "900.00" "/products/bolt-beta"])
  else if includes u "manalounge" then
    match k with
    | O | S O => errorResponse
    | _ => okResponse (searchBody [product true "lightning bolt" "1.50" "1.50" "/products/bolt"])
    end
  else okResponse (searchBody [product false "Lightning Bolt" "3.00" "3.00" "/products/bolt"]).



(** Store lists that ascend as they come: 1.00, then 1.50 and 2.00, then
    2.00 again. *)
Definition ascendingNet : Network := fun u k =>
  if isValidation u then okResponse JNull
  else if includes u "playerscandc" then
    okResponse (searchBody [product true "Lightning Bolt A" "1.00" "1.00" "/a"])
  else if includes u "manalounge" then
    okResponse (searchBody [product true "Lightning Bolt B" "1.50" "1.50" "/b";
                            product true "Lightning Bolt C" "2.00" "2.00" "/c"])
  else okResponse (searchBody [product true "Lightning Bolt D" "2.00" "2.50" "/d"]).

(** A store that lists a negative minimum above its maximum. *)
Definition oddPricesNet : Network := fun u k =>
  if isValidation u then okResponse JNull
  else okResponse (searchBody [product true "Lightning Bolt" "-1.00" "-2.00" "/products/bolt"]).

(** The three stores list one product each, at 3.00, at a price that is
    not a number, and at 1.00. *)
Definition unpricedNet : Network := fun u k =>
  if isValidation u then okResponse JNull
  else if includes u "playerscandc" then
    okResponse (searchBody [product true "Lightning Bolt" "3.00" "3.00" "/a"])
  else if includes u "manalounge" then
    okResponse (searchBody [product true "Lightning Bolt" "call us" "call us" "/b"])
  else okResponse (searchBody [product true "Lightning Bolt" "1.00" "1.00" "/c"]).

(** A store whose second product has a number where its title should
    be. *)
Definition numericTitleNet : Network := fun u k =>
  if isValidation u then okResponse JNull
  else okResponse (searchBody
         [product true "Lightning Bolt" "1.00" "1.00" "/products/bolt";
          JObj [("available", JBool true); ("title", JNum (parseFloat "2010"))]]).



(** A card list of two lines. *)
Definition twoCards : string :=
  ("Lightning Bolt" ++ String "010"%char "Shock")%string.

(** A network on which every request fails. *)
Definition downNet : Network := fun _ _ => Throw NetworkFailure.

(** A request that fails twice and then succeeds. *)
Definition flakyNet (payload : JsVal) : Network := fun _ k =>
  match k with
  | O | S O => errorResponse
  | _ => okResponse payload
  end.

Definition playersStore : Store :=
  {| store_name := "Players C&C";
     store_key := "playerscandc";
     store_url := "https://playerscandc.com/";
     suggestApiUrl := "https://playerscandc.com/search/suggest.json?q={term}&resources[type]=product&resources[limit]=10&section_id=predictive-search" |}.

(** ** The rest of the component *)

(** *** Editing the card list *)

Module CardListEditor.

(** The component state the list handlers read and write. *)
Record State : Type := {
  searchTerm : string;
  cardList : string;
  suggestions : JsVal;
  showSuggestions : bool
}.

Definition newline : string := String "010"%char EmptyString.

(** [cardList.split('\n').filter(card => card.trim() !== '')] *)
Definition currentCards (text : string) : list string :=
  filter (fun card => negb (String.eqb (trim card) "")) (split "010"%char text).

(** [currentCards.includes(newCard)] *)
Definition includesCard (cards : list string) (card : string) : bool :=
  existsb (String.eqb card) cards.

Definition addCardToList (s : State) : State :=
  if String.eqb (trim (searchTerm s)) "" then s
  else
    let newCard := trim (searchTerm s) in
    let cards := currentCards (cardList s) in
    {| searchTerm := "";
       cardList :=
         if negb (includesCard cards newCard) then
           (if (0 <? List.length cards)%nat
            then (join newline cards ++ newline ++ newCard)%string
            else newCard)
         else cardList s;
       suggestions := JArr [];
       showSuggestions := false |}.

Definition removeCardFromList (cardToRemove : string) (s : State) : State :=
  let cards := currentCards (cardList s) in
  let updatedCards := filter (fun card => negb (String.eqb card cardToRemove)) cards in
  {| searchTerm := searchTerm s;
     cardList := join newline updatedCards;
     suggestions := suggestions s;
     showSuggestions := showSuggestions s |}.

(** [const newCard = searchTerm.trim()] *)
Definition newCard (s : State) : string := trim (searchTerm s).

(** The state change of [handleInputChange]: [setSearchTerm(value)]. *)
Definition setSearchTerm (value : string) (s : State) : State :=
  {| searchTerm := value;
     cardList := cardList s;
     suggestions := suggestions s;
     showSuggestions := showSuggestions s |}.

End CardListEditor.

(** The cards a list-mode search runs on for this card list text. *)
Definition listCards (text : string) : list string :=
  cardsToSearch {| searchMode := list_mode; searchTerm := EmptyString; cardList := text |}.

Fixpoint containsChar (c : ascii) (s : string) : bool :=
  match s with
  | EmptyString => false
  | String a s' => Ascii.eqb a c || containsChar c s'
  end.

Definition hasNewline (s : string) : bool := containsChar "010"%char s.

(** The test of the card list filter: [card.trim() !== ''] *)
Definition nonBlank (card : string) : bool := negb (String.eqb (trim card) "").

(** The values [setLoading] was called with, in order. *)
Fixpoint loadingSet (t : Trace) : list bool :=
  match t with
  | [] => []
  | ESetLoading b :: rest => b :: loadingSet rest
  | _ :: rest => loadingSet rest
  end.

(** The messages written with [console.error], in order. *)
Fixpoint consoleErrors (t : Trace) : list LogMessage :=
  match t with
  | [] => []
  | EConsoleError m :: rest => m :: consoleErrors rest
  | _ :: rest => consoleErrors rest
  end.

(** The addresses a search for [name] may request: the validation URL, or
    a configured store's suggest URL through the proxy. *)
Definition cardUrl (name url : string) : Prop :=
  url = validateUrl name \/ exists st, In st stores /\ url = proxyUrl st name.

(** The events of the retry loop from attempt [a] on: requests to its URL,
    warnings, and the waits of the attempts before the last. *)
Definition retryEvent (url : string) (a m : Z) (e : Event) : Prop :=
  match e with
  | EFetch u => u = url
  | ETimeout ms => exists k, a <= k < m /\ ms = backoff k
  | EWarn _ => True
  | _ => False
  end.

(** An event a search for [name] may emit: a request to one of its
    addresses, a wait of one or two seconds, or a warning. *)
Definition cardEvent (name : string) (e : Event) : Prop :=
  match e with
  | EFetch u => cardUrl name u
  | ETimeout ms => ms = 1000 \/ ms = 2000
  | EWarn _ => True
  | _ => False
  end.

(** *** What the page shows *)

(** The three tallies above the results:
    [searchResults.filter(r => r.status === ...).length]. *)
Definition tally (s : Status) (rs : list CardSearchResult) : nat :=
  List.length (filter (hasStatus s) rs).

(** The number in the label of the submit button, shown in list mode when
    [cardList.trim()] is not empty. *)
Definition buttonCount (text : string) : nat :=
  List.length (CardListEditor.currentCards text).

Definition showsButtonCount (mode : SearchMode) (text : string) : bool :=
  match mode with
  | list_mode => negb (String.eqb (trim text) "")
  | single => false
  end.

(** The object literal of [getStoreColor]. *)
Definition colors : list (string * string) :=
  [("Players C&C", "bg-blue-500");
   ("Mana Lounge", "bg-purple-500");
   ("Lamood Comics", "bg-green-500")]%string.

(** The property names every object inherits. *)
Definition objectPrototypeKeys : list string :=
  ["constructor"; "hasOwnProperty"; "isPrototypeOf"; "propertyIsEnumerable";
   "toLocaleString"; "toString"; "valueOf"; "__proto__";
   "__defineGetter__"; "__defineSetter__"; "__lookupGetter__"; "__lookupSetter__"]%string.

(** What [getStoreColor] returns: a class name, or for an inherited
    property name the inherited value itself (a function or the prototype
    object, which are truthy). *)
Inductive ColorResult : Type :=
| ClassName (c : string)
| Inherited (key : string).

Fixpoint ownColor (key : string) (table : list (string * string)) : option string :=
  match table with
  | [] => None
  | (k, c) :: rest => if String.eqb key k then Some c else ownColor key rest
  end.

(** [colors[store] || 'bg-gray-500'] *)
Definition getStoreColor (storeName : string) : ColorResult :=
  match ownColor storeName colors with
  | Some c => ClassName c
  | None =>
      if existsb (String.eqb storeName) objectPrototypeKeys then Inherited storeName
      else ClassName "bg-gray-500"
  end.

(** *** Suggestions *)

(** The asynchronous computations of the search core, over any type of
    events. *)
Module Async.

Section Over.

Context {Ev : Type}.

Definition T (A : Type) : Type := list Ev -> Completion A * list Ev.

Definition ret {A} (a : A) : T A := fun _ => (Normal a, []).

Definition bind {A B} (c : T A) (f : A -> T B) : T B :=
  fun h =>
    match c h with
    | (Normal a, d1) => let (r, d2) := f a (h ++ d1)%list in (r, (d1 ++ d2)%list)
    | (Throw e, d1) => (Throw e, d1)
    end.

(** [try { c } catch (error) { handler error }] *)
Definition tryCatch {A} (c : T A) (handler : JsError -> T A) : T A :=
  fun h =>
    match c h with
    | (Normal a, d1) => (Normal a, d1)
    | (Throw e, d1) => let (r, d2) := handler e (h ++ d1)%list in (r, (d1 ++ d2)%list)
    end.

(** [try { c } finally { f }] *)
Definition tryFinally {A} (c : T A) (f : T unit) : T A :=
  fun h =>
    let (r, d1) := c h in
    match f (h ++ d1)%list with
    | (Normal _, d2) => (r, (d1 ++ d2)%list)
    | (Throw e, d2) => (Throw e, (d1 ++ d2)%list)
    end.

Definition emit (e : Ev) : T unit := fun _ => (Normal tt, [e]).

Definition liftC {A} (c : Completion A) : T A := fun _ => (c, []).

End Over.

End Async.

Declare Scope async_scope.
Delimit Scope async_scope with async.
Notation "x <- c ;; k" := (Async.bind c (fun x => k))
  (at level 61, c at next level, right associativity) : async_scope.
Notation "c ;; k" := (Async.bind c (fun _ => k))
  (at level 61, right associativity) : async_scope.

Module Suggestions.

(** What [fetchSuggestions] does that can be seen from outside. *)
Inductive UiEvent : Type :=
| UFetch (url : string)                 (* fetch(url) *)
| UWarn (error : JsError)               (* console.warn('Error fetching suggestions:', error) *)
| USetSuggestions (v : JsVal)
| USetShowSuggestions (b : bool)
| USetLoadingSuggestions (b : bool).

Definition isFetchOf (u : string) (e : UiEvent) : bool :=
  match e with
  | UFetch u' => String.eqb u u'
  | _ => false
  end.

Definition requestsTo (u : string) (h : list UiEvent) : nat :=
  List.length (filter (isFetchOf u) h).

Section WithNetwork.

Variable net : Network.

Local Open Scope async_scope.

Definition fetch (url : string) : Async.T Response :=
  fun h => (net url (requestsTo url h), [UFetch url]).

Definition consoleWarn (error : JsError) : Async.T unit := Async.emit (UWarn error).
Definition setSuggestions (v : JsVal) : Async.T unit := Async.emit (USetSuggestions v).
Definition setShowSuggestions (b : bool) : Async.T unit :=
  Async.emit (USetShowSuggestions b).
Definition setLoadingSuggestions (b : bool) : Async.T unit :=
  Async.emit (USetLoadingSuggestions b).

Definition autocompleteUrl (query : string) : string :=
  "https://api.scryfall.com/cards/autocomplete?q=" ++ encodeURIComponent query.

(** [!query.trim() || query.length < 2] *)
Definition tooShort (query : string) : bool :=
  String.eqb (trim query) "" || (String.length query <? 2)%nat.

Definition fetchSuggestions (query : string) : Async.T unit :=
  if tooShort query then
    setSuggestions (JArr []) ;;
    setShowSuggestions false
  else
    setLoadingSuggestions true ;;
    Async.tryFinally
      (Async.tryCatch
         (response <- fetch (autocompleteUrl query) ;;
          if ok response then
            data <- Async.liftC (json response) ;;
            names <- Async.liftC (getProp data "data") ;;
            setSuggestions (jsOr names (JArr [])) ;;
            setShowSuggestions true
          else Async.ret tt)
         (fun error => consoleWarn error))
      (setLoadingSuggestions false).

End WithNetwork.

(** The URLs requested, in order. *)
Fixpoint requests (t : list UiEvent) : list string :=
  match t with
  | [] => []
  | UFetch u :: rest => u :: requests rest
  | _ :: rest => requests rest
  end.

(** The component state the suggestion box is drawn from. *)
Record Box : Type := {
  suggestions : JsVal;
  showSuggestions : bool;
  loadingSuggestions : bool
}.

Definition step (b : Box) (e : UiEvent) : Box :=
  match e with
  | USetSuggestions v =>
      {| suggestions := v; showSuggestions := showSuggestions b;
         loadingSuggestions := loadingSuggestions b |}
  | USetShowSuggestions s =>
      {| suggestions := suggestions b; showSuggestions := s;
         loadingSuggestions := loadingSuggestions b |}
  | USetLoadingSuggestions l =>
      {| suggestions := suggestions b; showSuggestions := showSuggestions b;
         loadingSuggestions := l |}
  | _ => b
  end.

(** The state after the events of [t], in order. *)
Definition after (b : Box) (t : list UiEvent) : Box := fold_left step t b.

(** The entries of the dropdown when [suggestions] is an array, as its
    type says: drawn under [showSuggestions && suggestions.length > 0],
    from [suggestions.slice(0, 10)]. *)
Definition dropdown (b : Box) : option (list JsVal) :=
  match suggestions b with
  | JArr items => Some (if showSuggestions b then firstn 10 items else [])
  | _ => None
  end.

(** What the [try] block of [fetchSuggestions] adds after its request,
    for the network's answer [r]. *)
Definition answerTrace (r : Completion Response) : list UiEvent :=
  match r with
  | Throw e => [UWarn e]
  | Normal response =>
      if ok response then
        match json response with
        | Throw e => [UWarn e]
        | Normal data =>
            match getProp data "data" with
            | Throw e => [UWarn e]
            | Normal names =>
                [USetSuggestions (jsOr names (JArr [])); USetShowSuggestions true]
            end
        end
      else []
  end.

(** The answer is a response with [ok] set whose body parses to an
    object, or to any value other than [null]. *)
Definition answered (r : Completion Response) (names : JsVal) : Prop :=
  exists response data,
    r = Normal response /\ ok response = true
    /\ json response = Normal data /\ getProp data "data" = Normal names.

End Suggestions.

(** *** Prices on the page *)

(** The integer [n >= 0] written with the decimal point [fractionDigits]
    places from the right: its digits, zeros in front up to
    [fractionDigits + 1] characters, then the point. *)
Definition placePoint (n : Z) (fractionDigits : nat) : string :=
  let digits := if n =? 0 then "0"%string else ofZ n in
  let padded :=
    if (String.length digits <=? fractionDigits)%nat
    then (JsString.repeat "0"%char (fractionDigits + 1 - String.length digits)
            ++ digits)%string
    else digits in
  let k := String.length padded in
  if (fractionDigits =? 0)%nat then padded
  else (take (k - fractionDigits) padded ++ "."
          ++ drop (k - fractionDigits) padded)%string.

(** [x.toFixed(fractionDigits)], for the 0 to 100 fraction digits the
    method accepts.  Below [10^21] it writes the integer [n] nearest to
    [|x| * 10^fractionDigits], the larger one on a tie. *)
Definition toFixed (x : jsnum) (fractionDigits : nat) : string :=
  match x with
  | Fin u =>
      let a := Z.abs u in
      if 10 ^ 21 * 2 ^ unitExp <=? a then toString x
      else
        let f := Z.of_nat fractionDigits in
        let n := (2 * a * 10 ^ f + 2 ^ unitExp) / (2 * 2 ^ unitExp) in
        ((if (u <? 0)%Z then "-" else "") ++ placePoint n fractionDigits)%string
  | _ => toString x
  end.

Definition formatPriceRange (priceMin priceMax : jsnum) : string :=
  if eqb priceMin priceMax then ("$" ++ toFixed priceMin 2)%string
  else ("$" ++ toFixed priceMin 2 ++ " - $" ++ toFixed priceMax 2)%string.

(** The decimal digit [d], for [0 <= d <= 9]. *)
Definition digitChar (d : Z) : ascii := chr (48 + d).

(** An amount of [cents] written the way the stores write a price:
    the units, a point, two decimals. *)
Definition priceText (cents : Z) : string :=
  (ofZ (cents / 100) ++ "."
     ++ String (digitChar (cents / 10 mod 10))
          (String (digitChar (cents mod 10)) ""))%string.

Fixpoint allDigits (s : string) : bool :=
  match s with
  | EmptyString => true
  | String c s' => isDigit c && allDigits s'
  end.

(** *** The debounced input *)

Module Debounce.

Section Args.

(** The arguments of a call. *)
Variable A : Type.

(** A timer set with [setTimeout]: its id, the time it is due, and the
    arguments its callback [() => func.apply(null, args)] passes on. *)
Record Timer : Type := { timerId : nat; due : Z; payload : A }.

(** The host's timers: the clock, the next timer id, the timers waiting
    in the order they will run, and the calls of [func] made so far by
    callbacks that ran, each with its time. *)
Record Host : Type := {
  now : Z;
  nextId : nat;
  waiting : list Timer;
  calls : list (Z * A)
}.

(** Timers run in the order of their due times, and in the order they
    were set when these are equal. *)
Fixpoint enqueue (t : Timer) (q : list Timer) : list Timer :=
  match q with
  | [] => [t]
  | t' :: rest => if due t' <=? due t then t' :: enqueue t rest else t :: q
  end.

Definition setTimeout (x : A) (delay : Z) (h : Host) : nat * Host :=
  (nextId h,
   {| now := now h;
      nextId := S (nextId h);
      waiting := enqueue {| timerId := nextId h; due := now h + Z.max 0 delay;
                            payload := x |} (waiting h);
      calls := calls h |}).

(** [clearTimeout(id)]; nothing happens for [undefined] or for a timer
    that has run. *)
Definition clearTimeout (id : option nat) (h : Host) : Host :=
  match id with
  | None => h
  | Some i =>
      {| now := now h;
         nextId := nextId h;
         waiting := filter (fun t => negb (timerId t =? i)%nat) (waiting h);
         calls := calls h |}
  end.

(** The clock moves on by [dt]: the timers due by then run. *)
Definition elapse (dt : Z) (h : Host) : Host :=
  let t := now h + dt in
  {| now := t;
     nextId := nextId h;
     waiting := filter (fun x => negb (due x <=? t)) (waiting h);
     calls := (calls h
               ++ map (fun x => (due x, payload x))
                    (filter (fun x => due x <=? t) (waiting h)))%list |}.

(** The function [debounce(func, delay)] returns, with the variable
    [timeoutId] of its closure ([None] is [undefined]). *)
Definition debounced (delay : Z) (x : A) (s : option nat * Host) : option nat * Host :=
  let (timeoutId, h) := s in
  let h1 := clearTimeout timeoutId h in
  let (id, h2) := setTimeout x delay h1 in
  (Some id, h2).

(** What happens around a debounced function: it is called, time
    passes, or [debounce(func, delay)] is evaluated again and the new
    function, with a [timeoutId] of its own, takes the old one's place. *)
Inductive Step : Type :=
| Call (x : A)
| Elapse (dt : Z)
| Recreate.

Definition step (delay : Z) (s : option nat * Host) (i : Step) : option nat * Host :=
  match i with
  | Call x => debounced delay x s
  | Elapse dt => (fst s, elapse dt (snd s))
  | Recreate => (None, snd s)
  end.

Definition run (delay : Z) (steps : list Step) (s : option nat * Host)
  : option nat * Host :=
  fold_left (step delay) steps s.

(** A host on which nothing is waiting. *)
Definition idle (t : Z) (n : nat) : Host :=
  {| now := t; nextId := n; waiting := []; calls := [] |}.

(** Calls of one debounced function, each after a pause. *)
Definition burst (l : list (Z * A)) : list Step :=
  List.concat (map (fun gx => [Elapse (fst gx); Call (snd gx)]) l).

(** The same calls, each made through a function created anew. *)
Definition burstRecreated (l : list (Z * A)) : list Step :=
  List.concat (map (fun gx => [Elapse (fst gx); Recreate; Call (snd gx)]) l).

(** The time a burst takes: the sum of its pauses. *)
Definition elapsed (l : list (Z * A)) : Z := fold_right Z.add 0 (map fst l).

(** The times of the calls of a burst that starts at [t]. *)
Fixpoint callTimes (t : Z) (l : list (Z * A)) : list (Z * A) :=
  match l with
  | [] => []
  | (g, x) :: rest => (t + g, x) :: callTimes (t + g) rest
  end.

End Args.

Arguments timerId {A} _.
Arguments due {A} _.
Arguments payload {A} _.
Arguments now {A} _.
Arguments nextId {A} _.
Arguments waiting {A} _.
Arguments calls {A} _.
Arguments enqueue {A} _ _.
Arguments setTimeout {A} _ _ _.
Arguments clearTimeout {A} _ _.
Arguments elapse {A} _ _.
Arguments debounced {A} _ _ _.
Arguments Call {A} _.
Arguments Elapse {A} _.
Arguments Recreate {A}.
Arguments step {A} _ _ _.
Arguments run {A} _ _ _.
Arguments idle {A} _ _.
Arguments burst {A} _.
Arguments burstRecreated {A} _.
Arguments elapsed {A} _.
Arguments callTimes {A} _ _.

End Debounce.

(** ** Properties of the effect monad *)

Section MonadFacts.

Lemma requestsTo_app u h d :
  requestsTo u (h ++ d) = (requestsTo u h + requestsTo u d)%nat.
Proof.
  unfold requestsTo. rewrite filter_app, length_app. reflexivity.
Qed.

Lemma bind_run {A B} (c : M A) (f : A -> M B) h a d1 :
  c h = (Normal a, d1) ->
  bind c f h = (fst (f a (h ++ d1)), d1 ++ snd (f a (h ++ d1))).
Proof.
  intros Hc. unfold bind. rewrite Hc. destruct (f a (h ++ d1)); reflexivity.
Qed.

Lemma emit_run ev h : emit ev h = (Normal tt, [ev]).
Proof. reflexivity. Qed.

End MonadFacts.

(** ** The resilient fetcher *)

Section FetchWithRetry.

Variable net : Network.

Lemma attemptOnce_run url h :
  attemptOnce net url h
  = (attemptResult (net url (requestsTo url h)), [EFetch url]).
Proof.
  unfold attemptOnce, bind, fetch, attemptResult.
  destruct (net url (requestsTo url h)) as [resp|e]; [|reflexivity].
  destruct (ok resp); simpl.
  - unfold liftC. destruct (json resp); reflexivity.
  - reflexivity.
Qed.

(** One turn of the loop. *)
Lemma retryLoop_step fuel url m a h :
  retryLoop net (S fuel) url m a h =
  if a <=? m then
    match attemptResult (net url (requestsTo url h)) with
    | Normal v => (Normal v, [EFetch url])
    | Throw e =>
        if a =? m then (Throw e, [EFetch url])
        else
          let pre := [EFetch url; EWarn (RetryWarning a (backoff a) e);
                      ETimeout (backoff a)] in
          (fst (retryLoop net fuel url m (a + 1) (h ++ pre)),
           pre ++ snd (retryLoop net fuel url m (a + 1) (h ++ pre)))
    end
  else (Normal JUndefined, []).
Proof.
  simpl. destruct (a <=? m); [|reflexivity].
  unfold tryCatch. rewrite attemptOnce_run.
  destruct (attemptResult (net url (requestsTo url h))) as [v|e]; [reflexivity|].
  destruct (a =? m); [reflexivity|].
  unfold bind, consoleWarn, setTimeout, emit, backoff. simpl.
  repeat rewrite <- app_assoc. simpl.
  match goal with
  | |- context [retryLoop net fuel url m (a + 1) ?h'] =>
      destruct (retryLoop net fuel url m (a + 1) h') as [r d]
  end.
  reflexivity.
Qed.

Lemma retryLoop_done fuel url m a h :
  m < a -> retryLoop net fuel url m a h = (Normal JUndefined, []).
Proof.
  intros Hlt. destruct fuel; simpl;
    (destruct (Z.leb_spec a m); [lia|reflexivity]).
Qed.

(** Fuel beyond the number of attempts left changes nothing: the loop
    ends by its own guard. *)
Lemma retryLoop_fuel fuel url m a h :
  (Z.to_nat (m - a + 1) <= fuel)%nat ->
  retryLoop net fuel url m a h
  = retryLoop net (Z.to_nat (m - a + 1)) url m a h.
Proof.
  revert a h. induction fuel as [|fuel IH]; intros a h Hle.
  - replace (Z.to_nat (m - a + 1)) with O by lia. reflexivity.
  - destruct (Z.ltb_spec m a) as [Hlt|Hge].
    + rewrite !retryLoop_done by assumption. reflexivity.
    + replace (Z.to_nat (m - a + 1)) with (S (Z.to_nat (m - (a + 1) + 1))) by lia.
      rewrite !retryLoop_step.
      destruct (a <=? m); [|reflexivity].
      destruct (attemptResult _) as [v|e]; [reflexivity|].
      destruct (a =? m); [reflexivity|].
      cbv zeta. rewrite IH by lia. reflexivity.
Qed.

(** Every turn of the loop makes one request. *)
Lemma retryLoop_requests_le fuel url m a h :
  (List.length (requests (snd (retryLoop net fuel url m a h))) <= fuel)%nat.
Proof.
  revert a h. induction fuel as [|fuel IH]; intros a h.
  - simpl. destruct (a <=? m); simpl; lia.
  - rewrite retryLoop_step.
    destruct (a <=? m); [|simpl; lia].
    destruct (attemptResult _) as [v|e]; [simpl; lia|].
    destruct (a =? m); [simpl; lia|].
    cbv zeta. simpl. specialize (IH (a + 1) (h ++ [EFetch url;
      EWarn (RetryWarning a (backoff a) e); ETimeout (backoff a)])).
    simpl in IH. lia.
Qed.

(** The attempts fail with [errs]; the next answer is [r], and either it
    is a success or it is the last attempt: the run ends there. *)
Lemma retryLoop_run errs : forall fuel url m a h r,
  failsWith net url (requestsTo url h) errs ->
  attemptResult (net url (requestsTo url h + List.length errs)%nat) = r ->
  a + Z.of_nat (List.length errs) <= m ->
  (List.length errs <= fuel)%nat ->
  (match r with
   | Normal _ => True
   | Throw _ => a + Z.of_nat (List.length errs) = m
   end) ->
  retryLoop net (S fuel) url m a h = (r, retryTrace url errs a).
Proof.
  induction errs as [|e errs IH]; intros fuel url m a h r Hfail Hr Hle Hfuel Hend.
  - simpl List.length in *. simpl retryTrace.
    rewrite Nat.add_0_r in Hr. rewrite retryLoop_step, Hr.
    destruct (Z.leb_spec a m); [|lia].
    destruct r as [v|e]; [reflexivity|].
    destruct (Z.eqb_spec a m); [reflexivity|lia].
  - simpl List.length in *. rewrite retryLoop_step.
    destruct (Z.leb_spec a m); [|lia].
    assert (H0 : attemptResult (net url (requestsTo url h)) = Throw e).
    { specialize (Hfail O e eq_refl). rewrite Nat.add_0_r in Hfail. exact Hfail. }
    rewrite H0.
    destruct (Z.eqb_spec a m); [lia|].
    cbv zeta.
    destruct fuel as [|fuel]; [lia|].
    rewrite (IH fuel url m (a + 1) _ r).
    + reflexivity.
    + intros k e' Hk. rewrite requestsTo_app.
      unfold requestsTo at 2. simpl. rewrite String.eqb_refl. simpl.
      replace (requestsTo url h + 1 + k)%nat with (requestsTo url h + S k)%nat by lia.
      apply Hfail. exact Hk.
    + rewrite requestsTo_app. unfold requestsTo at 2. simpl.
      rewrite String.eqb_refl. simpl.
      replace (requestsTo url h + 1 + List.length errs)%nat
        with (requestsTo url h + S (List.length errs))%nat by lia.
      exact Hr.
    + lia.
    + lia.
    + destruct r; [exact I|lia].
Qed.

Lemma retryTrace_requests url errs a :
  requests (retryTrace url errs a) = List.repeat url (S (List.length errs)).
Proof.
  revert a. induction errs as [|e errs IH]; intros a; [reflexivity|].
  simpl. rewrite IH. reflexivity.
Qed.

Lemma retryTrace_timeouts url errs a :
  timeouts (retryTrace url errs a)
  = map (fun k => backoff (a + Z.of_nat k)) (seq 0 (List.length errs)).
Proof.
  revert a. induction errs as [|e errs IH]; intros a; [reflexivity|].
  simpl. rewrite IH, <- seq_shift, map_map. f_equal.
  - f_equal. lia.
  - apply map_ext. intros k. f_equal. lia.
Qed.

Lemma retryTrace_pacing url errs a :
  pacing (retryTrace url errs a) = retrySchedule url (S (List.length errs)) a.
Proof.
  revert a. induction errs as [|e errs IH]; intros a; [reflexivity|].
  simpl. unfold pacing in IH. rewrite IH. reflexivity.
Qed.

End FetchWithRetry.

(** *** Claims about the resilient fetcher *)

(** C2. For [maxRetries >= 1], [fetchWithRetry] makes at most [maxRetries]
    requests.  When all [maxRetries] requests fail it makes exactly that
    many, waits [2^(attempt-1)] seconds after each failed attempt but the
    last (1000 ms, 2000 ms, 4000 ms, ...), and throws the last attempt's
    error.  When the attempts before some attempt fail and that attempt
    succeeds, it returns that attempt's JSON body and makes no request
    after it. *)
Theorem fetchWithRetry_retry_schedule (net : Network) (url : string) (maxRetries : Z) (h : Trace) :
  1 <= maxRetries ->
  let base := requestsTo url h in
  let run := fetchWithRetry net url maxRetries h in
  (List.length (requests (snd run)) <= Z.to_nat maxRetries)%nat
  /\ (forall errs e,
        Z.of_nat (List.length (errs ++ [e])) = maxRetries ->
        failsWith net url base (errs ++ [e]) ->
        run = (Throw e, retryTrace url errs 1)
        /\ requests (snd run) = List.repeat url (Z.to_nat maxRetries)
        /\ timeouts (snd run)
           = map (fun k => backoff (1 + Z.of_nat k)) (seq 0 (Z.to_nat maxRetries - 1))
        /\ pacing (snd run) = retrySchedule url (Z.to_nat maxRetries) 1)
  /\ (forall errs v,
        Z.of_nat (List.length errs) < maxRetries ->
        failsWith net url base errs ->
        attemptResult (net url (base + List.length errs)%nat) = Normal v ->
        run = (Normal v, retryTrace url errs 1)
        /\ requests (snd run) = List.repeat url (S (List.length errs))
        /\ timeouts (snd run)
           = map (fun k => backoff (1 + Z.of_nat k)) (seq 0 (List.length errs))
        /\ pacing (snd run) = retrySchedule url (S (List.length errs)) 1).
Proof.
  intros Hm base run. subst base run. unfold fetchWithRetry.
  split; [apply retryLoop_requests_le|].
  assert (Hfuel : Z.to_nat maxRetries = S (Z.to_nat maxRetries - 1)) by lia.
  split.
  - intros errs e Hlen Hfail.
    rewrite length_app in Hlen. simpl in Hlen.
    assert (Hrun : retryLoop net (Z.to_nat maxRetries) url maxRetries 1 h
                   = (Throw e, retryTrace url errs 1)).
    { rewrite Hfuel. apply retryLoop_run.
      - intros k e' Hk. apply Hfail. rewrite nth_error_app1; [exact Hk|].
        apply nth_error_Some. congruence.
      - apply Hfail. rewrite nth_error_app2 by lia.
        rewrite Nat.sub_diag. reflexivity.
      - lia.
      - lia.
      - lia. }
    rewrite Hrun. simpl snd.
    rewrite retryTrace_requests, retryTrace_timeouts, retryTrace_pacing.
    replace (S (List.length errs)) with (Z.to_nat maxRetries) by lia.
    replace (List.length errs) with (Z.to_nat maxRetries - 1)%nat by lia.
    repeat split.
  - intros errs v Hlen Hfail Hok.
    assert (Hrun : retryLoop net (Z.to_nat maxRetries) url maxRetries 1 h
                   = (Normal v, retryTrace url errs 1)).
    { rewrite Hfuel. apply retryLoop_run; try assumption; try lia. }
    rewrite Hrun. simpl snd.
    rewrite retryTrace_requests, retryTrace_timeouts, retryTrace_pacing.
    repeat split.
Qed.

Lemma fetchWithRetry_retry_schedule_witness :
  1 <= 3
  /\ fetchWithRetry (flakyNet (JStr "payload")) "https://store.example/search" 3 []
     = (Normal (JStr "payload"),
        [EFetch "https://store.example/search";
         EWarn (RetryWarning 1 1000 (HttpError 503 "Service Unavailable"));
         ETimeout 1000;
         EFetch "https://store.example/search";
         EWarn (RetryWarning 2 2000 (HttpError 503 "Service Unavailable"));
         ETimeout 2000;
         EFetch "https://store.example/search"])
  /\ fetchWithRetry downNet "https://store.example/search" 3 []
     = (Throw NetworkFailure,
        [EFetch "https://store.example/search";
         EWarn (RetryWarning 1 1000 NetworkFailure);
         ETimeout 1000;
         EFetch "https://store.example/search";
         EWarn (RetryWarning 2 2000 NetworkFailure);
         ETimeout 2000;
         EFetch "https://store.example/search"]).
Proof.
  split; [lia|]. split.
  - destruct (fetchWithRetry_retry_schedule (flakyNet (JStr "payload"))
                "https://store.example/search" 3 []) as (_ & _ & Hok); [lia|].
    destruct (Hok [HttpError 503 "Service Unavailable"; HttpError 503 "Service Unavailable"]
                (JStr "payload")) as (Hrun & _).
    + cbn. lia.
    + intros k e Hk. destruct k as [|[|k]]; cbn in Hk.
      * injection Hk as <-. reflexivity.
      * injection Hk as <-. reflexivity.
      * destruct k; discriminate Hk.
    + reflexivity.
    + exact Hrun.
  - destruct (fetchWithRetry_retry_schedule downNet
                "https://store.example/search" 3 []) as (_ & Hall & _); [lia|].
    destruct (Hall [NetworkFailure; NetworkFailure] NetworkFailure) as (Hrun & _).
    + cbn. lia.
    + intros k e Hk. destruct k as [|[|[|k]]]; cbn in Hk.
      * injection Hk as <-. reflexivity.
      * injection Hk as <-. reflexivity.
      * injection Hk as <-. reflexivity.
      * destruct k; discriminate Hk.
    + exact Hrun.
Defined.

(** C10. With [maxRetries <= 0] the loop body never runs: no request is
    made, nothing is thrown, and the promise resolves to [undefined],
    which is not a JSON value. *)
Theorem fetchWithRetry_no_attempt (net : Network) (url : string) (maxRetries : Z) (h : Trace) :
  maxRetries <= 0 ->
  fetchWithRetry net url maxRetries h = (Normal JUndefined, [])
  /\ isJson JUndefined = false
  /\ (forall e, fst (fetchWithRetry net url maxRetries h) <> Throw e).
Proof.
  intros Hm. unfold fetchWithRetry.
  rewrite retryLoop_done by lia.
  repeat split. intros e He. discriminate He.
Qed.

Lemma fetchWithRetry_no_attempt_witness :
  0 <= 0
  /\ fetchWithRetry downNet "https://store.example/search" 0 [] = (Normal JUndefined, []).
Proof.
  split; [lia|].
  apply (fetchWithRetry_no_attempt downNet "https://store.example/search" 0 []). lia.
Defined.

(** ** Numbers: the comparator's sign *)

Section NumberFacts.

Lemma bitLength_bound p : 0 < p -> 2 ^ Z.max 0 (bitLength p - 53) <= p.
Proof.
  intros Hp. unfold bitLength.
  destruct (Z.leb_spec p 0) as [|_]; [lia|].
  pose proof (Z.log2_nonneg p) as Hl.
  pose proof (proj1 (Z.log2_spec p Hp)) as Hs.
  apply Z.le_trans with (2 ^ Z.log2 p); [|exact Hs].
  apply Z.pow_le_mono_r; lia.
Qed.

(** Rounding an integer count of units keeps it non-negative, and
    positive when it was positive: the difference of two distinct
    doubles never rounds to zero. *)
Lemma roundUnits_pos p : 0 < p -> 0 < roundUnits p 1.
Proof.
  intros Hp. unfold roundUnits.
  rewrite Z.div_1_r.
  set (sh := Z.max 0 (bitLength p - 53)).
  assert (Hsh : 0 <= sh) by (unfold sh; lia).
  assert (Hpow : 0 < 2 ^ sh) by (apply Z.pow_pos_nonneg; lia).
  assert (Hm : 1 <= Z.shiftr p sh).
  { rewrite Z.shiftr_div_pow2 by exact Hsh.
    apply Z.div_le_lower_bound; [exact Hpow|].
    rewrite Z.mul_1_r. apply bitLength_bound. exact Hp. }
  cbv zeta.
  match goal with
  | |- 0 < Z.shiftl ?m' sh => assert (Hm' : 1 <= m')
  end.
  { destruct (_ <? _); [lia|].
    destruct (_ =? _); [|lia].
    destruct (Z.even _); lia. }
  rewrite Z.shiftl_mul_pow2 by exact Hsh.
  apply Z.mul_pos_pos; lia.
Qed.

Lemma roundUnits_zero : roundUnits 0 1 = 0.
Proof. reflexivity. Qed.

Lemma ofUnits_sign negative u :
  0 <= u -> ltb zero (ofUnits negative u) = negb negative && (0 <? u).
Proof.
  intros Hu. unfold ofUnits, zero.
  destruct (overflowBound <=? u) eqn:Ho.
  - assert (0 < overflowBound) by (unfold overflowBound; apply Z.pow_pos_nonneg; unfold unitExp; lia).
    apply Z.leb_le in Ho.
    destruct negative; simpl; [reflexivity|].
    symmetry. apply Z.ltb_lt. lia.
  - destruct negative; simpl.
    + apply Z.ltb_ge. lia.
    + reflexivity.
Qed.

(** On numbers, [a - b > 0] says [b < a]. *)
Lemma sub_positive x y :
  isNaN x = false -> isNaN y = false ->
  ltb zero (sub x y) = ltb y x.
Proof.
  intros Hx Hy.
  destruct x as [| | |a]; destruct y as [| | |b]; try discriminate; try reflexivity.
  unfold sub, roundRatio.
  destruct (Z.eq_dec a b) as [->|Hne].
  - rewrite Z.sub_diag. simpl Z.abs. rewrite roundUnits_zero.
    simpl. symmetry. apply Z.ltb_irrefl.
  - assert (Hpos : 0 < roundUnits (Z.abs (a - b)) 1)
      by (apply roundUnits_pos; lia).
    rewrite ofUnits_sign by lia.
    simpl ltb.
    destruct (Z.ltb_spec (a - b) 0); destruct (Z.ltb_spec b a);
      destruct (Z.ltb_spec 0 (roundUnits (Z.abs (a - b)) 1)); simpl; try reflexivity; lia.
Qed.


Lemma ltb_asym x y : ltb x y = true -> ltb y x = false.
Proof.
  destruct x as [| | |a]; destruct y as [| | |b]; simpl; try discriminate; try reflexivity.
  intros H. apply Z.ltb_lt in H. apply Z.ltb_ge. lia.
Qed.

(** The comparator, whatever its arguments: above zero only when the
    second is the smaller number, and the second is never the smaller
    number otherwise. *)
Lemma sub_sign x y :
  if ltb zero (sub x y) then ltb y x = true else ltb y x = false.
Proof.
  destruct (isNaN x) eqn:Hx; [destruct x; try discriminate; destruct y; reflexivity|].
  destruct (isNaN y) eqn:Hy; [destruct y; try discriminate; destruct x; reflexivity|].
  rewrite (sub_positive x y Hx Hy). destruct (ltb y x); reflexivity.
Qed.




End NumberFacts.

(** ** The sort *)

Section SortFacts.

Lemma sortInsert_perm {A} (cmp : A -> A -> jsnum) x l :
  Permutation (sortInsert cmp x l) (x :: l).
Proof.
  induction l as [|y l IH]; cbn [sortInsert]; [reflexivity|].
  destruct (ltb zero (cmp x y)); [|reflexivity].
  rewrite IH. apply perm_swap.
Qed.

Lemma sort_perm {A} (cmp : A -> A -> jsnum) l : Permutation (sort cmp l) l.
Proof.
  induction l as [|x l IH]; cbn [sort]; [reflexivity|].
  rewrite sortInsert_perm. apply perm_skip. exact IH.
Qed.

Lemma sort_nil_iff {A} (cmp : A -> A -> jsnum) l : sort cmp l = [] <-> l = [].
Proof.
  split; intros H.
  - apply Permutation_nil. rewrite <- H. apply sort_perm.
  - subst. reflexivity.
Qed.




Lemma sortInsert_hd_local x y l :
  notCheaper y x -> HdRel notCheaper y l -> HdRel notCheaper y (sortInsert byPriceMin x l).
Proof.
  intros Hyx Hhd. destruct l as [|z l]; cbn [sortInsert].
  - constructor. exact Hyx.
  - destruct (ltb zero (byPriceMin x z)); constructor.
    + inversion Hhd; assumption.
    + exact Hyx.
Qed.

Lemma sortInsert_local x l :
  Sorted notCheaper l -> Sorted notCheaper (sortInsert byPriceMin x l).
Proof.
  intros Hs. induction l as [|y l IH]; cbn [sortInsert].
  - repeat constructor.
  - inversion Hs as [|? ? Hs' Hhd]; subst.
    pose proof (sub_sign (priceMin x) (priceMin y)) as Hsign.
    unfold byPriceMin at 1.
    destruct (ltb zero (sub (priceMin x) (priceMin y))).
    + constructor; [apply IH; exact Hs'|].
      apply sortInsert_hd_local; [|exact Hhd].
      unfold notCheaper. apply ltb_asym. exact Hsign.
    + constructor; [exact Hs|]. constructor. exact Hsign.
Qed.

(** Whatever the prices, no result of the sort is followed by a cheaper
    one. *)
Lemma sort_local l : Sorted notCheaper (sort byPriceMin l).
Proof.
  induction l as [|x l IH]; cbn [sort]; [constructor|].
  apply sortInsert_local. exact IH.
Qed.






End SortFacts.

(** ** The single-card search *)

Section SingleCard.

Variable net : Network.

Lemma validateCardName_run name h :
  let r := net (validateUrl name) (requestsTo (validateUrl name) h) in
  validateCardName net name h = (Normal (validOf r), validationTrace name r).
Proof.
  intros r. unfold validateCardName, tryCatch, bind, fetch, validationTrace.
  fold r. destruct r as [resp|e]; reflexivity.
Qed.

(** The store callback never throws: an exception of its body becomes
    the empty list and a warning. *)
Lemma searchStore_run st name h :
  searchStore net st name h =
  match queryStore net st name h with
  | (Normal rs, d) => (Normal rs, d)
  | (Throw e, d) => (Normal [], d ++ [EWarn (StoreWarning (store_name st) name e)])
  end.
Proof.
  unfold searchStore, tryCatch.
  destruct (queryStore net st name h) as [[rs|e] d]; reflexivity.
Qed.

Lemma searchStore_normal st name h :
  exists rs d, searchStore net st name h = (Normal rs, d).
Proof.
  rewrite searchStore_run.
  destruct (queryStore net st name h) as [[rs|e] d]; eauto.
Qed.

Lemma mapM_normal {A B} (f : A -> M B) :
  (forall x h, exists y d, f x h = (Normal y, d)) ->
  forall l h, exists ys d, mapM f l h = (Normal ys, d).
Proof.
  intros Hf l. induction l as [|x l IH]; intros h.
  - exists [], []. reflexivity.
  - destruct (Hf x h) as (y & d1 & Hy).
    destruct (IH (h ++ d1)) as (ys & d2 & Hys).
    exists (y :: ys), (d1 ++ d2).
    cbn [mapM]. rewrite (bind_run _ _ _ _ _ Hy).
    rewrite (bind_run _ _ _ _ _ Hys). unfold ret. simpl.
    rewrite app_nil_r. reflexivity.
Qed.

Lemma fanOut_normal name h :
  exists perStore d, fanOut net name h = (Normal perStore, d).
Proof.
  apply mapM_normal. intros st h'. apply searchStore_normal.
Qed.

Lemma searchSingleCard_invalid name h dv :
  validateCardName net name h = (Normal false, dv) ->
  searchSingleCard net name h = (Normal (notFoundOutcome name), dv).
Proof.
  intros Hv. unfold searchSingleCard.
  rewrite (bind_run _ _ _ _ _ Hv). simpl. rewrite app_nil_r. reflexivity.
Qed.

Lemma searchSingleCard_valid name h dv perStore df :
  validateCardName net name h = (Normal true, dv) ->
  fanOut net name (h ++ dv) = (Normal perStore, df) ->
  searchSingleCard net name h
  = (Normal (mergedOutcome name (List.concat perStore)), dv ++ df).
Proof.
  intros Hv Hf. unfold searchSingleCard.
  rewrite (bind_run _ _ _ _ _ Hv). cbn [negb].
  unfold fanOut in Hf.
  rewrite (bind_run _ _ _ _ _ Hf). simpl. rewrite app_nil_r. reflexivity.
Qed.

Lemma mergedOutcome_status name flat :
  (status (mergedOutcome name flat) = no_inventory <-> flat = [])
  /\ (status (mergedOutcome name flat) = found <-> flat <> []).
Proof.
  destruct flat as [|r flat]; simpl; repeat split; intros; try congruence; discriminate.
Qed.

End SingleCard.

(** ** Independence of the store tasks *)

Section StoreTasks.

Variable net : Network.

Lemma retryLoop_frame fuel url m : forall a h1 h2,
  requestsTo url h1 = requestsTo url h2 ->
  retryLoop net fuel url m a h1 = retryLoop net fuel url m a h2.
Proof.
  induction fuel as [|fuel IH]; intros a h1 h2 Heq.
  - simpl. destruct (a <=? m); reflexivity.
  - rewrite !retryLoop_step, Heq.
    destruct (a <=? m); [|reflexivity].
    destruct (attemptResult _) as [v|e]; [reflexivity|].
    destruct (a =? m); [reflexivity|].
    cbv zeta.
    rewrite (IH (a + 1) (h1 ++ _) (h2 ++ [EFetch url;
      EWarn (RetryWarning a (backoff a) e); ETimeout (backoff a)])).
    + reflexivity.
    + rewrite !requestsTo_app, Heq. reflexivity.
Qed.

Lemma retryLoop_other fuel url m u : forall a h,
  u <> url -> requestsTo u (snd (retryLoop net fuel url m a h)) = O.
Proof.
  induction fuel as [|fuel IH]; intros a h Hne.
  - simpl. destruct (a <=? m); reflexivity.
  - assert (Hu : String.eqb u url = false) by (apply String.eqb_neq; exact Hne).
    rewrite retryLoop_step.
    destruct (a <=? m); [|reflexivity].
    destruct (attemptResult _) as [v|e].
    + unfold requestsTo. simpl. rewrite Hu. reflexivity.
    + destruct (a =? m).
      * unfold requestsTo. simpl. rewrite Hu. reflexivity.
      * cbv zeta. cbn [snd]. rewrite requestsTo_app, IH by exact Hne.
        unfold requestsTo. simpl. rewrite Hu. reflexivity.
Qed.

Lemma queryStore_run st name h :
  queryStore net st name h =
  match fetchWithRetry net (proxyUrl st name) 3 h with
  | (Normal data, d) => (normalizeProducts st name (productsOf data), d)
  | (Throw e, d) => (Throw e, d)
  end.
Proof.
  unfold queryStore, bind, liftC.
  destruct (fetchWithRetry net (proxyUrl st name) 3 h) as [[data|e] d];
    [|reflexivity].
  rewrite app_nil_r. reflexivity.
Qed.

(** A store task sees the earlier events only through the number of
    requests its own URL had. *)
Lemma searchStore_frame st name h1 h2 :
  requestsTo (proxyUrl st name) h1 = requestsTo (proxyUrl st name) h2 ->
  searchStore net st name h1 = searchStore net st name h2.
Proof.
  intros Heq. rewrite !searchStore_run, !queryStore_run.
  unfold fetchWithRetry.
  rewrite (retryLoop_frame _ _ _ _ h1 h2 Heq). reflexivity.
Qed.

(** A store task requests its own URL only. *)
Lemma searchStore_other st name h u :
  u <> proxyUrl st name ->
  requestsTo u (snd (searchStore net st name h)) = O.
Proof.
  intros Hne. rewrite searchStore_run, queryStore_run.
  pose proof (retryLoop_other (Z.to_nat 3) (proxyUrl st name) 3 u 1 h Hne) as Ho.
  unfold fetchWithRetry.
  destruct (retryLoop net (Z.to_nat 3) (proxyUrl st name) 3 1 h) as [[data|e] d];
    cbn [snd] in *.
  - destruct (normalizeProducts st name (productsOf data)); cbn [snd].
    + exact Ho.
    + rewrite requestsTo_app, Ho. reflexivity.
  - rewrite requestsTo_app, Ho. reflexivity.
Qed.

Lemma storeList_run st name h :
  exists d, searchStore net st name h = (Normal (storeList net st name h), d).
Proof.
  unfold storeList. destruct (searchStore_normal net st name h) as (rs & d & H).
  rewrite H. exists d. reflexivity.
Qed.

(** Tasks with pairwise different URLs, run one after the other, give
    what each gives when it runs alone from the same starting point. *)
Lemma mapM_independent name (l : list Store) : forall h,
  NoDup (map (fun st => proxyUrl st name) l) ->
  mapM (fun st => searchStore net st name) l h
  = (Normal (map (fun st => storeList net st name h) l),
     List.concat (map (fun st => snd (searchStore net st name h)) l)).
Proof.
  induction l as [|st l IH]; intros h Hnd; [reflexivity|].
  cbn [map] in Hnd. inversion Hnd as [|? ? Hnotin Hnd']; subst.
  destruct (storeList_run st name h) as (d1 & H1).
  cbn [mapM]. rewrite (bind_run _ _ _ _ _ H1).
  rewrite (bind_run _ _ _ _ _ (IH (h ++ d1) Hnd')).
  unfold ret. cbn [fst snd map List.concat]. rewrite app_nil_r, H1. cbn [snd].
  assert (Hsame : forall st', In st' l ->
            searchStore net st' name (h ++ d1) = searchStore net st' name h).
  { intros st' Hin. apply searchStore_frame.
    rewrite requestsTo_app.
    replace d1 with (snd (searchStore net st name h)) by (rewrite H1; reflexivity).
    rewrite searchStore_other; [lia|].
    intros Heq. apply Hnotin. rewrite <- Heq.
    apply (in_map (fun st => proxyUrl st name)). exact Hin. }
  f_equal.
  - f_equal. f_equal. apply map_ext_in. intros st' Hin.
    unfold storeList. rewrite Hsame by exact Hin. reflexivity.
  - f_equal. f_equal. apply map_ext_in. intros st' Hin.
    rewrite Hsame by exact Hin. reflexivity.
Qed.

(** The three configured stores are queried at three different URLs,
    whatever the card name. *)
Lemma stores_distinct_urls name :
  NoDup (map (fun st => proxyUrl st name) stores).
Proof.
  assert (Hd : forall a b : string, take 50 a <> take 50 b -> a <> b)
    by (intros a b Hne Heq; apply Hne; rewrite Heq; reflexivity).
  cbn [map stores].
  repeat constructor; cbn [In]; intros H;
    repeat (destruct H as [H|H]);
    try contradiction;
    (revert H; apply Hd; vm_compute; discriminate).
Qed.

Lemma fanOut_independent name h :
  fanOut net name h
  = (Normal (map (fun st => storeList net st name h) stores),
     List.concat (map (fun st => snd (searchStore net st name h)) stores)).
Proof.
  apply mapM_independent. apply stores_distinct_urls.
Qed.

End StoreTasks.

(** ** Strings: case-insensitive containment *)

Section StringFacts.

Local Open Scope string_scope.

Lemma startsWith_iff p s :
  startsWith p s = true <-> exists post, s = p ++ post.
Proof.
  revert s. induction p as [|a p IH]; intros s; simpl.
  - split; [intros _; exists s; reflexivity|reflexivity].
  - destruct s as [|b s].
    + split; [discriminate|intros (post & H); discriminate H].
    + rewrite andb_true_iff, IH. split.
      * intros (Hab & post & ->). apply Ascii.eqb_eq in Hab. subst.
        exists post. reflexivity.
      * intros (post & H). injection H as -> ->.
        split; [apply Ascii.eqb_refl|exists post; reflexivity].
Qed.

Lemma includes_iff s t :
  includes s t = true <-> exists pre post, s = pre ++ t ++ post.
Proof.
  induction s as [|c s IH]; simpl.
  - rewrite orb_false_r, startsWith_iff. split.
    + intros (post & H). exists "", post. exact H.
    + intros (pre & post & H). destruct pre; [|discriminate H].
      exists post. exact H.
  - rewrite orb_true_iff, startsWith_iff, IH. split.
    + intros [(post & H)|(pre & post & H)].
      * exists "", post. exact H.
      * exists (String c pre), post. rewrite H. reflexivity.
    + intros (pre & post & H). destruct pre as [|c' pre].
      * left. exists post. exact H.
      * right. injection H as -> ->. exists pre, post. reflexivity.
Qed.

Lemma mapChars_app f a b : mapChars f (a ++ b) = mapChars f a ++ mapChars f b.
Proof.
  induction a as [|c a IH]; simpl; [reflexivity|]. rewrite IH. reflexivity.
Qed.

Lemma mapChars_split f a : forall s b,
  mapChars f s = a ++ b ->
  exists s1 s2, s = s1 ++ s2 /\ mapChars f s1 = a /\ mapChars f s2 = b.
Proof.
  induction a as [|c a IH]; intros s b H.
  - exists "", s. repeat split. exact H.
  - destruct s as [|c' s]; [discriminate H|].
    simpl in H. injection H as Hc H.
    destruct (IH s b H) as (s1 & s2 & -> & <- & <-).
    exists (String c' s1), s2. simpl. rewrite Hc. repeat split.
Qed.

Lemma codeUnits_all c : In c codeUnits.
Proof.
  unfold codeUnits. rewrite <- (ascii_nat_embedding c).
  apply in_map, in_seq. pose proof (nat_ascii_bounded c). lia.
Qed.

(** [toLowerCase] sends two code units to the same one exactly when they
    are the same letter up to case. *)
Lemma lowerChar_sameLetter a b :
  Ascii.eqb (lowerChar a) (lowerChar b) = sameLetter a b.
Proof.
  assert (Hall : forallb (fun x =>
                    forallb (fun y => Bool.eqb (Ascii.eqb (lowerChar x) (lowerChar y))
                                        (sameLetter x y)) codeUnits) codeUnits = true)
    by (vm_compute; reflexivity).
  rewrite forallb_forall in Hall. specialize (Hall a (codeUnits_all a)).
  rewrite forallb_forall in Hall. specialize (Hall b (codeUnits_all b)).
  apply Bool.eqb_prop. exact Hall.
Qed.

Lemma toLowerCase_sameText s : forall t,
  toLowerCase s = toLowerCase t <-> sameText s t = true.
Proof.
  unfold toLowerCase.
  induction s as [|a s IH]; intros [|b t]; cbn [mapChars sameText];
    try (split; [reflexivity|reflexivity]); try (split; discriminate).
  rewrite andb_true_iff, <- IH, <- lowerChar_sameLetter, Ascii.eqb_eq. split.
  - intros H. injection H as H1 H2. split; assumption.
  - intros [H1 H2]. rewrite H1, H2. reflexivity.
Qed.

(** The code's test, on lower-cased strings, is containment up to the
    case of letters. *)
Lemma includes_lower_iff hay needle :
  includes (toLowerCase hay) (toLowerCase needle) = true
  <-> ciSubstring needle hay.
Proof.
  unfold ciSubstring. rewrite includes_iff. split.
  - unfold toLowerCase. intros (pre & post & H).
    destruct (mapChars_split _ _ _ _ H) as (s1 & s23 & -> & <- & H23).
    destruct (mapChars_split _ _ _ _ H23) as (s2 & s3 & -> & H2 & <-).
    exists s1, s2, s3. split; [reflexivity|].
    apply toLowerCase_sameText. exact H2.
  - intros (pre & mid & post & -> & Hmid).
    apply toLowerCase_sameText in Hmid. unfold toLowerCase in *.
    exists (mapChars lowerChar pre), (mapChars lowerChar post).
    rewrite !mapChars_app, Hmid. reflexivity.
Qed.

End StringFacts.

(** ** The store query adapter *)

Section Adapter.

Lemma getProp_normal p k v : getProp p k = Normal v -> v = optProp p k.
Proof.
  destruct p; simpl; intros H; try discriminate; injection H as <-; reflexivity.
Qed.



Lemma mapC_inv {A B} (f : A -> Completion B) l : forall ys,
  mapC f l = Normal ys -> Forall2 (fun x y => f x = Normal y) l ys.
Proof.
  induction l as [|x l IH]; intros ys H; cbn [mapC] in H.
  - injection H as <-. constructor.
  - destruct (f x) as [y|e] eqn:Hy; [|discriminate H]. cbn [cbind] in H.
    destruct (mapC f l) as [ys'|e]; [|discriminate H]. cbn [cbind] in H.
    injection H as <-. constructor; [exact Hy|apply IH; reflexivity].
Qed.

Lemma keepsB_iff name product : keepsB name product = true <-> keeps name product.
Proof.
  unfold keepsB, keeps. rewrite andb_true_iff, includes_lower_iff.
  destruct (optProp product "available") as [| |[|]| | | |]; simpl;
    split; intros [H1 H2]; split; try assumption; try reflexivity; discriminate.
Qed.






Lemma filter_filter {A} (f g : A -> bool) l :
  filter g (filter f l) = filter (fun x => f x && g x) l.
Proof.
  induction l as [|x l IH]; [reflexivity|].
  cbn [filter]. destruct (f x); cbn [filter andb]; rewrite IH; reflexivity.
Qed.


Lemma filterC_inv {A} (p : A -> Completion bool) l : forall l',
  filterC p l = Normal l' ->
  l' = filter (fun x => verdict (p x)) l
  /\ Forall (fun x => exists b, p x = Normal b) l.
Proof.
  induction l as [|x l IH]; intros l' H; cbn [filterC] in H.
  - injection H as <-. split; [reflexivity|constructor].
  - destruct (p x) as [b|e] eqn:Hx; [|discriminate H]. cbn [cbind] in H.
    destruct (filterC p l) as [l0|e]; [|discriminate H]. cbn [cbind] in H.
    injection H as <-. destruct (IH l0 eq_refl) as [-> Hall].
    split; [cbn [filter]; rewrite Hx; reflexivity|].
    constructor; [exists b; exact Hx|exact Hall].
Qed.

Lemma isAvailable_inv p b :
  isAvailable p = Normal b -> b = isTrue (optProp p "available").
Proof.
  unfold isAvailable. destruct (getProp p "available") as [a|] eqn:Ha;
    [|discriminate].
  apply getProp_normal in Ha. subst a. cbn [cbind]. intros H.
  injection H as <-. reflexivity.
Qed.

Lemma titleMatches_inv name p b :
  titleMatches name p = Normal b ->
  b = includes (toLowerCase (titleText p)) (toLowerCase name).
Proof.
  unfold titleMatches, titleText.
  destruct (getProp p "title") as [t|] eqn:Ht; [|discriminate].
  apply getProp_normal in Ht. subst t. cbn [cbind].
  unfold jsOr. destruct (optProp p "title") as [| |[|]|x|s| |]; cbn [truthy];
    try (cbn; intros H; first [discriminate H | injection H as <-; reflexivity]).
  - destruct (JsNumber.truthy x); cbn; intros H;
      first [discriminate H | injection H as <-; reflexivity].
  - destruct (String.eqb_spec s ""); [subst|]; cbn; intros H;
      injection H as <-; reflexivity.
Qed.

(** Whenever the pipeline returns, it returned the map of the filter. *)
Lemma normalizeProducts_inv st name products rs :
  normalizeProducts st name products = Normal rs ->
  exists items,
    products = JArr items
    /\ Forall2 (fun p r => toCardResult st p = Normal r)
         (filter (keepsB name) items) rs.
Proof.
  unfold normalizeProducts. destruct products as [| | | | |items|]; try discriminate.
  intros H. exists items. split; [reflexivity|].
  destruct (filterC isAvailable items) as [l1|] eqn:H1; [|discriminate H].
  cbn [cbind] in H.
  destruct (filterC (titleMatches name) l1) as [l2|] eqn:H2; [|discriminate H].
  cbn [cbind] in H.
  apply filterC_inv in H1. destruct H1 as [-> Hav].
  apply filterC_inv in H2. destruct H2 as [-> Hti].
  apply mapC_inv in H.
  rewrite filter_filter in H.
  erewrite filter_ext_in; [exact H|].
  intros p Hp. unfold keepsB. rewrite Forall_forall in Hav, Hti.
  destruct (Hav p Hp) as (b & Hb). rewrite Hb. cbn [verdict].
  rewrite (isAvailable_inv p b Hb).
  destruct (isTrue (optProp p "available")) eqn:Hflag; [|reflexivity].
  cbn [andb].
  destruct (Hti p) as (b' & Hb').
  { apply filter_In. split; [exact Hp|]. rewrite Hb. cbn [verdict].
    rewrite (isAvailable_inv p b Hb). exact Hflag. }
  rewrite Hb'. cbn [verdict]. symmetry. apply titleMatches_inv. exact Hb'.
Qed.

Lemma Forall2_in_r {A B} (P : A -> B -> Prop) l l' y :
  Forall2 P l l' -> In y l' -> exists x, In x l /\ P x y.
Proof.
  induction 1 as [|x y' l l' Hxy _ IH]; intros Hin; [contradiction|].
  destruct Hin as [->|Hin].
  - exists x. split; [left; reflexivity|exact Hxy].
  - destruct (IH Hin) as (x' & Hx' & Hp). exists x'. split; [right|]; assumption.
Qed.

End Adapter.

(** *** What the adapter returns *)

Section AdapterResults.

Variable net : Network.

(** After a successful fetch the adapter returns what the pipeline
    returns, or the empty list when the pipeline throws. *)
Lemma searchStore_fetched st name h data d :
  fetchWithRetry net (proxyUrl st name) 3 h = (Normal data, d) ->
  searchStore net st name h =
  match normalizeProducts st name (productsOf data) with
  | Normal rs => (Normal rs, d)
  | Throw e => (Normal [], d ++ [EWarn (StoreWarning (store_name st) name e)])
  end.
Proof.
  intros Hf. rewrite searchStore_run, queryStore_run, Hf. reflexivity.
Qed.

(** Every result of the adapter is the normalized form of a product of
    the response that passed both filters. *)
Lemma searchStore_inv st name h rs d r :
  searchStore net st name h = (Normal rs, d) ->
  In r rs ->
  exists data d0 items p,
    fetchWithRetry net (proxyUrl st name) 3 h = (Normal data, d0)
    /\ productsOf data = JArr items
    /\ In p items
    /\ keeps name p
    /\ toCardResult st p = Normal r.
Proof.
  intros Hrun Hin.
  destruct (fetchWithRetry net (proxyUrl st name) 3 h) as [[data|e] d0] eqn:Hf.
  - rewrite (searchStore_fetched _ _ _ _ _ Hf) in Hrun.
    destruct (normalizeProducts st name (productsOf data)) as [rs'|e] eqn:Hn.
    + injection Hrun as <- <-.
      destruct (normalizeProducts_inv _ _ _ _ Hn) as (items & Hitems & Hall).
      destruct (Forall2_in_r _ _ _ _ Hall Hin) as (p & Hp & Hr).
      apply filter_In in Hp. destruct Hp as [Hp Hkept].
      exists data, d0, items, p. repeat split; try assumption.
      * apply keepsB_iff in Hkept. apply Hkept.
      * apply keepsB_iff in Hkept. apply Hkept.
    + injection Hrun as <- _. contradiction.
  - rewrite searchStore_run, queryStore_run, Hf in Hrun.
    injection Hrun as <- _. contradiction.
Qed.

Lemma toCardResult_prices st p r :
  toCardResult st p = Normal r ->
  priceOf (optProp p "price_min") = Normal (priceMin r)
  /\ priceOf (optProp p "price_max") = Normal (priceMax r).
Proof.
  intros Hr. unfold toCardResult in Hr.
  destruct (getProp p "title") as [title|] eqn:Ht; [|discriminate Hr].
  cbn [cbind] in Hr.
  destruct (getProp p "price_min") as [pmin|] eqn:Hmin; [|discriminate Hr].
  apply getProp_normal in Hmin. subst pmin. cbn [cbind] in Hr.
  fold (priceOf (optProp p "price_min")) in Hr.
  destruct (priceOf (optProp p "price_min")) as [x|] eqn:Hx; [|discriminate Hr].
  cbn [cbind] in Hr.
  destruct (getProp p "price_max") as [pmax|] eqn:Hmax; [|discriminate Hr].
  apply getProp_normal in Hmax. subst pmax. cbn [cbind] in Hr.
  fold (priceOf (optProp p "price_max")) in Hr.
  destruct (priceOf (optProp p "price_max")) as [y|] eqn:Hy; [|discriminate Hr].
  cbn [cbind] in Hr.
  destruct (getProp p "url") as [purl|]; [|discriminate Hr]. cbn [cbind] in Hr.
  destruct (if truthy purl then _ else _) as [u|]; [|discriminate Hr].
  cbn [cbind] in Hr.
  destruct (getProp p "image") as [pimage|]; [|discriminate Hr]. cbn [cbind] in Hr.
  destruct (if truthy pimage then _ else _) as [im|]; [|discriminate Hr].
  cbn [cbind] in Hr. injection Hr as <-. split; reflexivity.
Qed.

Lemma priceOf_string s z :
  priceOf (JStr s) = Normal z -> s <> EmptyString -> z = parseFloat s.
Proof.
  intros Hz Hs. unfold priceOf, jsOr in Hz. cbn [truthy] in Hz.
  destruct (String.eqb_spec s ""); [contradiction|].
  cbn in Hz. injection Hz as <-. reflexivity.
Qed.

Lemma priceOf_absent v z :
  priceOf v = Normal z -> truthy v = false -> z = zero.
Proof.
  intros Hz Hf. unfold priceOf, jsOr in Hz. rewrite Hf in Hz.
  vm_compute in Hz. injection Hz as <-. reflexivity.
Qed.

Lemma toCardResult_location st p r :
  toCardResult st p = Normal r ->
  (if truthy (optProp p "url")
   then exists path, toStringV (optProp p "url") = Normal path
                     /\ url r = (stripTrailingSlash (store_url st) ++ path)%string
   else url r = store_url st)
  /\ image r = jsOr (optProp p "image") (optProp (optProp p "featured_image") "url")
  /\ condition r = "NM"%string.
Proof.
  intros Hr. unfold toCardResult in Hr.
  destruct (getProp p "title") as [title|] eqn:Ht; [|discriminate Hr].
  cbn [cbind] in Hr.
  destruct (getProp p "price_min") as [pmin|]; [|discriminate Hr]. cbn [cbind] in Hr.
  destruct (parseFloatV (jsOr pmin (JStr "0"))) as [x|]; [|discriminate Hr].
  cbn [cbind] in Hr.
  destruct (getProp p "price_max") as [pmax|]; [|discriminate Hr]. cbn [cbind] in Hr.
  destruct (parseFloatV (jsOr pmax (JStr "0"))) as [y|]; [|discriminate Hr].
  cbn [cbind] in Hr.
  destruct (getProp p "url") as [purl|] eqn:Hu; [|discriminate Hr].
  apply getProp_normal in Hu. subst purl. cbn [cbind] in Hr.
  destruct (getProp p "image") as [pimage|] eqn:Hi.
  2:{ destruct (if truthy (optProp p "url") then _ else _); discriminate Hr. }
  apply getProp_normal in Hi. subst pimage.
  assert (Hf : getProp p "featured_image" = Normal (optProp p "featured_image")).
  { destruct p; try discriminate Ht; reflexivity. }
  rewrite Hf in Hr. cbn [cbind] in Hr.
  assert (Him : (if truthy (optProp p "image") then Normal (optProp p "image")
                 else Normal (optProp (optProp p "featured_image") "url"))
                = Normal (jsOr (optProp p "image")
                            (optProp (optProp p "featured_image") "url"))).
  { unfold jsOr. destruct (truthy (optProp p "image")); reflexivity. }
  rewrite Him in Hr. clear Him.
  destruct (truthy (optProp p "url")) eqn:Htr.
  - destruct (toStringV (optProp p "url")) as [path|] eqn:Hpath; [|discriminate Hr].
    cbn [cbind] in Hr. injection Hr as <-. cbn [url image condition].
    repeat split. exists path. split; reflexivity.
  - cbn [cbind] in Hr. injection Hr as <-. cbn [url image condition].
    repeat split.
Qed.

End AdapterResults.

(** *** Claims about the store query adapter *)





(** C7 (as amended).  The minimum and maximum price of every result of
    the adapter are the numbers parsed from the [price_min] and
    [price_max] fields of its product, with no check of sign or order; a
    price field that is absent (or empty) gives the price 0. *)
Theorem searchStore_prices (net : Network) (st : Store) (name : string) (h : Trace)
    (rs : list CardResult) (d : Trace) (r : CardResult) :
  searchStore net st name h = (Normal rs, d) ->
  In r rs ->
  exists data d0 items p,
    fetchWithRetry net (proxyUrl st name) 3 h = (Normal data, d0)
    /\ productsOf data = JArr items
    /\ In p items
    /\ toCardResult st p = Normal r
    /\ priceOf (optProp p "price_min") = Normal (priceMin r)
    /\ priceOf (optProp p "price_max") = Normal (priceMax r)
    /\ (forall s, optProp p "price_min" = JStr s -> s <> EmptyString ->
          priceMin r = parseFloat s)
    /\ (forall s, optProp p "price_max" = JStr s -> s <> EmptyString ->
          priceMax r = parseFloat s)
    /\ (truthy (optProp p "price_min") = false -> priceMin r = zero)
    /\ (truthy (optProp p "price_max") = false -> priceMax r = zero).
Proof.
  intros Hrun Hin.
  destruct (searchStore_inv net _ _ _ _ _ _ Hrun Hin)
    as (data & d0 & items & p & Hf & Hitems & Hp & _ & Hr).
  destruct (toCardResult_prices st p r Hr) as [Hmin Hmax].
  exists data, d0, items, p. repeat split; try assumption.
  - intros s Hs Hne. rewrite Hs in Hmin. apply priceOf_string; assumption.
  - intros s Hs Hne. rewrite Hs in Hmax. apply priceOf_string; assumption.
  - intros Hf'. apply (priceOf_absent _ _ Hmin Hf').
  - intros Hf'. apply (priceOf_absent _ _ Hmax Hf').
Qed.

Lemma searchStore_prices_witness :
  exists r p,
    In r (storeList sampleNet playersStore "Lightning Bolt" [])
    /\ toCardResult playersStore p = Normal r
    /\ priceOf (optProp p "price_min") = Normal (priceMin r)
    /\ priceOf (optProp p "price_max") = Normal (priceMax r).
Proof.
  destruct (searchStore sampleNet playersStore "Lightning Bolt" [])
    as [[[|r rs]|e] d] eqn:Hrun; try (vm_compute in Hrun; discriminate Hrun).
  destruct (searchStore_prices sampleNet playersStore "Lightning Bolt" []
              (r :: rs) d r Hrun (or_introl eq_refl))
    as (data & d0 & items & p & _ & _ & _ & Hr & Hmin & Hmax & _).
  exists r, p. unfold storeList. rewrite Hrun.
  split; [left; reflexivity|]. split; [exact Hr|]. split; assumption.
Defined.

(** C7, as stated, fails: a product listed at a minimum of -1.00 and a
    maximum of -2.00 is returned with a negative minimum price that is
    above its maximum price. *)
Lemma prices_not_range_checked :
  exists r d,
    searchStore oddPricesNet playersStore "Lightning Bolt" [] = (Normal [r], d)
    /\ ltb (priceMin r) zero = true
    /\ ltb (priceMax r) (priceMin r) = true.
Proof.
  eexists. eexists. split; [vm_compute; reflexivity|].
  split; vm_compute; reflexivity.
Qed.

(** C8 (as amended).  For every result of the adapter, the product URL
    is the store's base URL without its trailing slash followed by the
    product's path, or the base URL as it is when the product has no path;
    the image is the product's [image] field or else the [url] of its
    [featured_image]; the condition label is the constant ["NM"]. *)
Theorem searchStore_url_image_condition (net : Network) (st : Store) (name : string)
    (h : Trace) (rs : list CardResult) (d : Trace) (r : CardResult) :
  searchStore net st name h = (Normal rs, d) ->
  In r rs ->
  exists data d0 items p,
    fetchWithRetry net (proxyUrl st name) 3 h = (Normal data, d0)
    /\ productsOf data = JArr items
    /\ In p items
    /\ toCardResult st p = Normal r
    /\ (forall path, optProp p "url" = JStr path -> path <> EmptyString ->
          url r = (stripTrailingSlash (store_url st) ++ path)%string)
    /\ (truthy (optProp p "url") = true ->
          exists path, toStringV (optProp p "url") = Normal path
                       /\ url r = (stripTrailingSlash (store_url st) ++ path)%string)
    /\ (truthy (optProp p "url") = false -> url r = store_url st)
    /\ image r = jsOr (optProp p "image") (optProp (optProp p "featured_image") "url")
    /\ condition r = "NM"%string.
Proof.
  intros Hrun Hin.
  destruct (searchStore_inv net _ _ _ _ _ _ Hrun Hin)
    as (data & d0 & items & p & Hf & Hitems & Hp & _ & Hr).
  destruct (toCardResult_location st p r Hr) as (Hurl & Himage & Hcond).
  exists data, d0, items, p. repeat split; try assumption.
  - intros path Hpath Hne. rewrite Hpath in Hurl. cbn [truthy] in Hurl.
    destruct (String.eqb_spec path ""); [contradiction|].
    cbn in Hurl. destruct Hurl as (path' & Heq & Hu). injection Heq as <-.
    exact Hu.
  - intros Ht. rewrite Ht in Hurl. exact Hurl.
  - intros Ht. rewrite Ht in Hurl. exact Hurl.
Qed.

Lemma searchStore_url_image_condition_witness :
  exists r,
    In r (storeList sampleNet playersStore "Lightning Bolt" [])
    /\ condition r = "NM"%string
    /\ url r = "https://playerscandc.com/products/bolt-m11"%string.
Proof.
  destruct (searchStore sampleNet playersStore "Lightning Bolt" [])
    as [[[|r rs]|e] d] eqn:Hrun; try (vm_compute in Hrun; discriminate Hrun).
  destruct (searchStore_url_image_condition sampleNet playersStore "Lightning Bolt" []
              (r :: rs) d r Hrun (or_introl eq_refl))
    as (data & d0 & items & p & _ & _ & _ & _ & _ & _ & _ & _ & Hcond).
  exists r. unfold storeList. rewrite Hrun.
  split; [left; reflexivity|]. split; [exact Hcond|].
  vm_compute in Hrun. injection Hrun as <- _ _. reflexivity.
Defined.

(** C8, as stated, fails: the condition label the adapter writes is
    ["NM"], not ["near mint"]. *)
Lemma condition_label_is_NM :
  exists r d,
    searchStore sampleNet playersStore "Lightning Bolt" [] = (Normal [r], d)
    /\ condition r = "NM"%string
    /\ condition r <> "near mint"%string.
Proof.
  eexists. eexists. split; [vm_compute; reflexivity|].
  split; [reflexivity|discriminate].
Qed.

(** C4. When the path [resources.results.products] of a body is absent or
    is not a product list, the adapter returns the empty list and does not
    throw; more generally every exception of one store's query, retry
    exhaustion included, becomes the empty list for that store.  The whole
    card search never throws, and each store's list in it is the list that
    store gives on its own, whatever happened to the other stores. *)
Theorem searchStore_absorbs_failures (net : Network) (st : Store) (name : string) (h : Trace) :
  (exists rs d, searchStore net st name h = (Normal rs, d))
  /\ (forall e d, queryStore net st name h = (Throw e, d) ->
        searchStore net st name h
        = (Normal [], d ++ [EWarn (StoreWarning (store_name st) name e)]))
  /\ (forall e d, fetchWithRetry net (proxyUrl st name) 3 h = (Throw e, d) ->
        fst (searchStore net st name h) = Normal [] /\ storeList net st name h = [])
  /\ (forall data d, fetchWithRetry net (proxyUrl st name) 3 h = (Normal data, d) ->
        isArray (productsPath data) = false ->
        fst (searchStore net st name h) = Normal [] /\ storeList net st name h = [])
  /\ (exists out d, searchSingleCard net name h = (Normal out, d)
        /\ (fst (validateCardName net name h) = Normal true ->
            results out
            = sort byPriceMin
                (List.concat
                   (map (fun st' =>
                           storeList net st' name (h ++ snd (validateCardName net name h)))
                      stores)))).
Proof.
  split; [apply searchStore_normal|].
  split; [intros e d Hq; rewrite searchStore_run, Hq; reflexivity|].
  split.
  { intros e d Hf. unfold storeList.
    rewrite searchStore_run, queryStore_run, Hf. split; reflexivity. }
  split.
  { intros data d Hf Harr. unfold storeList.
    rewrite searchStore_run, queryStore_run, Hf.
    unfold productsOf. fold (productsPath data). unfold jsOr.
    destruct (truthy (productsPath data)).
    - destruct (productsPath data); try discriminate Harr; split; reflexivity.
    - split; reflexivity. }
  pose proof (validateCardName_run net name h) as Hv. cbv zeta in Hv.
  destruct (validOf _) eqn:Hvalid.
  - rewrite Hv. cbn [fst snd].
    pose proof (fanOut_independent net name (h ++ validationTrace name
      (net (validateUrl name) (requestsTo (validateUrl name) h)))) as Hfan.
    eexists. eexists. split.
    + apply (searchSingleCard_valid net name h _ _ _ Hv Hfan).
    + intros _. reflexivity.
  - eexists. eexists. split.
    + apply (searchSingleCard_invalid net name h _ Hv).
    + rewrite Hv. discriminate.
Qed.

(** *** Claims about the single-card search *)

(** C1. The outcome of [searchSingleCard] has status [not_found] exactly
    when validation returned false, and then its result list is empty and
    the only request made is the validation request; it has status
    [no_inventory] exactly when validation returned true and the merged
    list of the stores is empty; it has status [found] exactly when the
    merged list is not empty. *)
Theorem searchSingleCard_status (net : Network) (name : string) (h : Trace) :
  exists valid dv out d,
    validateCardName net name h = (Normal valid, dv)
    /\ searchSingleCard net name h = (Normal out, d)
    /\ (status out = not_found <-> valid = false)
    /\ (valid = false ->
        results out = [] /\ d = dv /\ requests d = [validateUrl name])
    /\ (valid = true ->
        exists perStore df,
          fanOut net name (h ++ dv) = (Normal perStore, df)
          /\ d = dv ++ df
          /\ results out = sort byPriceMin (List.concat perStore)
          /\ (status out = no_inventory <-> List.concat perStore = [])
          /\ (status out = found <-> List.concat perStore <> []))
    /\ (status out = no_inventory <-> valid = true /\ results out = [])
    /\ (status out = found <-> results out <> []).
Proof.
  pose proof (validateCardName_run net name h) as Hv. cbv zeta in Hv.
  set (r := net (validateUrl name) (requestsTo (validateUrl name) h)) in *.
  destruct (validOf r) eqn:Hvalid.
  - destruct (fanOut_normal net name (h ++ validationTrace name r))
      as (perStore & df & Hfan).
    pose proof (searchSingleCard_valid net name h _ _ _ Hv Hfan) as Hrun.
    destruct (mergedOutcome_status name (List.concat perStore)) as [Hni Hfo].
    exists true, (validationTrace name r),
      (mergedOutcome name (List.concat perStore)), (validationTrace name r ++ df).
    split; [exact Hv|]. split; [exact Hrun|].
    split.
    { split; [|discriminate].
      cbn [status mergedOutcome]. destruct (_ <? _)%nat; discriminate. }
    split; [discriminate|].
    split.
    { intros _. exists perStore, df. repeat split; try assumption;
        try (apply Hni); try (apply Hfo). }
    split.
    + rewrite Hni. cbn [results mergedOutcome]. rewrite sort_nil_iff.
      split; [intros H; split; [reflexivity|exact H]|intros [_ H]; exact H].
    + rewrite Hfo. cbn [results mergedOutcome]. rewrite sort_nil_iff. reflexivity.
  - pose proof (searchSingleCard_invalid net name h _ Hv) as Hrun.
    exists false, (validationTrace name r), (notFoundOutcome name),
      (validationTrace name r).
    split; [exact Hv|]. split; [exact Hrun|].
    split; [split; reflexivity|].
    split.
    { intros _. repeat split. unfold validationTrace.
      destruct r; reflexivity. }
    split; [discriminate|].
    split; cbn [status results notFoundOutcome].
    + split; [discriminate|intros [H _]; discriminate H].
    + split; [discriminate|intros H; contradiction H; reflexivity].
Qed.




(** ** The batch search *)

Section Batch.

Variable net : Network.

Lemma retryLoop_events fuel url m : forall a h,
  searchEvents (snd (retryLoop net fuel url m a h)).
Proof.
  induction fuel as [|fuel IH]; intros a h.
  - simpl. destruct (a <=? m); constructor.
  - rewrite retryLoop_step.
    destruct (a <=? m); [|constructor].
    destruct (attemptResult _) as [v|e]; [repeat constructor|].
    destruct (a =? m); [repeat constructor|].
    cbv zeta. cbn [snd]. apply Forall_app. split; [repeat constructor|apply IH].
Qed.

Lemma searchStore_events st name h : searchEvents (snd (searchStore net st name h)).
Proof.
  rewrite searchStore_run, queryStore_run. unfold fetchWithRetry.
  pose proof (retryLoop_events (Z.to_nat 3) (proxyUrl st name) 3 1 h) as He.
  destruct (retryLoop net (Z.to_nat 3) (proxyUrl st name) 3 1 h) as [[data|e] d];
    cbn [snd] in *.
  - destruct (normalizeProducts st name (productsOf data)); cbn [snd];
      [exact He|].
    apply Forall_app. split; [exact He|repeat constructor].
  - apply Forall_app. split; [exact He|repeat constructor].
Qed.

Lemma fanOut_events name h : searchEvents (snd (fanOut net name h)).
Proof.
  rewrite fanOut_independent. cbn [snd].
  apply Forall_concat. apply Forall_map. apply Forall_forall.
  intros st _. apply searchStore_events.
Qed.

(** A single-card search always completes, with an outcome for the name
    it was given, and emits network, timer and console events only. *)
Lemma searchSingleCard_total name h :
  exists out seg,
    searchSingleCard net name h = (Normal out, seg)
    /\ cardName out = name
    /\ searchEvents seg
    /\ exists rest, seg = EFetch (validateUrl name) :: rest.
Proof.
  pose proof (validateCardName_run net name h) as Hv. cbv zeta in Hv.
  set (r := net (validateUrl name) (requestsTo (validateUrl name) h)) in *.
  assert (Hdv : searchEvents (validationTrace name r))
    by (unfold validationTrace; destruct r; repeat constructor).
  destruct (validOf r).
  - destruct (fanOut_normal net name (h ++ validationTrace name r))
      as (perStore & df & Hfan).
    exists (mergedOutcome name (List.concat perStore)), (validationTrace name r ++ df).
    split; [apply (searchSingleCard_valid net name h _ _ _ Hv Hfan)|].
    split; [reflexivity|]. split.
    + apply Forall_app. split; [exact Hdv|].
      replace df with (snd (fanOut net name (h ++ validationTrace name r)))
        by (rewrite Hfan; reflexivity).
      apply fanOut_events.
    + eexists. reflexivity.
  - exists (notFoundOutcome name), (validationTrace name r).
    split; [apply (searchSingleCard_invalid net name h _ Hv)|].
    split; [reflexivity|]. split; [exact Hdv|].
    eexists. reflexivity.
Qed.

Lemma searchLoop_run cards : forall i acc h,
  exists runs,
    sequentialRuns net h i acc cards runs
    /\ searchLoop net i cards acc h
       = (Normal (acc ++ map fst runs), batchTrace i acc runs)
    /\ map cardName (map fst runs) = cards
    /\ Forall (fun run => searchEvents (snd run)) runs.
Proof.
  induction cards as [|name cards IH]; intros i acc h.
  - exists []. cbn. rewrite app_nil_r. repeat split. constructor.
  - set (pause := if (0 <? i)%nat then [ETimeout 100] else []).
    assert (Hpause : (if (0 <? i)%nat then setTimeout 100 else ret tt) h
                      = (Normal tt, pause))
      by (unfold pause; destruct (0 <? i)%nat; reflexivity).
    destruct (searchSingleCard_total name (h ++ pause))
      as (out & seg & Hrun & Hname & Hev & _).
    destruct (IH (S i) (acc ++ [out])
                ((h ++ pause) ++ seg ++ [ESetSearchResults (acc ++ [out])]))
      as (runs & Hseq & Hloop & Hnames & Hevs).
    exists ((out, seg) :: runs).
    split; [cbn [sequentialRuns]; fold pause; split; assumption|].
    split.
    + cbn [searchLoop]. rewrite (bind_run _ _ _ _ _ Hpause).
      rewrite (bind_run _ _ _ _ _ Hrun). cbn [fst snd].
      unfold setSearchResults.
      rewrite (bind_run _ _ _ _ _ (emit_run _ _)). cbn [fst snd].
      rewrite <- !app_assoc in Hloop |- *. cbn [app] in Hloop |- *.
      rewrite Hloop. cbn [fst snd map batchTrace]. fold pause.
      reflexivity.
    + split; [cbn [map fst]; rewrite Hname, Hnames; reflexivity|].
      constructor; assumption.
Qed.

Lemma published_app t1 t2 : published (t1 ++ t2) = published t1 ++ published t2.
Proof.
  induction t1 as [|e t1 IH]; [reflexivity|].
  destruct e; cbn [app published]; rewrite ?IH; reflexivity.
Qed.

Lemma errorsSet_app t1 t2 : errorsSet (t1 ++ t2) = errorsSet t1 ++ errorsSet t2.
Proof.
  induction t1 as [|e t1 IH]; [reflexivity|].
  destruct e; cbn [app errorsSet]; rewrite ?IH; reflexivity.
Qed.

Lemma searchEvents_quiet t :
  searchEvents t -> published t = [] /\ errorsSet t = [].
Proof.
  induction 1 as [|e t He _ [IH1 IH2]]; [split; reflexivity|].
  destruct e; try discriminate He; split; assumption.
Qed.

Lemma published_batchTrace runs : forall i acc,
  Forall (fun run => searchEvents (snd run)) runs ->
  published (batchTrace i acc runs)
  = map (fun k => acc ++ firstn k (map fst runs)) (seq 1 (List.length runs)).
Proof.
  induction runs as [|[out seg] runs IH]; intros i acc Hev; [reflexivity|].
  inversion Hev as [|? ? Hseg Hev']; subst. cbn [snd] in Hseg.
  cbn [batchTrace]. rewrite !published_app.
  rewrite (proj1 (searchEvents_quiet seg Hseg)).
  destruct (0 <? i)%nat; cbn [app published]; rewrite IH by exact Hev';
    cbn [List.length seq map fst firstn]; f_equal;
    rewrite <- (seq_shift (List.length runs) 1), map_map;
    apply map_ext; intros k; cbn [firstn];
    rewrite <- app_assoc; reflexivity.
Qed.

Lemma errorsSet_batchTrace runs : forall i acc,
  Forall (fun run => searchEvents (snd run)) runs ->
  errorsSet (batchTrace i acc runs) = [].
Proof.
  induction runs as [|[out seg] runs IH]; intros i acc Hev; [reflexivity|].
  inversion Hev as [|? ? Hseg Hev']; subst. cbn [snd] in Hseg.
  cbn [batchTrace]. rewrite !errorsSet_app.
  rewrite (proj2 (searchEvents_quiet seg Hseg)).
  destruct (0 <? i)%nat; cbn [app errorsSet]; apply IH; exact Hev'.
Qed.

(** Every outcome has one of the three statuses, so the summary after a
    non-empty batch never finds all three counts at zero. *)
Lemma totals_nonzero rs :
  rs <> [] ->
  (List.length (filter (hasStatus found) rs) =? 0)%nat
  && (List.length (filter (hasStatus not_found) rs) =? 0)%nat
  && (List.length (filter (hasStatus no_inventory) rs) =? 0)%nat = false.
Proof.
  destruct rs as [|r rs]; [congruence|]. intros _.
  cbn [filter]. unfold hasStatus.
  destruct (status r); simpl; rewrite ?andb_false_r; reflexivity.
Qed.

Lemma searchCards_run i h :
  cardsToSearch i <> [] ->
  exists runs,
    sequentialRuns net (h ++ prelude) 0 [] (cardsToSearch i) runs
    /\ searchLoop net 0 (cardsToSearch i) [] (h ++ prelude)
       = (Normal (map fst runs), batchTrace 0 [] runs)
    /\ searchCards net i h
       = (Normal tt, prelude ++ batchTrace 0 [] runs ++ [ESetLoading false])
    /\ map cardName (map fst runs) = cardsToSearch i
    /\ Forall (fun run => searchEvents (snd run)) runs.
Proof.
  intros Hne.
  destruct (searchLoop_run (cardsToSearch i) 0 [] (h ++ prelude))
    as (runs & Hseq & Hloop & Hnames & Hev).
  cbn [app] in Hloop.
  exists runs. repeat split; try assumption.
  unfold searchCards.
  destruct (cardsToSearch i) as [|c cs] eqn:Hcards; [congruence|].
  cbn [List.length Nat.eqb].
  assert (Hrs : map fst runs <> []).
  { intros Heq. rewrite Heq in Hnames. discriminate Hnames. }
  unfold setLoading, setError, setSearchResults, setShowSuggestions.
  rewrite (bind_run _ _ _ _ _ (emit_run _ _)). cbn [fst snd].
  rewrite (bind_run _ _ _ _ _ (emit_run _ _)). cbn [fst snd].
  rewrite (bind_run _ _ _ _ _ (emit_run _ _)). cbn [fst snd].
  rewrite (bind_run _ _ _ _ _ (emit_run _ _)). cbn [fst snd].
  rewrite <- !app_assoc. cbn [app]. fold prelude.
  unfold tryFinally, tryCatch.
  rewrite (bind_run _ _ _ _ _ Hloop).
  rewrite (totals_nonzero _ Hrs). unfold ret, emit. cbn [fst snd].
  rewrite app_nil_r. reflexivity.
Qed.

Lemma trim_blank s : allWhiteSpace s = true -> trim s = EmptyString.
Proof.
  intros Hs. unfold trim.
  assert (Hstart : trimStart s = EmptyString).
  { induction s as [|c s IH]; [reflexivity|].
    cbn [allWhiteSpace] in Hs. apply andb_true_iff in Hs. destruct Hs as [Hc Hs].
    cbn [trimStart]. rewrite Hc. apply IH. exact Hs. }
  rewrite Hstart. reflexivity.
Qed.

End Batch.

(** *** Claims about the batch search *)

(** C6. For a non-empty list of card names the batch runs
    [searchSingleCard] once per name, one after the other in input order;
    it waits 100 ms before every card but the first; after each card it
    publishes the outcomes gathered so far, so that the published
    sequences are the prefixes of length 1, 2, ..., n of the final one; and
    the final sequence has one outcome per name, in input order. *)
Theorem searchCards_batch (net : Network) (i : Inputs) (h : Trace) :
  cardsToSearch i <> [] ->
  exists runs : list (CardSearchResult * Trace),
    sequentialRuns net (h ++ prelude) 0 [] (cardsToSearch i) runs
    /\ searchLoop net 0 (cardsToSearch i) [] (h ++ prelude)
       = (Normal (map fst runs), batchTrace 0 [] runs)
    /\ searchCards net i h
       = (Normal tt, prelude ++ batchTrace 0 [] runs ++ [ESetLoading false])
    /\ map cardName (map fst runs) = cardsToSearch i
    /\ published (batchTrace 0 [] runs) = prefixes (map fst runs)
    /\ (forall o1 s1 o2 s2 o3 s3,
          runs = [(o1, s1); (o2, s2); (o3, s3)] ->
          batchTrace 0 [] runs
          = s1 ++ [ESetSearchResults [o1]]
            ++ [ETimeout 100] ++ s2 ++ [ESetSearchResults [o1; o2]]
            ++ [ETimeout 100] ++ s3 ++ [ESetSearchResults [o1; o2; o3]]).
Proof.
  intros Hne.
  destruct (searchCards_run net i h Hne) as (runs & Hseq & Hloop & Hrun & Hnames & Hev).
  exists runs. repeat split; try assumption.
  - rewrite published_batchTrace by exact Hev.
    unfold prefixes. rewrite length_map. reflexivity.
  - intros o1 s1 o2 s2 o3 s3 ->. reflexivity.
Qed.

Lemma searchCards_batch_witness :
  exists o1 o2,
    fst (searchLoop downNet 0 ["Lightning Bolt"; "Shock"]%string [] prelude)
    = Normal [o1; o2]
    /\ published (snd (searchCards downNet
                         {| searchMode := list_mode; searchTerm := "";
                            cardList := twoCards |} []))
       = [[]; [o1]; [o1; o2]].
Proof.
  destruct (searchCards_batch downNet
              {| searchMode := list_mode; searchTerm := "";
                 cardList := twoCards |} [])
    as (runs & _ & Hloop & Hrun & _ & Hpub & _).
  - vm_compute. discriminate.
  - cbn [app] in Hloop.
    replace (cardsToSearch _) with ["Lightning Bolt"; "Shock"]%string in Hloop
      by (vm_compute; reflexivity).
    destruct runs as [|[o1 s1] [|[o2 s2] [|run3 runs]]];
      try (vm_compute in Hloop; discriminate Hloop).
    exists o1, o2. rewrite Hloop, Hrun. cbn [fst snd].
    split; [reflexivity|].
    rewrite published_app, published_app, Hpub. reflexivity.
Defined.

(** C9. In single-card mode a search term made of white space only is
    not stopped by the empty-input guard: the list of cards is the one
    empty string, the message asking for a card name is never set, and the
    batch goes on to validate and search the empty name. *)
Theorem searchCards_blank_term (net : Network) (term cards : string) (h : Trace) :
  allWhiteSpace term = true ->
  let i := {| searchMode := single; searchTerm := term; cardList := cards |} in
  cardsToSearch i = [EmptyString]
  /\ exists out seg rest,
       searchSingleCard net EmptyString (h ++ prelude) = (Normal out, seg)
       /\ seg = EFetch "https://api.scryfall.com/cards/named?exact=" :: rest
       /\ searchCards net i h
          = (Normal tt, prelude ++ seg ++ [ESetSearchResults [out]; ESetLoading false])
       /\ errorsSet (snd (searchCards net i h)) = [EmptyString]
       /\ ~ In (ESetError "Please enter a card name to search")
              (snd (searchCards net i h)).
Proof.
  intros Hblank i.
  assert (Hcards : cardsToSearch i = [EmptyString]).
  { unfold cardsToSearch, i. cbn [searchMode searchTerm].
    rewrite trim_blank by exact Hblank. reflexivity. }
  split; [exact Hcards|].
  destruct (searchCards_run net i h) as (runs & Hseq & _ & Hrun & _ & Hev).
  { rewrite Hcards. discriminate. }
  rewrite Hcards in Hseq.
  destruct runs as [|[out seg] [|run2 runs]]; cbn [sequentialRuns] in Hseq;
    try contradiction; [|destruct run2; destruct Hseq as [_ []]].
  destruct Hseq as [Hsingle _]. cbn [Nat.ltb Nat.leb] in Hsingle.
  rewrite app_nil_r in Hsingle.
  destruct (searchSingleCard_total net EmptyString (h ++ prelude))
    as (out' & seg' & Hrun' & _ & _ & rest & Hrest).
  rewrite Hsingle in Hrun'. injection Hrun' as <- <-.
  inversion Hev as [|? ? Hseg _]; subst. cbn [snd] in Hseg.
  exists out, (EFetch (validateUrl EmptyString) :: rest), rest.
  cbn [batchTrace Nat.ltb Nat.leb app] in Hrun.
  split; [exact Hsingle|]. split; [reflexivity|].
  assert (Hrun2 : searchCards net i h
                  = (Normal tt, prelude ++ (EFetch (validateUrl EmptyString) :: rest)
                                ++ [ESetSearchResults [out]; ESetLoading false])).
  { rewrite Hrun. f_equal. f_equal. cbn [app]. f_equal.
    rewrite <- app_assoc. reflexivity. }
  split; [exact Hrun2|].
  assert (Herr : errorsSet (snd (searchCards net i h)) = [EmptyString]).
  { rewrite Hrun2. cbn [snd]. rewrite !errorsSet_app.
    rewrite (proj2 (searchEvents_quiet _ Hseg)). reflexivity. }
  split; [exact Herr|].
  intros Hin.
  assert (Hmem : In "Please enter a card name to search"%string
                   (errorsSet (snd (searchCards net i h)))).
  { clear - Hin. induction (snd (searchCards net i h)) as [|e t IH];
      [contradiction|].
    destruct Hin as [->|Hin]; [left; reflexivity|].
    destruct e; cbn [errorsSet]; try (apply IH; exact Hin).
    right. apply IH. exact Hin. }
  rewrite Herr in Hmem. destruct Hmem as [Hm|[]]. discriminate Hm.
Qed.

Lemma searchCards_blank_term_witness :
  cardsToSearch {| searchMode := single; searchTerm := "   "; cardList := "" |}
  = [EmptyString]
  /\ errorsSet (snd (searchCards downNet
                       {| searchMode := single; searchTerm := "   "; cardList := "" |} []))
     = [EmptyString].
Proof.
  destruct (searchCards_blank_term downNet "   " "" [])
    as (Hcards & out & seg & rest & _ & _ & _ & Herr & _).
  - reflexivity.
  - split; [exact Hcards|exact Herr].
Defined.

(** ** Further properties *)

(** X1. The store tasks of one search cannot influence one another: a
    task's list and events depend on the events before it only through the
    number of requests already made to its own address, a task requests no
    address but its own, and the three stores are asked at three different
    addresses whatever the card name; so each store contributes to the
    merged list the list its task gives when it runs alone. *)
Theorem store_tasks_independent (net : Network) (name : string) (h : Trace) :
  (forall st h1 h2,
      requestsTo (proxyUrl st name) h1 = requestsTo (proxyUrl st name) h2 ->
      searchStore net st name h1 = searchStore net st name h2)
  /\ (forall st u,
        u <> proxyUrl st name ->
        requestsTo u (snd (searchStore net st name h)) = 0%nat)
  /\ NoDup (map (fun st => proxyUrl st name) stores)
  /\ fst (fanOut net name h) = Normal (map (fun st => storeList net st name h) stores).
Proof.
  split; [intros st h1 h2; apply searchStore_frame|].
  split; [intros st u; apply searchStore_other|].
  split; [apply stores_distinct_urls|].
  rewrite fanOut_independent. reflexivity.
Qed.

(** X2. [validateCardName] never throws and makes exactly one request,
    without retry; it returns true exactly when that request brought a
    response whose [ok] flag is true. *)
Theorem validateCardName_single_request (net : Network) (name : string) (h : Trace) :
  exists valid d,
    validateCardName net name h = (Normal valid, d)
    /\ requests d = [validateUrl name]
    /\ timeouts d = []
    /\ (valid = true <->
        exists resp,
          net (validateUrl name) (requestsTo (validateUrl name) h) = Normal resp
          /\ ok resp = true).
Proof.
  pose proof (validateCardName_run net name h) as Hv. cbv zeta in Hv.
  destruct (net (validateUrl name) (requestsTo (validateUrl name) h)) as [resp|e].
  - exists (ok resp), [EFetch (validateUrl name)]. repeat split; try exact Hv.
    + intros Hok. exists resp. split; [reflexivity|exact Hok].
    + intros (resp' & Heq & Hok). injection Heq as <-. exact Hok.
  - exists false, [EFetch (validateUrl name); EWarn (ValidationWarning e)].
    repeat split; try exact Hv.
    + discriminate.
    + intros (resp' & Heq & _). discriminate Heq.
Qed.

(** X3. The loop of [fetchWithRetry] ends by its own guard: any fuel of
    at least [maxRetries] gives the run of [fetchWithRetry]. *)
Theorem fetchWithRetry_fuel (net : Network) (url : string) (maxRetries : Z)
    (h : Trace) (fuel : nat) :
  (Z.to_nat maxRetries <= fuel)%nat ->
  retryLoop net fuel url maxRetries 1 h = fetchWithRetry net url maxRetries h.
Proof.
  intros Hle. unfold fetchWithRetry.
  rewrite (retryLoop_fuel net fuel) by lia.
  rewrite (retryLoop_fuel net (Z.to_nat maxRetries)) by lia.
  reflexivity.
Qed.

Lemma fetchWithRetry_fuel_witness :
  (Z.to_nat 3 <= 10)%nat
  /\ retryLoop downNet 10 "https://store.example/search" 3 1 []
     = fetchWithRetry downNet "https://store.example/search" 3 [].
Proof.
  split; [cbn; lia|].
  apply (fetchWithRetry_fuel downNet "https://store.example/search" 3 [] 10).
  cbn. lia.
Defined.



(** ** Lines of text *)

Section Lines.

Local Open Scope string_scope.

Lemma split_nonempty sep s : split sep s <> nil.
Proof.
  destruct s as [|c s]; cbn [split]; [discriminate|].
  destruct (Ascii.eqb c sep); [discriminate|].
  destruct (split sep s); discriminate.
Qed.

Lemma split_no_sep sep s :
  Forall (fun w => containsChar sep w = false) (split sep s).
Proof.
  induction s as [|c s IH]; cbn [split]; [repeat constructor|].
  destruct (Ascii.eqb c sep) eqn:Hc; [constructor; [reflexivity|exact IH]|].
  destruct (split sep s) as [|w ws]; [repeat constructor; cbn; rewrite Hc; reflexivity|].
  inversion IH; subst. constructor; [cbn; rewrite Hc; assumption|assumption].
Qed.

Lemma split_whole sep w : containsChar sep w = false -> split sep w = (w :: nil)%list.
Proof.
  induction w as [|c w IH]; [reflexivity|].
  cbn [containsChar split]. intros H. apply orb_false_iff in H. destruct H as [Hc Hw].
  rewrite Hc, (IH Hw). reflexivity.
Qed.

Lemma split_app_sep sep a b :
  split sep (a ++ String sep b) = (split sep a ++ split sep b)%list.
Proof.
  induction a as [|c a IH]; cbn [append split].
  - rewrite Ascii.eqb_refl. reflexivity.
  - destruct (Ascii.eqb c sep); rewrite IH; [reflexivity|].
    pose proof (split_nonempty sep a) as Hne.
    destruct (split sep a) as [|w ws]; [contradiction|reflexivity].
Qed.

Lemma join_cons sep x y l :
  join sep (x :: y :: l) = x ++ sep ++ join sep (y :: l).
Proof. reflexivity. Qed.

Lemma split_join sep l :
  l <> nil -> Forall (fun w => containsChar sep w = false) l ->
  split sep (join (String sep EmptyString) l) = l.
Proof.
  induction l as [|x l IH]; [congruence|]. intros _ Hall.
  inversion Hall as [|? ? Hx Hl]; subst.
  destruct l as [|y l].
  - apply split_whole. exact Hx.
  - rewrite join_cons. cbn [append].
    rewrite split_app_sep, (split_whole sep x Hx), IH; [reflexivity|discriminate|exact Hl].
Qed.

Lemma join_split sep s : join (String sep EmptyString) (split sep s) = s.
Proof.
  induction s as [|c s IH]; [reflexivity|].
  cbn [split]. destruct (Ascii.eqb_spec c sep) as [->|Hne].
  - pose proof (split_nonempty sep s) as Hn.
    destruct (split sep s) as [|w ws]; [contradiction|].
    rewrite join_cons. cbn [append] in *. rewrite IH. reflexivity.
  - pose proof (split_nonempty sep s) as Hn.
    destruct (split sep s) as [|w ws]; [contradiction|].
    destruct ws as [|w' ws].
    + cbn [join] in *. rewrite IH. reflexivity.
    + rewrite join_cons in *. cbn [append] in *. rewrite IH. reflexivity.
Qed.

Lemma trimEnd_cons c s :
  trimEnd (String c s) =
  match trimEnd s with
  | EmptyString => if isWhiteSpace c then EmptyString else String c EmptyString
  | t => String c t
  end.
Proof. reflexivity. Qed.

Lemma trimEnd_idempotent s : trimEnd (trimEnd s) = trimEnd s.
Proof.
  induction s as [|c s IH]; [reflexivity|].
  rewrite trimEnd_cons. destruct (trimEnd s) as [|c' u] eqn:Hu.
  - destruct (isWhiteSpace c) eqn:Hc; [reflexivity|].
    cbn [trimEnd]. rewrite Hc. reflexivity.
  - rewrite trimEnd_cons, IH. reflexivity.
Qed.

Lemma trimEnd_head c s :
  isWhiteSpace c = false -> exists u, trimEnd (String c s) = String c u.
Proof.
  intros Hc. cbn [trimEnd]. destruct (trimEnd s) as [|c' u].
  - rewrite Hc. exists EmptyString. reflexivity.
  - exists (String c' u). reflexivity.
Qed.

Lemma trimStart_head s :
  trimStart s = EmptyString
  \/ exists c u, trimStart s = String c u /\ isWhiteSpace c = false.
Proof.
  induction s as [|c s IH]; [left; reflexivity|].
  cbn [trimStart]. destruct (isWhiteSpace c) eqn:Hc; [exact IH|].
  right. exists c, s. split; [reflexivity|exact Hc].
Qed.

(** Trimming twice is trimming once. *)
Lemma trim_idempotent s : trim (trim s) = trim s.
Proof.
  unfold trim. destruct (trimStart_head s) as [->|(c & u & -> & Hc)]; [reflexivity|].
  destruct (trimEnd_head c u Hc) as (v & Hv). rewrite Hv.
  cbn [trimStart]. rewrite Hc, <- Hv. apply trimEnd_idempotent.
Qed.

Lemma trimEnd_blank s : trimEnd s = EmptyString -> allWhiteSpace s = true.
Proof.
  induction s as [|c s IH]; [reflexivity|].
  cbn [trimEnd allWhiteSpace]. destruct (trimEnd s) as [|c' u]; [|discriminate].
  destruct (isWhiteSpace c); [intros _; apply IH; reflexivity|discriminate].
Qed.

Lemma trimStart_blank s :
  allWhiteSpace (trimStart s) = true -> allWhiteSpace s = true.
Proof.
  induction s as [|c s IH]; [reflexivity|].
  cbn [trimStart allWhiteSpace]. destruct (isWhiteSpace c) eqn:Hc; [exact IH|].
  cbn [allWhiteSpace]. rewrite Hc. discriminate.
Qed.

Lemma trim_blank_iff s : trim s = EmptyString <-> allWhiteSpace s = true.
Proof.
  split; [|apply trim_blank].
  unfold trim. intros H. apply trimStart_blank, trimEnd_blank, H.
Qed.

(** A text whose lines are all blank is blank. *)
Lemma blank_lines s :
  Forall (fun w => allWhiteSpace w = true) (split "010"%char s) ->
  allWhiteSpace s = true.
Proof.
  induction s as [|c s IH]; [reflexivity|].
  cbn [split allWhiteSpace]. destruct (Ascii.eqb_spec c "010"%char) as [->|Hne].
  - intros H. inversion H; subst. cbn. apply IH. assumption.
  - pose proof (split_nonempty "010"%char s) as Hn.
    destruct (split "010"%char s) as [|w ws]; [contradiction|].
    intros H. inversion H as [|? ? Hw Hws]; subst.
    cbn [allWhiteSpace] in Hw. apply andb_true_iff in Hw. destruct Hw as [Hc Hw].
    rewrite Hc. apply IH. constructor; assumption.
Qed.

End Lines.

(** ** Editing the card list *)

Section ListEditing.

Import CardListEditor.

Local Open Scope string_scope.

Lemma currentCards_lines text :
  Forall (fun w => containsChar "010"%char w = false) (currentCards text).
Proof.
  unfold currentCards. apply Forall_forall. intros w Hw.
  apply filter_In in Hw. destruct Hw as [Hw _].
  exact (proj1 (Forall_forall _ _) (split_no_sep "010"%char text) w Hw).
Qed.

Lemma currentCards_nonBlank text :
  Forall (fun w => nonBlank w = true) (currentCards text).
Proof.
  unfold currentCards. apply Forall_forall. intros w Hw.
  apply filter_In in Hw. exact (proj2 Hw).
Qed.

Lemma filter_all {A} (f : A -> bool) l :
  Forall (fun x => f x = true) l -> filter f l = l.
Proof.
  induction 1 as [|x l Hx _ IH]; [reflexivity|]. cbn. rewrite Hx, IH. reflexivity.
Qed.

Lemma Forall_filter {A} (P : A -> Prop) f l : Forall P l -> Forall P (filter f l).
Proof.
  intros H. apply Forall_forall. intros x Hx. apply filter_In in Hx.
  exact (proj1 (Forall_forall _ _) H x (proj1 Hx)).
Qed.

(** Reading back a text written from non-blank single lines. *)
Lemma currentCards_join l :
  Forall (fun w => containsChar "010"%char w = false) l ->
  Forall (fun w => nonBlank w = true) l ->
  currentCards (join newline l) = l.
Proof.
  intros Hl Hb. unfold currentCards. destruct l as [|x l]; [reflexivity|].
  unfold newline. rewrite split_join; [|discriminate|exact Hl].
  apply filter_all. exact Hb.
Qed.

Lemma currentCards_app_line a b :
  currentCards (a ++ newline ++ b) = (currentCards a ++ currentCards b)%list.
Proof.
  unfold currentCards, newline. cbn [append].
  rewrite split_app_sep, filter_app. reflexivity.
Qed.

Lemma listCards_currentCards text : listCards text = map trim (currentCards text).
Proof.
  unfold listCards, cardsToSearch, currentCards. cbn.
  induction (split "010"%char text) as [|w ws IH]; [reflexivity|].
  cbn. destruct (String.eqb (trim w) ""); cbn; rewrite IH; reflexivity.
Qed.

Lemma includesCard_In cards card : includesCard cards card = true <-> In card cards.
Proof.
  unfold includesCard. rewrite existsb_exists. split.
  - intros (x & Hx & He). apply String.eqb_eq in He. subst. exact Hx.
  - intros H. exists card. split; [exact H|apply String.eqb_refl].
Qed.

Lemma filter_neq_notin cards (c : string) :
  ~ In c cards -> filter (fun card => negb (String.eqb card c)) cards = cards.
Proof.
  intros H. apply filter_all. apply Forall_forall. intros x Hx.
  destruct (String.eqb_spec x c) as [->|]; [contradiction|reflexivity].
Qed.

Lemma addCardToList_new s :
  trim (searchTerm s) <> "" ->
  ~ In (trim (searchTerm s)) (currentCards (cardList s)) ->
  currentCards (cardList (addCardToList s)) =
  (currentCards (cardList s) ++ currentCards (trim (searchTerm s)))%list.
Proof.
  intros Hne Hnew. unfold addCardToList.
  destruct (String.eqb_spec (trim (searchTerm s)) ""); [contradiction|].
  cbn [cardList].
  destruct (includesCard (currentCards (cardList s)) (trim (searchTerm s))) eqn:Hin.
  { apply includesCard_In in Hin. contradiction. }
  cbn [negb]. destruct (currentCards (cardList s)) as [|x l] eqn:Hc; [reflexivity|].
  cbn [List.length Nat.ltb Nat.leb]. rewrite currentCards_app_line.
  rewrite <- Hc at 1. rewrite currentCards_join; [rewrite Hc; reflexivity| |].
  - apply currentCards_lines.
  - apply currentCards_nonBlank.
Qed.

Lemma currentCards_single w :
  trim w <> "" -> hasNewline w = false -> currentCards w = (w :: nil)%list.
Proof.
  intros Hb Hn. unfold currentCards. rewrite (split_whole _ _ Hn). cbn.
  destruct (String.eqb_spec (trim w) ""); [contradiction|reflexivity].
Qed.

Lemma removeCardFromList_currentCards c s :
  currentCards (cardList (removeCardFromList c s)) =
  filter (fun card => negb (String.eqb card c)) (currentCards (cardList s)).
Proof.
  unfold removeCardFromList. cbn [cardList]. apply currentCards_join.
  - apply Forall_filter, currentCards_lines.
  - apply Forall_filter, currentCards_nonBlank.
Qed.

Lemma addCardToList_blank s : trim (searchTerm s) = "" -> addCardToList s = s.
Proof. intros H. unfold addCardToList. rewrite H. reflexivity. Qed.

Lemma addCardToList_listed s :
  In (trim (searchTerm s)) (currentCards (cardList s)) ->
  cardList (addCardToList s) = cardList s.
Proof.
  intros Hin. unfold addCardToList.
  destruct (String.eqb (trim (searchTerm s)) ""); [reflexivity|].
  cbn [cardList]. rewrite (proj2 (includesCard_In _ _) Hin). reflexivity.
Qed.

Lemma addCardToList_searched s :
  trim (searchTerm s) <> "" ->
  hasNewline (trim (searchTerm s)) = false ->
  ~ In (trim (searchTerm s)) (currentCards (cardList s)) ->
  listCards (cardList (addCardToList s))
  = (listCards (cardList s) ++ [trim (searchTerm s)])%list.
Proof.
  intros Hne Hnl Hnew.
  rewrite !listCards_currentCards, addCardToList_new by assumption.
  rewrite (currentCards_single (trim (searchTerm s)));
    [|rewrite trim_idempotent; exact Hne|exact Hnl].
  rewrite map_app. cbn [map]. rewrite trim_idempotent. reflexivity.
Qed.

End ListEditing.

(** X7. [addCardToList] with a term that is not blank, has no line break and
    is not yet a line of the card list appends the trimmed term as the last
    line: the lines already there are kept in order, the list-mode search
    runs on the old cards followed by the new one, and the input is
    cleared. *)
Theorem addCardToList_appends (s : CardListEditor.State) :
  CardListEditor.newCard s <> EmptyString ->
  hasNewline (CardListEditor.newCard s) = false ->
  ~ In (CardListEditor.newCard s)
       (CardListEditor.currentCards (CardListEditor.cardList s)) ->
  CardListEditor.currentCards (CardListEditor.cardList (CardListEditor.addCardToList s)) =
    (CardListEditor.currentCards (CardListEditor.cardList s)
       ++ [CardListEditor.newCard s])%list
  /\ listCards (CardListEditor.cardList (CardListEditor.addCardToList s)) =
       (listCards (CardListEditor.cardList s) ++ [CardListEditor.newCard s])%list
  /\ CardListEditor.searchTerm (CardListEditor.addCardToList s) = EmptyString.
Proof.
  unfold CardListEditor.newCard. intros Hne Hnl Hnew.
  assert (Hc : CardListEditor.currentCards
                 (CardListEditor.cardList (CardListEditor.addCardToList s)) =
               (CardListEditor.currentCards (CardListEditor.cardList s)
                  ++ [trim (CardListEditor.searchTerm s)])%list).
  { rewrite addCardToList_new by assumption. f_equal.
    apply currentCards_single; [|exact Hnl].
    rewrite trim_idempotent. exact Hne. }
  split; [exact Hc|]. split.
  - rewrite !listCards_currentCards, Hc, map_app. cbn [map].
    rewrite trim_idempotent. reflexivity.
  - unfold CardListEditor.addCardToList.
    destruct (String.eqb_spec (trim (CardListEditor.searchTerm s)) EmptyString);
      [contradiction|reflexivity].
Qed.

Lemma addCardToList_appends_witness :
  listCards (CardListEditor.cardList (CardListEditor.addCardToList
    {| CardListEditor.searchTerm := "  Sol Ring ";
       CardListEditor.cardList := twoCards;
       CardListEditor.suggestions := JArr [];
       CardListEditor.showSuggestions := true |})) =
  (listCards twoCards ++ ["Sol Ring"%string])%list.
Proof.
  refine (proj1 (proj2 (addCardToList_appends _ _ _ _))).
  - vm_compute. discriminate.
  - vm_compute. reflexivity.
  - vm_compute. intuition discriminate.
Defined.

(** X8. For a term without a line break, as a single-line input gives
    it, [addCardToList] never makes a line of the card list occur twice:
    when the lines are pairwise different before, they are after, whatever
    the term (blank, already listed, or new); and asking for the same term
    a second time leaves the card list as the first call made it. *)
Theorem addCardToList_no_duplicate (s : CardListEditor.State) :
  hasNewline (CardListEditor.newCard s) = false ->
  NoDup (CardListEditor.currentCards (CardListEditor.cardList s)) ->
  NoDup (CardListEditor.currentCards
           (CardListEditor.cardList (CardListEditor.addCardToList s)))
  /\ CardListEditor.cardList
       (CardListEditor.addCardToList
          (CardListEditor.setSearchTerm (CardListEditor.searchTerm s)
             (CardListEditor.addCardToList s))) =
     CardListEditor.cardList (CardListEditor.addCardToList s).
Proof.
  unfold CardListEditor.newCard. intros Hnl Hnd.
  set (s2 := CardListEditor.setSearchTerm (CardListEditor.searchTerm s)
               (CardListEditor.addCardToList s)).
  assert (Hterm : CardListEditor.searchTerm s2 = CardListEditor.searchTerm s)
    by reflexivity.
  assert (Hlist : CardListEditor.cardList s2 =
                  CardListEditor.cardList (CardListEditor.addCardToList s))
    by reflexivity.
  destruct (String.eqb_spec (trim (CardListEditor.searchTerm s)) EmptyString) as [Hb|Hne].
  { split; [rewrite (addCardToList_blank s Hb); exact Hnd|].
    rewrite (addCardToList_blank s2); [exact Hlist|]. rewrite Hterm. exact Hb. }
  destruct (in_dec string_dec (trim (CardListEditor.searchTerm s))
              (CardListEditor.currentCards (CardListEditor.cardList s))) as [Hin|Hnew].
  - split; [rewrite (addCardToList_listed s Hin); exact Hnd|].
    rewrite (addCardToList_listed s2); [exact Hlist|].
    rewrite Hterm, Hlist, (addCardToList_listed s Hin). exact Hin.
  - assert (Hc : CardListEditor.currentCards
                   (CardListEditor.cardList (CardListEditor.addCardToList s)) =
                 (CardListEditor.currentCards (CardListEditor.cardList s)
                    ++ [trim (CardListEditor.searchTerm s)])%list).
    { rewrite addCardToList_new by assumption. f_equal.
      apply currentCards_single; [|exact Hnl].
      rewrite trim_idempotent. exact Hne. }
    split.
    + rewrite Hc. apply NoDup_app; [exact Hnd|repeat constructor; intros []|].
      intros x Hx [<-|[]]. contradiction.
    + rewrite (addCardToList_listed s2); [exact Hlist|].
      rewrite Hterm, Hlist, Hc. apply in_or_app. right. left. reflexivity.
Qed.

Lemma addCardToList_no_duplicate_witness :
  NoDup (CardListEditor.currentCards (CardListEditor.cardList
    (CardListEditor.addCardToList
      {| CardListEditor.searchTerm := "Shock ";
         CardListEditor.cardList := twoCards;
         CardListEditor.suggestions := JArr [];
         CardListEditor.showSuggestions := false |}))).
Proof.
  refine (proj1 (addCardToList_no_duplicate _ _ _)).
  - vm_compute. reflexivity.
  - vm_compute. repeat constructor; cbn; intuition discriminate.
Defined.

(** X9. [removeCardFromList] removes every line equal to the card and nothing
    else: the remaining lines are the old ones without it, in the same
    order, and the card is no longer a line of the new text. *)
Theorem removeCardFromList_lines (c : string) (s : CardListEditor.State) :
  CardListEditor.currentCards
    (CardListEditor.cardList (CardListEditor.removeCardFromList c s)) =
    filter (fun card => negb (String.eqb card c))
      (CardListEditor.currentCards (CardListEditor.cardList s))
  /\ ~ In c (CardListEditor.currentCards
               (CardListEditor.cardList (CardListEditor.removeCardFromList c s))).
Proof.
  split; [apply removeCardFromList_currentCards|].
  rewrite removeCardFromList_currentCards. intros H. apply filter_In in H.
  destruct H as [_ H]. rewrite String.eqb_refl in H. discriminate.
Qed.

(** X10. Removing a card that [addCardToList] has just appended gives back
    the lines there were before: for a term that is not blank, has no line
    break and is not yet a line of the list, [removeCardFromList] undoes
    [addCardToList]. *)
Theorem removeCardFromList_undoes_add (s : CardListEditor.State) :
  CardListEditor.newCard s <> EmptyString ->
  hasNewline (CardListEditor.newCard s) = false ->
  ~ In (CardListEditor.newCard s)
       (CardListEditor.currentCards (CardListEditor.cardList s)) ->
  CardListEditor.currentCards
    (CardListEditor.cardList
       (CardListEditor.removeCardFromList (CardListEditor.newCard s)
          (CardListEditor.addCardToList s))) =
  CardListEditor.currentCards (CardListEditor.cardList s).
Proof.
  unfold CardListEditor.newCard. intros Hne Hnl Hnew.
  rewrite removeCardFromList_currentCards.
  rewrite addCardToList_new by assumption.
  rewrite (currentCards_single (trim (CardListEditor.searchTerm s)));
    [|rewrite trim_idempotent; exact Hne | exact Hnl].
  rewrite filter_app, (filter_neq_notin _ _ Hnew). cbn.
  rewrite String.eqb_refl. cbn. apply app_nil_r.
Qed.

Lemma removeCardFromList_undoes_add_witness :
  CardListEditor.currentCards
    (CardListEditor.cardList
       (CardListEditor.removeCardFromList "Sol Ring"
          (CardListEditor.addCardToList
             {| CardListEditor.searchTerm := "Sol Ring";
                CardListEditor.cardList := twoCards;
                CardListEditor.suggestions := JArr [];
                CardListEditor.showSuggestions := false |}))) =
  CardListEditor.currentCards twoCards.
Proof.
  refine (removeCardFromList_undoes_add
            {| CardListEditor.searchTerm := "Sol Ring";
               CardListEditor.cardList := twoCards;
               CardListEditor.suggestions := JArr [];
               CardListEditor.showSuggestions := false |} _ _ _).
  - vm_compute. discriminate.
  - vm_compute. reflexivity.
  - vm_compute. intuition discriminate.
Defined.

(** X11. The duplicate check of [addCardToList] compares the trimmed term
    with the lines as they are typed, while the search trims every line: a
    term whose only occurrences in the card list carry spaces around them
    is added again, and the list-mode search then runs on that card
    twice. *)
Theorem addCardToList_padded_line (s : CardListEditor.State) (line : string) :
  In line (CardListEditor.currentCards (CardListEditor.cardList s)) ->
  trim line = CardListEditor.newCard s ->
  hasNewline (CardListEditor.newCard s) = false ->
  ~ In (CardListEditor.newCard s)
       (CardListEditor.currentCards (CardListEditor.cardList s)) ->
  (2 <= count_occ string_dec
          (listCards (CardListEditor.cardList (CardListEditor.addCardToList s)))
          (CardListEditor.newCard s))%nat.
Proof.
  intros Hin Ht Hnl Hnew.
  assert (Hne : CardListEditor.newCard s <> EmptyString).
  { rewrite <- Ht. pose proof (currentCards_nonBlank (CardListEditor.cardList s)) as Hb.
    rewrite Forall_forall in Hb. specialize (Hb _ Hin). unfold nonBlank in Hb.
    destruct (String.eqb_spec (trim line) EmptyString); [discriminate|assumption]. }
  rewrite (addCardToList_searched s Hne Hnl Hnew).
  fold (CardListEditor.newCard s).
  rewrite count_occ_app. cbn [count_occ].
  destruct (string_dec (CardListEditor.newCard s) (CardListEditor.newCard s));
    [|contradiction].
  assert (Hl : In (CardListEditor.newCard s) (listCards (CardListEditor.cardList s))).
  { rewrite listCards_currentCards, <- Ht. apply in_map. exact Hin. }
  apply (count_occ_In string_dec) in Hl. lia.
Qed.

Lemma addCardToList_padded_line_witness :
  (2 <= count_occ string_dec
          (listCards (CardListEditor.cardList (CardListEditor.addCardToList
             {| CardListEditor.searchTerm := "Shock";
                CardListEditor.cardList := " Shock";
                CardListEditor.suggestions := JArr [];
                CardListEditor.showSuggestions := false |})))
          "Shock"%string)%nat.
Proof.
  refine (addCardToList_padded_line _ " Shock"%string _ _ _ _).
  - vm_compute. left. reflexivity.
  - vm_compute. reflexivity.
  - vm_compute. reflexivity.
  - vm_compute. intuition discriminate.
Defined.

(** ** What the page shows *)

Section Display.

Local Open Scope string_scope.

Lemma toCardResult_store st p r : toCardResult st p = Normal r -> store r = store_name st.
Proof.
  unfold toCardResult. intros H.
  repeat match type of H with
         | cbind ?c _ = Normal _ => destruct c eqn:?; cbn [cbind] in H; [|discriminate]
         end.
  inversion H. reflexivity.
Qed.

Lemma tally_cons s r rs :
  tally s (r :: rs) = ((if hasStatus s r then 1 else 0) + tally s rs)%nat.
Proof. unfold tally. cbn [filter]. destruct (hasStatus s r); reflexivity. Qed.

Lemma tally_sum rs :
  (tally found rs + tally no_inventory rs + tally not_found rs)%nat = List.length rs.
Proof.
  induction rs as [|r rs IH]; [reflexivity|].
  rewrite !tally_cons. cbn [List.length]. unfold hasStatus.
  destruct (status r); lia.
Qed.

End Display.

(** ** Requests and waits of a search *)

Section Reach.

Variable net : Network.

Lemma requests_app t1 t2 : requests (t1 ++ t2) = requests t1 ++ requests t2.
Proof.
  induction t1 as [|e t1 IH]; [reflexivity|].
  destruct e; cbn [app requests]; rewrite ?IH; reflexivity.
Qed.

Lemma timeouts_app t1 t2 : timeouts (t1 ++ t2) = timeouts t1 ++ timeouts t2.
Proof.
  induction t1 as [|e t1 IH]; [reflexivity|].
  destruct e; cbn [app timeouts]; rewrite ?IH; reflexivity.
Qed.

Lemma loadingSet_app t1 t2 : loadingSet (t1 ++ t2) = loadingSet t1 ++ loadingSet t2.
Proof.
  induction t1 as [|e t1 IH]; [reflexivity|].
  destruct e; cbn [app loadingSet]; rewrite ?IH; reflexivity.
Qed.

Lemma consoleErrors_app t1 t2 :
  consoleErrors (t1 ++ t2) = consoleErrors t1 ++ consoleErrors t2.
Proof.
  induction t1 as [|e t1 IH]; [reflexivity|].
  destruct e; cbn [app consoleErrors]; rewrite ?IH; reflexivity.
Qed.

Lemma retryEvent_weaken url a a' m e :
  a' <= a -> retryEvent url a m e -> retryEvent url a' m e.
Proof.
  intros Hle. destruct e; cbn; try tauto.
  intros (k & Hk & ->). exists k. split; [lia|reflexivity].
Qed.

Lemma retryLoop_reach fuel url m : forall a h,
  Forall (retryEvent url a m) (snd (retryLoop net fuel url m a h))
  /\ (List.length (timeouts (snd (retryLoop net fuel url m a h))) <= Z.to_nat (m - a))%nat.
Proof.
  induction fuel as [|fuel IH]; intros a h.
  - simpl. destruct (a <=? m); split; simpl; try constructor; lia.
  - rewrite retryLoop_step.
    destruct (Z.leb_spec a m) as [Hle|Hgt]; [|split; simpl; [constructor|lia]].
    destruct (attemptResult _) as [v|e];
      [split; simpl; [repeat constructor|lia]|].
    destruct (Z.eqb_spec a m) as [Heq|Hne];
      [split; simpl; [repeat constructor|lia]|].
    cbv zeta. cbn [snd].
    destruct (IH (a + 1) (h ++ [EFetch url; EWarn (RetryWarning a (backoff a) e);
                                ETimeout (backoff a)])) as [IH1 IH2].
    split.
    + apply Forall_app. split.
      * repeat constructor. exists a. split; [lia|reflexivity].
      * eapply Forall_impl; [|exact IH1]. intros e'. apply retryEvent_weaken. lia.
    + rewrite timeouts_app, length_app. cbn [timeouts List.length].
      replace (m - (a + 1)) with (m - a - 1) in IH2 by lia. lia.
Qed.

Lemma searchStore_trace st name h :
  exists d, snd (retryLoop net (Z.to_nat 3) (proxyUrl st name) 3 1 h) = d
    /\ (snd (searchStore net st name h) = d
        \/ exists e, snd (searchStore net st name h) = d ++ [EWarn e]).
Proof.
  rewrite searchStore_run, queryStore_run. unfold fetchWithRetry.
  destruct (retryLoop net (Z.to_nat 3) (proxyUrl st name) 3 1 h) as [[data|e] d];
    cbn [snd]; exists d; (split; [reflexivity|]).
  - destruct (normalizeProducts st name (productsOf data)); cbn [snd];
      [left; reflexivity|right; eexists; reflexivity].
  - right. eexists. reflexivity.
Qed.

Lemma searchStore_reach st name h :
  In st stores ->
  Forall (cardEvent name) (snd (searchStore net st name h))
  /\ (List.length (requests (snd (searchStore net st name h))) <= 3)%nat
  /\ (List.length (timeouts (snd (searchStore net st name h))) <= 2)%nat.
Proof.
  intros Hst. destruct (searchStore_trace st name h) as (d & Hd & Hs).
  destruct (retryLoop_reach (Z.to_nat 3) (proxyUrl st name) 3 1 h) as [He Ht].
  pose proof (retryLoop_requests_le net (Z.to_nat 3) (proxyUrl st name) 3 1 h) as Hr.
  rewrite Hd in He, Ht, Hr.
  assert (Hc : Forall (cardEvent name) d).
  { eapply Forall_impl; [|exact He]. intros e. destruct e; cbn; try tauto.
    - intros ->. right. exists st. split; [exact Hst|reflexivity].
    - intros (k & Hk & ->). assert (k = 1 \/ k = 2) as [->| ->] by lia;
        [left|right]; reflexivity. }
  change (Z.to_nat 3) with 3%nat in Hr. change (Z.to_nat (3 - 1)) with 2%nat in Ht.
  destruct Hs as [->|[e ->]].
  - repeat split; assumption.
  - rewrite requests_app, timeouts_app, !length_app. cbn.
    repeat split; [apply Forall_app; split; [exact Hc|repeat constructor]|lia|lia].
Qed.

Lemma fanOut_reach name h :
  Forall (cardEvent name) (snd (fanOut net name h))
  /\ (List.length (requests (snd (fanOut net name h))) <= 9)%nat
  /\ (List.length (timeouts (snd (fanOut net name h))) <= 6)%nat.
Proof.
  rewrite fanOut_independent. cbn [snd]. unfold stores. cbn [map List.concat].
  rewrite !app_nil_r.
  match goal with
  | |- context [snd (searchStore net ?a name h) ++ snd (searchStore net ?b name h)
                  ++ snd (searchStore net ?c name h)] =>
      destruct (searchStore_reach a name h) as (A1 & A2 & A3);
        [cbn; tauto|];
      destruct (searchStore_reach b name h) as (B1 & B2 & B3);
        [cbn; tauto|];
      destruct (searchStore_reach c name h) as (C1 & C2 & C3);
        [cbn; tauto|]
  end.
  rewrite !requests_app, !timeouts_app, !length_app.
  repeat split; [repeat (apply Forall_app; split); assumption|lia|lia].
Qed.

Lemma searchSingleCard_reach name h :
  Forall (cardEvent name) (snd (searchSingleCard net name h))
  /\ (1 <= List.length (requests (snd (searchSingleCard net name h))) <= 10)%nat
  /\ (List.length (timeouts (snd (searchSingleCard net name h))) <= 6)%nat.
Proof.
  pose proof (validateCardName_run net name h) as Hv. cbv zeta in Hv.
  set (r := net (validateUrl name) (requestsTo (validateUrl name) h)) in *.
  assert (Hvt : Forall (cardEvent name) (validationTrace name r)
                /\ requests (validationTrace name r) = [validateUrl name]
                /\ timeouts (validationTrace name r) = []).
  { unfold validationTrace. destruct r; cbn; repeat split;
      repeat constructor; left; reflexivity. }
  destruct Hvt as (V1 & V2 & V3).
  destruct (validOf r) eqn:Hvalid.
  - destruct (fanOut_normal net name (h ++ validationTrace name r)) as (per & df & Hf).
    rewrite (searchSingleCard_valid net name h _ _ _ Hv Hf). cbn [snd].
    destruct (fanOut_reach name (h ++ validationTrace name r)) as (F1 & F2 & F3).
    rewrite Hf in F1, F2, F3. cbn [snd] in F1, F2, F3.
    rewrite requests_app, timeouts_app, !length_app, V2, V3. cbn [List.length].
    repeat split; [apply Forall_app; split; assumption|lia|lia|lia].
  - rewrite (searchSingleCard_invalid net name h _ Hv). cbn [snd].
    rewrite V2, V3. cbn. repeat split; [exact V1|lia|lia|lia].
Qed.

Lemma cardEvent_search name t : Forall (cardEvent name) t -> searchEvents t.
Proof.
  apply Forall_impl. intros e. destruct e; cbn; try tauto; reflexivity.
Qed.

Lemma searchEvents_silent t :
  searchEvents t -> loadingSet t = [] /\ consoleErrors t = [].
Proof.
  induction 1 as [|e t He _ [IH1 IH2]]; [split; reflexivity|].
  destruct e; try discriminate He; split; assumption.
Qed.

Lemma batchTrace_silent runs : forall i acc,
  Forall (fun run => searchEvents (snd run)) runs ->
  loadingSet (batchTrace i acc runs) = []
  /\ consoleErrors (batchTrace i acc runs) = [].
Proof.
  induction runs as [|[out seg] runs IH]; intros i acc Hev; [split; reflexivity|].
  inversion Hev as [|? ? Hseg Hev']; subst. cbn [snd] in Hseg.
  cbn [batchTrace]. rewrite !loadingSet_app, !consoleErrors_app.
  destruct (searchEvents_silent seg Hseg) as [-> ->].
  destruct (IH (S i) (acc ++ [out]) Hev') as [IH1 IH2].
  destruct (0 <? i)%nat; cbn [app loadingSet consoleErrors]; split; assumption.
Qed.

(** The pauses and requests of the loop over the cards. *)
Lemma batch_reach cards : forall runs h i acc,
  sequentialRuns net h i acc cards runs ->
  List.length runs = List.length cards
  /\ count_occ Z.eq_dec (timeouts (batchTrace i acc runs)) 100
     = (if (0 <? i)%nat then List.length cards else List.length cards - 1)%nat
  /\ (List.length cards <= List.length (requests (batchTrace i acc runs))
      <= 10 * List.length cards)%nat
  /\ Forall (fun u => exists c, In c cards /\ cardUrl c u)
       (requests (batchTrace i acc runs)).
Proof.
  induction cards as [|name cards IH]; intros [|[out seg] runs] h i acc Hruns;
    cbn [sequentialRuns] in Hruns; try contradiction.
  - destruct i; cbn; repeat split; try lia; constructor.
  - destruct Hruns as [Hrun Hrest].
    destruct (IH _ _ _ _ Hrest) as (L & T & R & U).
    pose proof (searchSingleCard_reach name
                  (h ++ (if (0 <? i)%nat then [ETimeout 100] else []))) as Hs.
    rewrite Hrun in Hs. cbn [snd] in Hs. destruct Hs as (E & Rq & _).
    assert (Hno : count_occ Z.eq_dec (timeouts seg) 100 = 0%nat).
    { apply count_occ_not_In. intros Hin.
      assert (Hall : Forall (fun ms => ms = 1000 \/ ms = 2000) (timeouts seg)).
      { clear - E. induction E as [|e t He _ IH]; [constructor|].
        destruct e; cbn [timeouts]; try exact IH. constructor; [exact He|exact IH]. }
      rewrite Forall_forall in Hall. specialize (Hall _ Hin). lia. }
    assert (Hu : Forall (fun u => cardUrl name u) (requests seg)).
    { clear - E. induction E as [|e t He _ IH]; [constructor|].
      destruct e; cbn [requests]; try exact IH. constructor; [exact He|exact IH]. }
    cbn [batchTrace List.length].
    rewrite !timeouts_app, !requests_app, !count_occ_app, !length_app.
    change (ESetSearchResults (acc ++ [out]) :: batchTrace (S i) (acc ++ [out]) runs)
      with ([ESetSearchResults (acc ++ [out])] ++ batchTrace (S i) (acc ++ [out]) runs).
    rewrite !timeouts_app, !requests_app, !count_occ_app, !length_app.
    cbn [timeouts requests count_occ List.length app]. rewrite Hno, T.
    change (0 <? S i)%nat with true in T. cbv iota in T.
    split; [lia|]. split.
    { destruct i; cbn; lia. }
    split.
    { destruct i; cbn; lia. }
    apply Forall_app. split; [destruct i; constructor|].
    apply Forall_app. split.
    + eapply Forall_impl; [|exact Hu]. intros u Hc. exists name. split; [left; reflexivity|exact Hc].
    + eapply Forall_impl; [|exact U]. intros u (c & Hc & Hcu). exists c.
      split; [right; exact Hc|exact Hcu].
Qed.

End Reach.

(** X12. A search for one card reaches only the validation address of its
    name and the three configured stores through the proxy; it makes at
    least one and at most ten requests (one to validate, at most three per
    store) and waits at most six times, one or two seconds each.  Apart
    from these requests and waits it only writes warnings. *)
Theorem searchSingleCard_requests_bounded (net : Network) (name : string) (h : Trace) :
  Forall (cardEvent name) (snd (searchSingleCard net name h))
  /\ Forall (cardUrl name) (requests (snd (searchSingleCard net name h)))
  /\ (1 <= List.length (requests (snd (searchSingleCard net name h))) <= 10)%nat
  /\ (List.length (timeouts (snd (searchSingleCard net name h))) <= 6)%nat
  /\ Forall (fun ms => ms = 1000 \/ ms = 2000)
       (timeouts (snd (searchSingleCard net name h))).
Proof.
  destruct (searchSingleCard_reach net name h) as (E & R & T).
  repeat split; try assumption; try lia.
  - clear - E. induction E as [|e t He _ IH]; [constructor|].
    destruct e; cbn [requests]; try exact IH. constructor; [exact He|exact IH].
  - clear - E. induction E as [|e t He _ IH]; [constructor|].
    destruct e; cbn [timeouts]; try exact IH. constructor; [exact He|exact IH].
Qed.

(** X13. A batch over n cards pauses 100 ms exactly n - 1 times, makes
    between n and 10 n requests, and every request goes to the validation
    address or to a store address of one of the cards searched. *)
Theorem searchCards_requests_bounded (net : Network) (i : Inputs) (h : Trace) :
  cardsToSearch i <> [] ->
  count_occ Z.eq_dec (timeouts (snd (searchCards net i h))) 100
    = (List.length (cardsToSearch i) - 1)%nat
  /\ (List.length (cardsToSearch i)
      <= List.length (requests (snd (searchCards net i h)))
      <= 10 * List.length (cardsToSearch i))%nat
  /\ Forall (fun u => exists c, In c (cardsToSearch i) /\ cardUrl c u)
       (requests (snd (searchCards net i h))).
Proof.
  intros Hne.
  destruct (searchCards_run net i h Hne) as (runs & Hruns & _ & -> & _ & _).
  destruct (batch_reach net _ _ _ _ _ Hruns) as (_ & T & R & U).
  cbn [snd]. unfold prelude.
  rewrite !timeouts_app, !requests_app, !count_occ_app, !length_app.
  cbn [timeouts requests count_occ List.length app Nat.ltb Nat.leb] in *.
  rewrite T. repeat split; try lia.
  rewrite app_nil_r. exact U.
Qed.

Lemma searchCards_requests_bounded_witness :
  count_occ Z.eq_dec
    (timeouts (snd (searchCards downNet
       {| searchMode := list_mode; searchTerm := EmptyString; cardList := twoCards |} [])))
    100 = 1%nat.
Proof.
  refine (proj1 (searchCards_requests_bounded downNet
            {| searchMode := list_mode; searchTerm := EmptyString; cardList := twoCards |}
            [] _)).
  vm_compute. discriminate.
Defined.

(** ** The batch as the page sees it *)

Section Page.

Variable net : Network.

Lemma currentCards_blank text :
  CardListEditor.currentCards text = [] -> trim text = EmptyString.
Proof.
  intros H. apply trim_blank_iff, blank_lines.
  apply Forall_forall. intros w Hw.
  apply trim_blank_iff.
  destruct (String.eqb_spec (trim w) EmptyString) as [Heq|Hne]; [exact Heq|].
  assert (Hin : In w (CardListEditor.currentCards text)).
  { unfold CardListEditor.currentCards. apply filter_In. split; [exact Hw|].
    destruct (String.eqb_spec (trim w) EmptyString); [contradiction|reflexivity]. }
  rewrite H in Hin. destruct Hin.
Qed.

Lemma buttonCount_listCards text : buttonCount text = List.length (listCards text).
Proof.
  unfold buttonCount. rewrite listCards_currentCards, length_map. reflexivity.
Qed.

Lemma searchCards_none i h :
  cardsToSearch i = [] ->
  searchMode i = list_mode
  /\ searchCards net i h = (Normal tt, [ESetError "Please enter at least one card name"]).
Proof.
  intros Hnone. unfold searchCards. rewrite Hnone. cbn.
  unfold cardsToSearch in Hnone. destruct (searchMode i); [discriminate|].
  split; reflexivity.
Qed.

Lemma last_prefixes {A} (l : list A) : l <> [] -> last (prefixes l) [] = l.
Proof.
  intros Hne. unfold prefixes.
  destruct (List.length l) as [|n] eqn:Hn; [destruct l; [congruence|discriminate]|].
  rewrite seq_S, map_app. cbn [map]. rewrite last_last.
  replace (1 + n)%nat with (List.length l) by lia. apply firstn_all.
Qed.

(** The outcome lists a search publishes: the empty list, then the
    outcomes so far after every card. *)
Lemma searchCards_published i h :
  cardsToSearch i <> [] ->
  exists rs,
    published (snd (searchCards net i h)) = [] :: prefixes rs
    /\ map cardName rs = cardsToSearch i
    /\ last (published (snd (searchCards net i h))) [] = rs.
Proof.
  intros Hne.
  destruct (searchCards_run net i h Hne) as (runs & _ & _ & Hrun & Hnames & Hev).
  exists (map fst runs). rewrite Hrun. cbn [snd].
  assert (Hp : published (prelude ++ batchTrace 0 [] runs ++ [ESetLoading false])
               = [] :: prefixes (map fst runs)).
  { rewrite !published_app, (published_batchTrace runs 0 [] Hev).
    cbn. unfold prefixes. rewrite length_map, app_nil_r. reflexivity. }
  rewrite Hp. split; [reflexivity|]. split; [exact Hnames|].
  assert (Hr : map fst runs <> []).
  { intros H0. rewrite H0 in Hnames. cbn in Hnames. congruence. }
  pose proof (last_prefixes (map fst runs) Hr) as Hl.
  destruct (prefixes (map fst runs)) as [|p ps] eqn:Hps.
  - cbn in Hl. congruence.
  - exact Hl.
Qed.

Lemma results_stores name h out d r :
  searchSingleCard net name h = (Normal out, d) ->
  In r (results out) ->
  exists st, In st stores /\ store r = store_name st.
Proof.
  intros Hrun Hin.
  pose proof (validateCardName_run net name h) as Hv. cbv zeta in Hv.
  destruct (validOf (net (validateUrl name) (requestsTo (validateUrl name) h))) eqn:Hvalid.
  - destruct (fanOut_normal net name
                (h ++ validationTrace name
                        (net (validateUrl name) (requestsTo (validateUrl name) h))))
      as (per & df & Hf).
    rewrite (searchSingleCard_valid net name h _ _ _ Hv Hf) in Hrun.
    inversion Hrun; subst. cbn [results mergedOutcome] in Hin.
    apply (Permutation_in _ (sort_perm byPriceMin _)) in Hin.
    assert (Hper : per = map (fun st => storeList net st name
                     (h ++ validationTrace name
                        (net (validateUrl name) (requestsTo (validateUrl name) h))))
                     stores).
    { rewrite fanOut_independent in Hf. congruence. }
    rewrite Hper in Hin. clear Hper Hf.
    apply in_concat in Hin. destruct Hin as (l & Hl & Hr).
    apply in_map_iff in Hl. destruct Hl as (st & <- & Hst).
    exists st. split; [exact Hst|].
    destruct (storeList_run net st name
                (h ++ validationTrace name
                        (net (validateUrl name) (requestsTo (validateUrl name) h))))
      as (d' & Hs).
    destruct (searchStore_inv net st name _ _ _ r Hs Hr) as (? & ? & ? & p & _ & _ & _ & _ & Hp).
    exact (toCardResult_store st p r Hp).
  - rewrite (searchSingleCard_invalid net name h _ Hv) in Hrun.
    inversion Hrun; subst. destruct Hin.
Qed.

End Page.

(** X14. [searchCards] always completes and never reports a failure: it
    writes nothing to [console.error], and the only messages it sets are
    the empty one, when a search starts, and in list mode "Please enter at
    least one card name"; the messages "Please enter a card name to
    search", "No cards found. Please check your search terms." and "An
    error occurred while searching. Please try again." are never set.
    When a search starts, loading is set to true first and to false last,
    and at no other point. *)
Theorem searchCards_never_reports_failure (net : Network) (i : Inputs) (h : Trace) :
  fst (searchCards net i h) = Normal tt
  /\ consoleErrors (snd (searchCards net i h)) = []
  /\ ((cardsToSearch i = []
       /\ searchMode i = list_mode
       /\ snd (searchCards net i h) = [ESetError "Please enter at least one card name"])
      \/ (cardsToSearch i <> []
          /\ errorsSet (snd (searchCards net i h)) = [EmptyString]
          /\ loadingSet (snd (searchCards net i h)) = [true; false]
          /\ exists t, snd (searchCards net i h)
                       = ESetLoading true :: t ++ [ESetLoading false])).
Proof.
  destruct (cardsToSearch i) as [|c cs] eqn:Hcards.
  - destruct (searchCards_none net i h Hcards) as [Hmode ->].
    repeat split. left. repeat split. exact Hmode.
  - assert (Hne : cardsToSearch i <> []) by (rewrite Hcards; discriminate).
    destruct (searchCards_run net i h Hne) as (runs & _ & _ & -> & _ & Hev).
    destruct (batchTrace_silent runs 0 [] Hev) as [Hl Hc].
    cbn [fst snd]. split; [reflexivity|]. split.
    { rewrite !consoleErrors_app, Hc. reflexivity. }
    right. split; [discriminate|]. split.
    { rewrite !errorsSet_app, (errorsSet_batchTrace runs 0 [] Hev). reflexivity. }
    split.
    { rewrite !loadingSet_app, Hl. reflexivity. }
    eexists. unfold prelude. cbn [app]. f_equal.
    change (ESetError "" :: ESetSearchResults [] :: ESetShowSuggestions false
              :: batchTrace 0 [] runs ++ [ESetLoading false])
      with ((ESetError "" :: ESetSearchResults [] :: ESetShowSuggestions false
              :: batchTrace 0 [] runs) ++ [ESetLoading false]).
    reflexivity.
Qed.

(** X15. In list mode the number shown on the submit button is the number
    of cards the search runs on: whenever the count is shown it is at
    least one, it equals the number of names [searchCards] searches, and
    the outcomes published last are as many, one per name in order. *)
Theorem button_count_is_batch_size (net : Network) (i : Inputs) (h : Trace) :
  showsButtonCount (searchMode i) (cardList i) = true ->
  (0 < buttonCount (cardList i))%nat
  /\ buttonCount (cardList i) = List.length (cardsToSearch i)
  /\ exists rs,
       last (published (snd (searchCards net i h))) [] = rs
       /\ List.length rs = buttonCount (cardList i)
       /\ map cardName rs = cardsToSearch i.
Proof.
  unfold showsButtonCount. destruct (searchMode i) eqn:Hmode; [discriminate|].
  intros Hshown.
  assert (Hcards : cardsToSearch i = listCards (cardList i)).
  { unfold listCards, cardsToSearch. rewrite Hmode. reflexivity. }
  assert (Hpos : (0 < buttonCount (cardList i))%nat).
  { unfold buttonCount.
    destruct (CardListEditor.currentCards (cardList i)) eqn:Hc; [|cbn; lia].
    apply currentCards_blank in Hc. rewrite Hc in Hshown. discriminate. }
  assert (Hlen : buttonCount (cardList i) = List.length (cardsToSearch i)).
  { rewrite Hcards. apply buttonCount_listCards. }
  split; [exact Hpos|]. split; [exact Hlen|].
  assert (Hne : cardsToSearch i <> []).
  { intros H0. rewrite H0 in Hlen. cbn in Hlen. lia. }
  destruct (searchCards_published net i h Hne) as (rs & _ & Hnames & Hlast).
  exists rs. split; [exact Hlast|]. split; [|exact Hnames].
  rewrite Hlen, <- Hnames, length_map. reflexivity.
Qed.

Lemma button_count_is_batch_size_witness :
  buttonCount twoCards = 2%nat
  /\ buttonCount twoCards
     = List.length (cardsToSearch
         {| searchMode := list_mode; searchTerm := EmptyString; cardList := twoCards |}).
Proof.
  split; [reflexivity|].
  refine (proj1 (proj2 (button_count_is_batch_size downNet
            {| searchMode := list_mode; searchTerm := EmptyString; cardList := twoCards |}
            [] _))).
  vm_compute. reflexivity.
Defined.

(** X16. The three tallies shown above the results always add up to the
    number of outcomes listed, and once a search has run they add up to
    the number of cards searched: every card is counted once, as found, as
    without inventory or as not recognised. *)
Theorem tallies_cover_batch (net : Network) (i : Inputs) (h : Trace) :
  cardsToSearch i <> [] ->
  Forall (fun rs =>
            (tally found rs + tally no_inventory rs + tally not_found rs)%nat
            = List.length rs)
    (published (snd (searchCards net i h)))
  /\ (tally found (last (published (snd (searchCards net i h))) [])
      + tally no_inventory (last (published (snd (searchCards net i h))) [])
      + tally not_found (last (published (snd (searchCards net i h))) []))%nat
     = List.length (cardsToSearch i).
Proof.
  intros Hne. split.
  - apply Forall_forall. intros rs _. apply tally_sum.
  - destruct (searchCards_published net i h Hne) as (rs & _ & Hnames & ->).
    rewrite tally_sum, <- Hnames, length_map. reflexivity.
Qed.

Lemma tallies_cover_batch_witness :
  (tally found (last (published (snd (searchCards downNet
      {| searchMode := list_mode; searchTerm := EmptyString; cardList := twoCards |} []))) [])
   + tally no_inventory (last (published (snd (searchCards downNet
      {| searchMode := list_mode; searchTerm := EmptyString; cardList := twoCards |} []))) [])
   + tally not_found (last (published (snd (searchCards downNet
      {| searchMode := list_mode; searchTerm := EmptyString; cardList := twoCards |} []))) []))%nat
  = List.length (cardsToSearch
      {| searchMode := list_mode; searchTerm := EmptyString; cardList := twoCards |}).
Proof.
  refine (proj2 (tallies_cover_batch downNet
            {| searchMode := list_mode; searchTerm := EmptyString; cardList := twoCards |}
            [] _)).
  vm_compute. discriminate.
Defined.

(** X17. Every result of a card search carries the name of one of the three
    configured stores, so [getStoreColor] gives its badge one of the three
    store colours: the grey fallback and the inherited properties of the
    colour table are never reached from a search result. *)
Theorem result_badge_has_store_color (net : Network) (name : string) (h : Trace)
    (out : CardSearchResult) (d : Trace) (r : CardResult) :
  searchSingleCard net name h = (Normal out, d) ->
  In r (results out) ->
  (exists st, In st stores /\ store r = store_name st)
  /\ In (getStoreColor (store r))
       [ClassName "bg-blue-500"; ClassName "bg-purple-500"; ClassName "bg-green-500"].
Proof.
  intros Hrun Hin.
  destruct (results_stores net name h out d r Hrun Hin) as (st & Hst & Hs).
  split; [exists st; split; assumption|].
  rewrite Hs. unfold stores in Hst. cbn [In] in Hst.
  destruct Hst as [<-|[<-|[<-|[]]]]; vm_compute; tauto.
Qed.

Lemma result_badge_has_store_color_witness :
  exists out d r,
    searchSingleCard sampleNet "Lightning Bolt" [] = (Normal out, d)
    /\ In r (results out)
    /\ In (getStoreColor (store r))
         [ClassName "bg-blue-500"; ClassName "bg-purple-500"; ClassName "bg-green-500"].
Proof.
  destruct (searchSingleCard sampleNet "Lightning Bolt" []) as [[out|e] d] eqn:Hrun;
    [|vm_compute in Hrun; discriminate].
  destruct (results out) as [|r rs] eqn:Hres.
  - vm_compute in Hrun. inversion Hrun; subst. discriminate.
  - exists out, d, r. split; [reflexivity|].
    assert (Hin : In r (results out)) by (rewrite Hres; left; reflexivity).
    split; [exact Hin|].
    exact (proj2 (result_badge_has_store_color sampleNet "Lightning Bolt" [] out d r Hrun Hin)).
Defined.

(** ** Responses outside the declared shape *)

Section OffShape.

Variable net : Network.

Lemma leb_NaN_l y : leb NaN y = false.
Proof. destruct y; reflexivity. Qed.

Lemma leb_NaN_r x : leb x NaN = false.
Proof. destruct x; reflexivity. Qed.

Lemma isNaN_eq x : isNaN x = true -> x = NaN.
Proof. destruct x; try discriminate; reflexivity. Qed.

(** No list of two or more results that has an unpriced one ascends. *)
Lemma unpriced_unsorted r l :
  isNaN (priceMin r) = true -> In r l -> (2 <= List.length l)%nat ->
  ~ StronglySorted priceLe l.
Proof.
  intros Hnan Hin Hlen Hs. apply isNaN_eq in Hnan.
  induction Hs as [|x l Hs IH Hall]; [destruct Hin|].
  destruct Hin as [->|Hin].
  - destruct l as [|y l]; [cbn in Hlen; lia|].
    inversion Hall as [|? ? Hy _]; subst. unfold priceLe in Hy.
    rewrite Hnan, leb_NaN_l in Hy. discriminate.
  - rewrite Forall_forall in Hall. specialize (Hall _ Hin). unfold priceLe in Hall.
    rewrite Hnan, leb_NaN_r in Hall. discriminate.
Qed.

Lemma filterC_throws {A} (p : A -> Completion bool) l x e :
  In x l -> p x = Throw e -> exists e', filterC p l = Throw e'.
Proof.
  induction l as [|y l IH]; [intros []|].
  intros [->|Hin] Hx; cbn [filterC].
  - rewrite Hx. eexists. reflexivity.
  - destruct (p y) as [b|e1]; cbn [cbind]; [|eexists; reflexivity].
    destruct (IH Hin Hx) as (e' & ->). cbn [cbind]. eexists. reflexivity.
Qed.

Lemma filterC_error {A} (p : A -> Completion bool) l e :
  (forall x e', p x = Throw e' -> e' = TypeError) ->
  filterC p l = Throw e -> e = TypeError.
Proof.
  intros Hp. induction l as [|y l IH]; [discriminate|].
  cbn [filterC]. destruct (p y) as [b|e1] eqn:Hy; cbn [cbind].
  - destruct (filterC p l) as [l'|e2]; cbn [cbind]; [discriminate|].
    intros H. injection H as <-. apply IH. reflexivity.
  - intros H. injection H as <-. exact (Hp _ _ Hy).
Qed.

Lemma getProp_error v k e : getProp v k = Throw e -> e = TypeError.
Proof. destruct v; cbn; congruence. Qed.

Lemma isAvailable_error p e : isAvailable p = Throw e -> e = TypeError.
Proof.
  unfold isAvailable. destruct (getProp p "available") eqn:H; cbn [cbind]; [discriminate|].
  intros H0. injection H0 as <-. exact (getProp_error _ _ _ H).
Qed.

Lemma titleMatches_error name p e : titleMatches name p = Throw e -> e = TypeError.
Proof.
  unfold titleMatches. destruct (getProp p "title") as [t|e1] eqn:H; cbn [cbind].
  - destruct (toLowerCaseV (jsOr t (JStr ""))) eqn:Hl; cbn [cbind]; [discriminate|].
    intros H0. injection H0 as <-. destruct (jsOr t (JStr "")); cbn in Hl; congruence.
  - intros H0. injection H0 as <-. exact (getProp_error _ _ _ H).
Qed.

Lemma titleMatches_nonstring name p :
  isTrue (optProp p "available") = true ->
  truthy (optProp p "title") = true ->
  (forall s, optProp p "title" <> JStr s) ->
  isAvailable p = Normal true /\ titleMatches name p = Throw TypeError.
Proof.
  intros Ha Ht Hs. destruct p; try discriminate Ha.
  cbn [optProp] in *. unfold isAvailable, titleMatches. cbn [getProp cbind].
  rewrite Ha. split; [reflexivity|].
  unfold jsOr. rewrite Ht.
  destruct (lookupField "title" fields); try reflexivity.
  exfalso. exact (Hs _ eq_refl).
Qed.

Lemma normalizeProducts_nonstring st name items p :
  In p items ->
  isTrue (optProp p "available") = true ->
  truthy (optProp p "title") = true ->
  (forall s, optProp p "title" <> JStr s) ->
  normalizeProducts st name (JArr items) = Throw TypeError.
Proof.
  intros Hin Ha Ht Hs.
  destruct (titleMatches_nonstring name p Ha Ht Hs) as [Hav Htm].
  unfold normalizeProducts.
  destruct (filterC isAvailable items) as [available|e] eqn:Hf; cbn [cbind].
  - destruct (filterC_inv _ _ _ Hf) as [Hl _].
    assert (Hp : In p available).
    { rewrite Hl. apply filter_In. split; [exact Hin|]. rewrite Hav. reflexivity. }
    destruct (filterC_throws (titleMatches name) available p _ Hp Htm) as (e' & He').
    rewrite He'. cbn [cbind]. f_equal.
    apply (filterC_error (titleMatches name) available); [|exact He'].
    intros x e0. apply titleMatches_error.
  - f_equal. apply (filterC_error isAvailable items); [|exact Hf].
    intros x e0. apply isAvailable_error.
Qed.

(** Where a result of a card search comes from: a product of one of the
    configured stores that passed both filters. *)
Lemma results_origin name h out d r :
  searchSingleCard net name h = (Normal out, d) ->
  In r (results out) ->
  exists st p, In st stores /\ keeps name p /\ toCardResult st p = Normal r.
Proof.
  intros Hrun Hin.
  pose proof (validateCardName_run net name h) as Hv. cbv zeta in Hv.
  destruct (validOf (net (validateUrl name) (requestsTo (validateUrl name) h))) eqn:Hvalid.
  - destruct (fanOut_normal net name
                (h ++ validationTrace name
                        (net (validateUrl name) (requestsTo (validateUrl name) h))))
      as (per & df & Hf).
    rewrite (searchSingleCard_valid net name h _ _ _ Hv Hf) in Hrun.
    inversion Hrun; subst. cbn [results mergedOutcome] in Hin.
    apply (Permutation_in _ (sort_perm byPriceMin _)) in Hin.
    assert (Hper : per = map (fun st => storeList net st name
                     (h ++ validationTrace name
                        (net (validateUrl name) (requestsTo (validateUrl name) h))))
                     stores).
    { rewrite fanOut_independent in Hf. congruence. }
    rewrite Hper in Hin. clear Hper Hf.
    apply in_concat in Hin. destruct Hin as (l & Hl & Hr).
    apply in_map_iff in Hl. destruct Hl as (st & <- & Hst).
    destruct (storeList_run net st name
                (h ++ validationTrace name
                        (net (validateUrl name) (requestsTo (validateUrl name) h))))
      as (d' & Hs).
    destruct (searchStore_inv net st name _ _ _ r Hs Hr)
      as (? & ? & ? & p & _ & _ & _ & Hk & Hp).
    exists st, p. split; [exact Hst|]. split; [exact Hk|exact Hp].
  - rewrite (searchSingleCard_invalid net name h _ Hv) in Hrun.
    inversion Hrun; subst. destruct Hin.
Qed.

End OffShape.

(** X4. A result whose minimum price is not a number cannot be placed in
    ascending order.  Such a result comes from a product of a configured
    store that passed the filters and whose [price_min] does not parse as
    a number ("call us", say); and whenever a card search returns it among
    two or more results, the result list does not ascend by minimum
    price, however the results are arranged. *)
Theorem unpriced_result_unordered (net : Network) (name : string) (h : Trace)
    (out : CardSearchResult) (d : Trace) (r : CardResult) :
  searchSingleCard net name h = (Normal out, d) ->
  In r (results out) ->
  isNaN (priceMin r) = true ->
  (2 <= List.length (results out))%nat ->
  (exists st p,
      In st stores /\ keeps name p /\ toCardResult st p = Normal r
      /\ priceOf (optProp p "price_min") = Normal NaN)
  /\ ~ StronglySorted priceLe (results out)
  /\ forall l, Permutation l (results out) -> ~ StronglySorted priceLe l.
Proof.
  intros Hrun Hin Hnan Hlen. split; [|split].
  - destruct (results_origin net name h out d r Hrun Hin) as (st & p & Hst & Hk & Hp).
    exists st, p. split; [exact Hst|]. split; [exact Hk|]. split; [exact Hp|].
    destruct (toCardResult_prices st p r Hp) as [-> _].
    rewrite (isNaN_eq _ Hnan). reflexivity.
  - exact (unpriced_unsorted r _ Hnan Hin Hlen).
  - intros l Hp. apply (unpriced_unsorted r l Hnan).
    + apply (Permutation_in _ (Permutation_sym Hp) Hin).
    + rewrite (Permutation_length Hp). exact Hlen.
Qed.

Lemma unpriced_result_unordered_witness :
  exists out d,
    searchSingleCard unpricedNet "Lightning Bolt" [] = (Normal out, d)
    /\ map priceMin (results out) = [parseFloat "3.00"; NaN; parseFloat "1.00"]
    /\ ~ StronglySorted priceLe (results out).
Proof.
  eexists. eexists. split; [vm_compute; reflexivity|].
  split; [vm_compute; reflexivity|].
  refine (proj1 (proj2 (unpriced_result_unordered unpricedNet "Lightning Bolt" []
                          _ _ _ _ _ _ _))).
  - vm_compute. reflexivity.
  - cbn [results In]. right. left. reflexivity.
  - reflexivity.
  - cbn [results List.length]. lia.
Defined.

(** X5. One product whose title is neither a string nor falsy is enough to
    lose a store's whole list: when the fetched product array has an
    available product with such a title (a number, say), the title filter
    throws a TypeError inside the store's [try], the store contributes no
    result at all and a warning is written, whatever the other products
    are. *)
Theorem nonstring_title_empties_store (net : Network) (st : Store) (name : string)
    (h : Trace) (data : JsVal) (d : Trace) (items : list JsVal) (p : JsVal) :
  fetchWithRetry net (proxyUrl st name) 3 h = (Normal data, d) ->
  productsOf data = JArr items ->
  In p items ->
  isTrue (optProp p "available") = true ->
  truthy (optProp p "title") = true ->
  (forall s, optProp p "title" <> JStr s) ->
  searchStore net st name h
  = (Normal [], d ++ [EWarn (StoreWarning (store_name st) name TypeError)])
  /\ storeList net st name h = [].
Proof.
  intros Hf Hitems Hin Ha Ht Hs.
  assert (Hrun : searchStore net st name h
                 = (Normal [], d ++ [EWarn (StoreWarning (store_name st) name TypeError)])).
  { rewrite (searchStore_fetched net st name h data d Hf), Hitems.
    rewrite (normalizeProducts_nonstring st name items p Hin Ha Ht Hs). reflexivity. }
  split; [exact Hrun|]. unfold storeList. rewrite Hrun. reflexivity.
Qed.

Lemma nonstring_title_empties_store_witness :
  storeList numericTitleNet playersStore "Lightning Bolt" [] = []
  /\ keeps "Lightning Bolt" (product true "Lightning Bolt" "1.00" "1.00" "/products/bolt").
Proof.
  split; [|apply keepsB_iff; reflexivity].
  refine (proj2 (nonstring_title_empties_store numericTitleNet playersStore
                   "Lightning Bolt" []
                   (searchBody
                      [product true "Lightning Bolt" "1.00" "1.00" "/products/bolt";
                       JObj [("available", JBool true);
                             ("title", JNum (parseFloat "2010"))]])
                   [EFetch (proxyUrl playersStore "Lightning Bolt")]
                   [product true "Lightning Bolt" "1.00" "1.00" "/products/bolt";
                    JObj [("available", JBool true); ("title", JNum (parseFloat "2010"))]]
                   (JObj [("available", JBool true); ("title", JNum (parseFloat "2010"))])
                   _ _ _ _ _ _)).
  - vm_compute. reflexivity.
  - vm_compute. reflexivity.
  - right. left. reflexivity.
  - reflexivity.
  - vm_compute. reflexivity.
  - intros s. vm_compute. discriminate.
Defined.

Section SortFixed.

Lemma sortInsert_fixed x l :
  HdRel notCheaper x l -> sortInsert byPriceMin x l = x :: l.
Proof.
  intros Hhd. destruct l as [|y l]; [reflexivity|].
  inversion Hhd as [|? ? Hxy]; subst. cbn [sortInsert].
  pose proof (sub_sign (priceMin x) (priceMin y)) as Hsign.
  unfold byPriceMin. unfold notCheaper in Hxy.
  destruct (ltb zero (sub (priceMin x) (priceMin y))); [congruence|reflexivity].
Qed.

Lemma sort_fixed l : Sorted notCheaper l -> sort byPriceMin l = l.
Proof.
  induction 1 as [|x l Hs IH Hhd]; [reflexivity|].
  cbn [sort]. rewrite IH. apply sortInsert_fixed. exact Hhd.
Qed.

Lemma priceLe_notCheaper a b : priceLe a b -> notCheaper a b.
Proof.
  unfold priceLe, notCheaper.
  destruct (priceMin a) as [| | |x]; destruct (priceMin b) as [| | |y];
    simpl; try discriminate; try reflexivity.
  intros H. apply Z.leb_le in H. apply Z.ltb_ge. lia.
Qed.

Lemma Sorted_weaken {A} (R S : A -> A -> Prop) l :
  (forall a b, R a b -> S a b) -> Sorted R l -> Sorted S l.
Proof.
  intros HRS. induction 1 as [|x l Hs IH Hhd]; constructor; [exact IH|].
  destruct Hhd; constructor. apply HRS. assumption.
Qed.

End SortFixed.

(** X18. When the lists of the stores, one after the other in the order
    of [stores], already ascend by minimum price, the search returns them
    as they are: the results are the first store's products, then the
    second's, then the third's, each in the order the store sent them. *)
Theorem ascending_store_lists_kept (net : Network) (name : string) (h : Trace) :
  fst (validateCardName net name h) = Normal true ->
  Forall pricedMin
    (List.concat
       (map (fun st => storeList net st name (h ++ snd (validateCardName net name h)))
          stores)) ->
  Sorted priceLe
    (List.concat
       (map (fun st => storeList net st name (h ++ snd (validateCardName net name h)))
          stores)) ->
  exists out d,
    searchSingleCard net name h = (Normal out, d)
    /\ results out
       = List.concat
           (map (fun st => storeList net st name (h ++ snd (validateCardName net name h)))
              stores).
Proof.
  intros Hvalid _ Hsorted.
  pose proof (validateCardName_run net name h) as Hv. cbv zeta in Hv.
  rewrite Hv in Hvalid, Hsorted |- *. cbn [fst snd] in Hvalid, Hsorted |- *.
  injection Hvalid as Hvalid. rewrite Hvalid in Hv.
  set (dv := validationTrace name _) in *.
  pose proof (fanOut_independent net name (h ++ dv)) as Hfan.
  pose proof (searchSingleCard_valid net name h _ _ _ Hv Hfan) as Hrun.
  eexists. eexists. split; [exact Hrun|].
  cbn [results mergedOutcome].
  apply sort_fixed. exact (Sorted_weaken _ _ _ priceLe_notCheaper Hsorted).
Qed.

Lemma ascending_store_lists_kept_witness :
  exists out d,
    searchSingleCard ascendingNet "Lightning Bolt" [] = (Normal out, d)
    /\ map name (results out)
       = [JStr "Lightning Bolt A"; JStr "Lightning Bolt B"; JStr "Lightning Bolt C";
          JStr "Lightning Bolt D"].
Proof.
  destruct (ascending_store_lists_kept ascendingNet "Lightning Bolt" [])
    as (out & d & Hrun & Hres).
  - vm_compute. reflexivity.
  - vm_compute. repeat constructor.
  - vm_compute. repeat constructor.
  - exists out, d. split; [exact Hrun|]. rewrite Hres. vm_compute. reflexivity.
Defined.

(** ** Suggestions *)

Section SuggestionFacts.

Import Suggestions.

Variable net : Network.

Lemma fetchSuggestions_short query h :
  tooShort query = true ->
  fetchSuggestions net query h
  = (Normal tt, [USetSuggestions (JArr []); USetShowSuggestions false]).
Proof. intros H. unfold fetchSuggestions. rewrite H. reflexivity. Qed.

Lemma fetchSuggestions_run query h :
  tooShort query = false ->
  fetchSuggestions net query h
  = (Normal tt,
     USetLoadingSuggestions true :: UFetch (autocompleteUrl query)
       :: answerTrace (net (autocompleteUrl query)
                         (requestsTo (autocompleteUrl query)
                            (h ++ [USetLoadingSuggestions true])))
       ++ [USetLoadingSuggestions false]).
Proof.
  intros H. unfold fetchSuggestions. rewrite H.
  unfold Async.bind, Async.tryFinally, Async.tryCatch, setLoadingSuggestions,
    Async.emit, fetch, answerTrace, Async.liftC, Async.ret, consoleWarn,
    setSuggestions, setShowSuggestions.
  destruct (net (autocompleteUrl query) _) as [response|e]; [|reflexivity].
  destruct (ok response); [|reflexivity].
  destruct (json response) as [data|e]; [|reflexivity].
  destruct (getProp data "data") as [names|e]; reflexivity.
Qed.

Lemma answerTrace_quiet r :
  requests (answerTrace r) = []
  /\ Forall (fun e => forall b, e <> USetLoadingSuggestions b) (answerTrace r).
Proof.
  unfold answerTrace. destruct r as [response|e]; [|split; repeat constructor; discriminate].
  destruct (ok response); [|split; repeat constructor].
  destruct (json response) as [data|e]; [|split; repeat constructor; discriminate].
  destruct (getProp data "data"); split; repeat constructor; discriminate.
Qed.

Lemma answerTrace_cases r :
  (exists names, answered r names
     /\ answerTrace r = [USetSuggestions (jsOr names (JArr [])); USetShowSuggestions true])
  \/ ((forall names, ~ answered r names)
      /\ (answerTrace r = [] \/ exists e, answerTrace r = [UWarn e])).
Proof.
  unfold answerTrace, answered. destruct r as [response|e].
  - destruct (ok response) eqn:Hok.
    + destruct (json response) as [data|e] eqn:Hj.
      * destruct (getProp data "data") as [names|e] eqn:Hg.
        -- left. exists names. split; [|reflexivity].
           exists response, data. repeat split; assumption.
        -- right. split; [|right; eexists; reflexivity].
           intros names (r' & d' & Hr & _ & Hj' & Hg'). injection Hr as <-.
           rewrite Hj in Hj'. injection Hj' as <-. congruence.
      * right. split; [|right; eexists; reflexivity].
        intros names (r' & d' & Hr & _ & Hj' & _). injection Hr as <-. congruence.
    + right. split; [|left; reflexivity].
      intros names (r' & d' & Hr & Hok' & _). injection Hr as <-. congruence.
  - right. split; [|right; eexists; reflexivity].
    intros names (r' & d' & Hr & _). discriminate.
Qed.

Lemma after_app b t1 t2 : after b (t1 ++ t2) = after (after b t1) t2.
Proof. unfold after. apply fold_left_app. Qed.

End SuggestionFacts.

(** X19. [fetchSuggestions] never throws and makes at most one request.  A
    query that is blank or shorter than two characters makes none: the
    suggestions are emptied and the dropdown hidden.  Any other query
    makes exactly one request, to the autocomplete address of the query
    as typed; the loading flag is set first and cleared last, whatever
    the answer, and nowhere in between. *)
Theorem fetchSuggestions_one_request (net : Network) (query : string)
    (h : list Suggestions.UiEvent) (b : Suggestions.Box) :
  fst (Suggestions.fetchSuggestions net query h) = Normal tt
  /\ (Suggestions.tooShort query = true
      <-> allWhiteSpace query = true \/ (String.length query < 2)%nat)
  /\ Suggestions.requests (snd (Suggestions.fetchSuggestions net query h))
     = (if Suggestions.tooShort query then []
        else [Suggestions.autocompleteUrl query])
  /\ (Suggestions.tooShort query = true ->
      Suggestions.after b (snd (Suggestions.fetchSuggestions net query h))
      = {| Suggestions.suggestions := JArr [];
           Suggestions.showSuggestions := false;
           Suggestions.loadingSuggestions := Suggestions.loadingSuggestions b |})
  /\ (Suggestions.tooShort query = false ->
      exists body,
        snd (Suggestions.fetchSuggestions net query h)
        = Suggestions.USetLoadingSuggestions true
            :: Suggestions.UFetch (Suggestions.autocompleteUrl query)
            :: body ++ [Suggestions.USetLoadingSuggestions false]
        /\ Forall (fun e => forall l, e <> Suggestions.USetLoadingSuggestions l) body
        /\ Suggestions.loadingSuggestions
             (Suggestions.after b (snd (Suggestions.fetchSuggestions net query h)))
           = false).
Proof.
  split; [|split; [|split; [|split]]].
  - destruct (Suggestions.tooShort query) eqn:Hs.
    + rewrite (fetchSuggestions_short net query h Hs). reflexivity.
    + rewrite (fetchSuggestions_run net query h Hs). reflexivity.
  - unfold Suggestions.tooShort. rewrite orb_true_iff, String.eqb_eq, trim_blank_iff.
    rewrite Nat.ltb_lt. reflexivity.
  - destruct (Suggestions.tooShort query) eqn:Hs.
    + rewrite (fetchSuggestions_short net query h Hs). reflexivity.
    + rewrite (fetchSuggestions_run net query h Hs). cbn [snd Suggestions.requests].
      f_equal.
      change (?x :: ?l ++ ?y) with (x :: l ++ y).
      match goal with
      | |- Suggestions.requests (Suggestions.answerTrace ?r ++ _) = _ =>
          pose proof (proj1 (answerTrace_quiet r)) as Hq;
            induction (Suggestions.answerTrace r) as [|e t IH]; [reflexivity|];
            destruct e; cbn in Hq |- *; try discriminate; auto
      end.
  - intros Hs. rewrite (fetchSuggestions_short net query h Hs). reflexivity.
  - intros Hs. rewrite (fetchSuggestions_run net query h Hs). cbn [snd].
    eexists. split; [reflexivity|]. split; [apply answerTrace_quiet|].
    change (?x :: ?y :: ?l ++ ?z) with ((x :: y :: l) ++ z).
    rewrite after_app. reflexivity.
Qed.

(** X20. What a suggestion request leaves on the page.  When the answer is
    a response with [ok] set and a readable body, the suggestions become
    the body's [data], or the empty list when that is missing, and the
    dropdown is opened on their first ten entries.  In every other case
    (the request is rejected, the status is an error, the body cannot be
    read or is [null]) the suggestions and the dropdown stay as they were
    before the request: what was suggested for an earlier query stays on
    the page. *)
Theorem fetchSuggestions_outcome (net : Network) (query : string)
    (h : list Suggestions.UiEvent) (b : Suggestions.Box) :
  Suggestions.tooShort query = false ->
  (forall names,
      Suggestions.answered
        (net (Suggestions.autocompleteUrl query)
           (Suggestions.requestsTo (Suggestions.autocompleteUrl query) h)) names ->
      Suggestions.after b (snd (Suggestions.fetchSuggestions net query h))
      = {| Suggestions.suggestions := jsOr names (JArr []);
           Suggestions.showSuggestions := true;
           Suggestions.loadingSuggestions := false |}
      /\ forall items,
           names = JArr items ->
           Suggestions.dropdown
             (Suggestions.after b (snd (Suggestions.fetchSuggestions net query h)))
           = Some (firstn 10 items))
  /\ ((forall names,
          ~ Suggestions.answered
              (net (Suggestions.autocompleteUrl query)
                 (Suggestions.requestsTo (Suggestions.autocompleteUrl query) h)) names) ->
      Suggestions.after b (snd (Suggestions.fetchSuggestions net query h))
      = {| Suggestions.suggestions := Suggestions.suggestions b;
           Suggestions.showSuggestions := Suggestions.showSuggestions b;
           Suggestions.loadingSuggestions := false |}).
Proof.
  intros Hs. rewrite (fetchSuggestions_run net query h Hs). cbn [snd].
  assert (Hn : Suggestions.requestsTo (Suggestions.autocompleteUrl query)
                 (h ++ [Suggestions.USetLoadingSuggestions true])
               = Suggestions.requestsTo (Suggestions.autocompleteUrl query) h).
  { unfold Suggestions.requestsTo. rewrite filter_app, length_app. cbn. lia. }
  rewrite Hn.
  set (r := net (Suggestions.autocompleteUrl query)
              (Suggestions.requestsTo (Suggestions.autocompleteUrl query) h)).
  destruct (answerTrace_cases r) as [(names & Ha & Ht)|(Hno & Ht)].
  - split.
    + intros names' Ha'.
      assert (names' = names).
      { destruct Ha as (r1 & d1 & Hr1 & _ & Hj1 & Hg1).
        destruct Ha' as (r2 & d2 & Hr2 & _ & Hj2 & Hg2).
        rewrite Hr1 in Hr2. injection Hr2 as <-.
        rewrite Hj1 in Hj2. injection Hj2 as <-. congruence. }
      subst names'. rewrite Ht. split; [reflexivity|].
      intros items ->. reflexivity.
    + intros Hnone. exfalso. exact (Hnone names Ha).
  - split.
    + intros names Ha. exfalso. exact (Hno names Ha).
    + intros _. destruct Ht as [->|[e ->]]; reflexivity.
Qed.

Lemma fetchSuggestions_outcome_witness :
  Suggestions.dropdown
    (Suggestions.after
       {| Suggestions.suggestions := JArr [];
          Suggestions.showSuggestions := false;
          Suggestions.loadingSuggestions := false |}
       (snd (Suggestions.fetchSuggestions
               (fun _ _ => okResponse (JObj [("data", JArr [JStr "Shock"; JStr "Shocker"])]))
               "sho" [])))
  = Some [JStr "Shock"; JStr "Shocker"].
Proof.
  refine (proj2 (proj1 (fetchSuggestions_outcome
            (fun _ _ => okResponse (JObj [("data", JArr [JStr "Shock"; JStr "Shocker"])]))
            "sho" [] _ _) (JArr [JStr "Shock"; JStr "Shocker"]) _)
            [JStr "Shock"; JStr "Shocker"] eq_refl).
  - vm_compute. reflexivity.
  - eexists. eexists. repeat split; reflexivity.
Defined.

(** ** Prices on the page *)

Section PriceFacts.

Local Open Scope Z_scope.

(** Rounding [p / q] to 53 bits moves it by at most half of the last
    place kept. *)
Lemma roundUnits_error p q :
  0 <= p -> 0 < q ->
  0 <= roundUnits p q
  /\ 2 * Z.abs (roundUnits p q * q - p) <= 2 ^ Z.max 0 (bitLength (p / q) - 53) * q.
Proof.
  intros Hp Hq. unfold roundUnits.
  set (n := p / q). set (r := p mod q).
  set (sh := Z.max 0 (bitLength n - 53)).
  assert (Hsh : 0 <= sh) by (unfold sh; lia).
  assert (HP : 0 < 2 ^ sh) by (apply Z.pow_pos_nonneg; lia).
  set (P := 2 ^ sh) in *.
  cbv zeta. rewrite Z.shiftr_div_pow2, Z.shiftl_mul_pow2 by exact Hsh. fold P.
  assert (Hn : 0 <= n) by (apply Z.div_pos; lia).
  assert (Hr : 0 <= r < q) by (apply Z.mod_pos_bound; exact Hq).
  assert (Hpq : p = q * n + r) by (apply Z.div_mod; lia).
  assert (Hm : 0 <= n / P) by (apply Z.div_pos; lia).
  assert (Hl : 0 <= n mod P < P) by (apply Z.mod_pos_bound; exact HP).
  assert (HnP : n = P * (n / P) + n mod P) by (apply Z.div_mod; lia).
  set (m := n / P) in *. set (low := n mod P) in *.
  assert (Ht : 0 <= low * q + r < P * q) by nia.
  destruct (Z.ltb_spec (P * q) (2 * (low * q + r))) as [H1|H1].
  - split; [nia|]. rewrite Z.abs_eq by nia. nia.
  - destruct (Z.eqb_spec (2 * (low * q + r)) (P * q)) as [H2|H2].
    + destruct (Z.even m).
      * split; [nia|]. rewrite Z.abs_neq by nia. nia.
      * split; [nia|]. rewrite Z.abs_eq by nia. nia.
    + split; [nia|]. rewrite Z.abs_neq by nia. nia.
Qed.

(** The double nearest to an amount of cents, and what [toFixed(2)]
    reads in it: the cents. *)
Lemma cents_double k :
  0 <= k < 10 ^ 13 ->
  exists R,
    ofDecimal false k (-2) = Fin R
    /\ 0 <= R < 10 ^ 21 * 2 ^ unitExp
    /\ (2 * R * 10 ^ 2 + 2 ^ unitExp) / (2 * 2 ^ unitExp) = k.
Proof.
  intros Hk. unfold ofDecimal. cbn [Z.leb Z.compare Z.opp]. unfold roundRatio.
  change (- -2) with 2. change (10 ^ 2) with 100.
  set (T := 2 ^ 1065).
  assert (HT : 0 < T) by (apply Z.pow_pos_nonneg; lia).
  assert (HU : 2 ^ unitExp = 512 * T) by (vm_compute; reflexivity).
  rewrite HU.
  set (p := k * (512 * T)).
  assert (Hp : 0 <= p) by (unfold p; nia).
  destruct (roundUnits_error p 100 Hp ltac:(lia)) as [HR He].
  set (R := roundUnits p 100) in *.
  assert (Hsh : 2 ^ Z.max 0 (bitLength (p / 100) - 53) <= T).
  { unfold T. apply Z.pow_le_mono_r; [lia|].
    unfold bitLength. destruct (Z.leb_spec (p / 100) 0); [lia|].
    assert (Hlog : Z.log2 (p / 100) < 1118).
    { apply Z.log2_lt_pow2; [lia|].
      apply Z.div_lt_upper_bound; [lia|].
      replace (2 ^ 1118) with (2 ^ 53 * T) by (vm_compute; reflexivity).
      unfold p. change (2 ^ 53) with 9007199254740992.
      change (10 ^ 13) with 10000000000000 in Hk. nia. }
    lia. }
  assert (Herr : 2 * Z.abs (R * 100 - p) <= 100 * T) by nia.
  change (10 ^ 13) with 10000000000000 in Hk.
  assert (HRb : R * 100 <= p + 50 * T) by lia.
  exists R. split; [|split].
  - unfold ofUnits.
    destruct (Z.leb_spec overflowBound R) as [Ho|Ho]; [|reflexivity].
    exfalso. unfold overflowBound in Ho.
    replace (2 ^ (1024 + unitExp)) with (2 ^ 1033 * T) in Ho by (vm_compute; reflexivity).
    assert (2 ^ 1033 > 10 ^ 30) by (vm_compute; reflexivity).
    change (10 ^ 30) with 1000000000000000000000000000000 in *.
    unfold p in *. nia.
  - split; [exact HR|]. change (10 ^ 21) with 1000000000000000000000.
    unfold p in *. nia.
  - symmetry. apply (Z.div_unique _ _ k (2 * (R * 100 - p) + 512 * T)).
    + left. lia.
    + unfold p. ring.
Qed.

(** *** Decimal digits *)

Lemma ofZ_uint n : ofZ n = NilEmpty.string_of_uint (N.to_uint (Z.to_N n)).
Proof.
  unfold ofZ, NilZero.string_of_uint.
  destruct (Z.to_N n) as [|p]; [reflexivity|]. cbn [N.to_uint].
  pose proof (DecimalPos.Unsigned.to_uint_nonnil p) as Hn.
  destruct (Pos.to_uint p); [contradiction|reflexivity..].
Qed.

Lemma digitsValue_acc d : forall acc : positive,
  digitsValue (Zpos acc) (NilEmpty.string_of_uint d) = Zpos (Pos.of_uint_acc d acc).
Proof.
  induction d; intros acc;
    cbn [NilEmpty.string_of_uint digitsValue Pos.of_uint_acc]; [reflexivity|..];
    rewrite <- IHd; f_equal; vm_compute (code _); lia.
Qed.

Lemma digitsValue_uint d :
  digitsValue 0 (NilEmpty.string_of_uint d) = Z.of_N (N.of_uint d).
Proof.
  induction d; cbn [NilEmpty.string_of_uint digitsValue]; [reflexivity|exact IHd|..];
    vm_compute (10 * 0 + _); apply digitsValue_acc.
Qed.

Lemma digitsValue_ofZ n : 0 <= n -> digitsValue 0 (ofZ n) = n.
Proof.
  intros Hn. rewrite ofZ_uint, digitsValue_uint, DecimalN.Unsigned.of_to.
  apply Z2N.id. exact Hn.
Qed.

Lemma allDigits_uint d : allDigits (NilEmpty.string_of_uint d) = true.
Proof. induction d; cbn [NilEmpty.string_of_uint allDigits]; [reflexivity|..]; exact IHd. Qed.

Lemma allDigits_ofZ n : allDigits (ofZ n) = true.
Proof. rewrite ofZ_uint. apply allDigits_uint. Qed.

Lemma digit_uint c d :
  isDigit c = true ->
  exists d', NilEmpty.string_of_uint d' = String c (NilEmpty.string_of_uint d).
Proof.
  intros H. destruct c as [[] [] [] [] [] [] [] []]; vm_compute in H; try discriminate H;
    first [ exists (Decimal.D0 d); reflexivity | exists (Decimal.D1 d); reflexivity
          | exists (Decimal.D2 d); reflexivity | exists (Decimal.D3 d); reflexivity
          | exists (Decimal.D4 d); reflexivity | exists (Decimal.D5 d); reflexivity
          | exists (Decimal.D6 d); reflexivity | exists (Decimal.D7 d); reflexivity
          | exists (Decimal.D8 d); reflexivity | exists (Decimal.D9 d); reflexivity ].
Qed.

Lemma allDigits_uint_inv s :
  allDigits s = true -> exists d, NilEmpty.string_of_uint d = s.
Proof.
  induction s as [|c s IH]; [exists Decimal.Nil; reflexivity|].
  cbn [allDigits]. intros H. apply andb_true_iff in H. destruct H as [Hc Hs].
  destruct (IH Hs) as (d & <-). apply digit_uint. exact Hc.
Qed.

(** A digit string that does not start with a zero is the way its value
    is written. *)
Lemma ofZ_digitsValue c s :
  allDigits (String c s) = true -> c <> "0"%char ->
  ofZ (digitsValue 0 (String c s)) = String c s.
Proof.
  intros Hd Hc. destruct (allDigits_uint_inv _ Hd) as (d & Hs).
  rewrite <- Hs, digitsValue_uint, ofZ_uint, N2Z.id.
  rewrite DecimalN.Unsigned.to_of. f_equal.
  destruct d; cbn in Hs; try discriminate Hs; try reflexivity.
  injection Hs as Hc' _. congruence.
Qed.

Lemma digitsValue_app s1 : forall acc s2,
  digitsValue acc (s1 ++ s2) = digitsValue (digitsValue acc s1) s2.
Proof.
  induction s1 as [|c s1 IH]; intros acc s2; [reflexivity|].
  cbn [append digitsValue]. apply IH.
Qed.

Lemma allDigits_app s1 s2 :
  allDigits (s1 ++ s2) = allDigits s1 && allDigits s2.
Proof.
  induction s1 as [|c s1 IH]; [reflexivity|].
  cbn [append allDigits]. rewrite IH. apply andb_assoc.
Qed.

(** The way a positive number is written starts with a digit that is not
    zero. *)
Lemma ofZ_head n :
  0 < n -> exists c s, ofZ n = String c s /\ c <> "0"%char /\ isDigit c = true.
Proof.
  intros Hn. rewrite ofZ_uint.
  destruct (Z.to_N n) as [|p] eqn:Hp; [lia|].
  cbn [N.to_uint] in *.
  pose proof (DecimalPos.Unsigned.to_uint_nonzero p) as Hz.
  pose proof (DecimalN.Unsigned.to_of (Pos.to_uint p)) as Hnorm.
  change (N.of_uint (Pos.to_uint p)) with (Pos.of_uint (Pos.to_uint p)) in Hnorm.
  rewrite DecimalPos.Unsigned.of_to in Hnorm. cbn [N.to_uint] in Hnorm.
  destruct (Pos.to_uint p) as [|u|u|u|u|u|u|u|u|u|u] eqn:Hu;
    try (eexists; eexists; split; [reflexivity|split; [discriminate|reflexivity]]).
  - exfalso. symmetry in Hnorm. revert Hnorm. apply DecimalFacts.unorm_nonnil.
  - exfalso. rewrite DecimalFacts.unorm_D0 in Hnorm.
    unfold Decimal.unorm in Hnorm.
    destruct (Decimal.nzhead u) eqn:Hnz; try discriminate Hnorm.
    + injection Hnorm as Hnil. apply Hz. rewrite Hnil. reflexivity.
    + revert Hnz. apply DecimalFacts.nzhead_nonzero.
Qed.

Lemma digitChar_digit d :
  0 <= d <= 9 ->
  isDigit (digitChar d) = true /\ code (digitChar d) - 48 = d.
Proof.
  intros Hd.
  assert (H : d = 0 \/ d = 1 \/ d = 2 \/ d = 3 \/ d = 4 \/ d = 5 \/ d = 6 \/ d = 7
              \/ d = 8 \/ d = 9) by lia.
  repeat (destruct H as [->|H]); try subst d; split; reflexivity.
Qed.

Lemma length_append s1 s2 :
  String.length (s1 ++ s2) = (String.length s1 + String.length s2)%nat.
Proof. induction s1 as [|c s1 IH]; [reflexivity|]. cbn. rewrite IH. reflexivity. Qed.

Lemma take_append s1 s2 : take (String.length s1) (s1 ++ s2) = s1.
Proof. induction s1 as [|c s1 IH]; [destruct s2; reflexivity|]. cbn. rewrite IH. reflexivity. Qed.

Lemma drop_append s1 s2 : drop (String.length s1) (s1 ++ s2) = s2.
Proof. induction s1 as [|c s1 IH]; [reflexivity|]. cbn. exact IH. Qed.

(** Two more digits behind the way a positive number is written. *)
Lemma ofZ_two_more a c1 c0 :
  0 < a -> 0 <= c1 <= 9 -> 0 <= c0 <= 9 ->
  ofZ (100 * a + 10 * c1 + c0)
  = (ofZ a ++ String (digitChar c1) (String (digitChar c0) ""))%string.
Proof.
  intros Ha H1 H0.
  destruct (ofZ_head a Ha) as (c & s & Hs & Hc & _).
  destruct (digitChar_digit c1 H1) as [D1 V1].
  destruct (digitChar_digit c0 H0) as [D0 V0].
  pose proof (allDigits_ofZ a) as Hd. pose proof (digitsValue_ofZ a ltac:(lia)) as Hv.
  rewrite Hs in *. cbn [append].
  rewrite <- (ofZ_digitsValue c (s ++ String (digitChar c1) (String (digitChar c0) ""))%string).
  - f_equal. change (String c (s ++ ?t)%string) with (String c s ++ t)%string.
    rewrite digitsValue_app, Hv. cbn [digitsValue]. lia.
  - change (String c (s ++ ?t)%string) with (String c s ++ t)%string.
    rewrite allDigits_app, Hd. cbn [allDigits]. rewrite D1, D0. reflexivity.
  - exact Hc.
Qed.

Lemma cents_split k :
  0 <= k ->
  k = 100 * (k / 100) + 10 * (k / 10 mod 10) + k mod 10
  /\ 0 <= k / 10 mod 10 <= 9 /\ 0 <= k mod 10 <= 9 /\ 0 <= k / 100.
Proof.
  intros Hk.
  pose proof (Z.div_mod k 10 ltac:(lia)) as H1.
  pose proof (Z.div_mod (k / 10) 10 ltac:(lia)) as H2.
  pose proof (Z.mod_pos_bound k 10 ltac:(lia)) as H3.
  pose proof (Z.mod_pos_bound (k / 10) 10 ltac:(lia)) as H4.
  assert (H5 : k / 10 / 10 = k / 100) by (rewrite Z.div_div by lia; reflexivity).
  rewrite H5 in H2.
  assert (0 <= k / 100) by (apply Z.div_pos; lia).
  lia.
Qed.

(** [toFixed(2)] writes an amount of cents as [priceText] does. *)
Lemma placePoint_cents k : 0 <= k -> placePoint k 2 = priceText k.
Proof.
  intros Hk. destruct (Z.lt_ge_cases k 100) as [Hsmall|Hbig].
  - assert (Hall : forallb (fun n => String.eqb (placePoint (Z.of_nat n) 2)
                                        (priceText (Z.of_nat n)))
                     (seq 0 100) = true) by (vm_compute; reflexivity).
    rewrite forallb_forall in Hall.
    specialize (Hall (Z.to_nat k)). rewrite Z2Nat.id in Hall by exact Hk.
    apply String.eqb_eq, Hall, in_seq. lia.
  - destruct (cents_split k Hk) as (Hsplit & H1 & H0 & _).
    assert (Ha : 0 < k / 100) by (apply Z.div_str_pos; lia).
    set (two := String (digitChar (k / 10 mod 10)) (String (digitChar (k mod 10)) "")).
    assert (Ek : ofZ k = (ofZ (k / 100) ++ two)%string).
    { rewrite Hsplit at 1. apply ofZ_two_more; assumption. }
    unfold placePoint, priceText. fold two.
    destruct (Z.eqb_spec k 0) as [|_]; [lia|].
    rewrite Ek. cbv zeta.
    rewrite !length_append. change (String.length two) with 2%nat.
    destruct (Nat.leb_spec (String.length (ofZ (k / 100)) + 2) 2) as [Hle|_].
    { destruct (ofZ_head _ Ha) as (c & s & Hs & _). rewrite Hs in Hle. cbn in Hle. lia. }
    cbn [Nat.eqb]. rewrite ?length_append. change (String.length two) with 2%nat.
    replace (String.length (ofZ (k / 100)) + 2 - 2)%nat
      with (String.length (ofZ (k / 100))) by lia.
    rewrite take_append, drop_append. reflexivity.
Qed.

Lemma digit_plain c :
  isDigit c = true ->
  isWhiteSpace c = false /\ Ascii.eqb c "-" = false /\ Ascii.eqb c "+" = false
  /\ Ascii.eqb "I" c = false.
Proof.
  intros H. destruct c as [[] [] [] [] [] [] [] []]; vm_compute in H; try discriminate H;
    repeat split; reflexivity.
Qed.

Lemma spanDigits_app d r :
  allDigits d = true ->
  match r with String c _ => isDigit c = false | EmptyString => True end ->
  spanDigits (d ++ r) = (d, r).
Proof.
  intros Hd Hr. induction d as [|c d IH]; cbn [append].
  - destruct r as [|c r]; [reflexivity|]. cbn [spanDigits]. rewrite Hr. reflexivity.
  - cbn [allDigits] in Hd. apply andb_true_iff in Hd. destruct Hd as [Hc Hd].
    cbn [spanDigits]. rewrite Hc, (IH Hd). reflexivity.
Qed.

Lemma spanDigits_all d : allDigits d = true -> spanDigits d = (d, EmptyString).
Proof.
  intros Hd. induction d as [|c d IH]; [reflexivity|].
  cbn [allDigits] in Hd. apply andb_true_iff in Hd. destruct Hd as [Hc Hd].
  cbn [spanDigits]. rewrite Hc, (IH Hd). reflexivity.
Qed.

Lemma ofZ_nonempty n :
  0 <= n -> exists c s, ofZ n = String c s /\ isDigit c = true.
Proof.
  intros Hn. destruct (Z.eq_dec n 0) as [->|Hne].
  - exists "0"%char, EmptyString. split; reflexivity.
  - destruct (ofZ_head n ltac:(lia)) as (c & s & Hs & _ & Hc).
    exists c, s. split; assumption.
Qed.

(** Reading a price written with two decimals: the double nearest to
    that many hundredths. *)
Lemma parseFloat_priceText k :
  0 <= k -> parseFloat (priceText k) = ofDecimal false k (-2).
Proof.
  intros Hk. destruct (cents_split k Hk) as (Hsplit & H1 & H0 & Ha).
  destruct (digitChar_digit _ H1) as [D1 V1].
  destruct (digitChar_digit _ H0) as [D0 V0].
  unfold priceText.
  set (two := String (digitChar (k / 10 mod 10)) (String (digitChar (k mod 10)) "")).
  assert (Htwo : allDigits two = true) by (cbn; rewrite D1, D0; reflexivity).
  pose proof (allDigits_ofZ (k / 100)) as Hd.
  pose proof (digitsValue_ofZ (k / 100) Ha) as Hv.
  destruct (ofZ_nonempty (k / 100) Ha) as (c & s & Hs & Hc).
  destruct (digit_plain c Hc) as (Hw & Hminus & Hplus & HI).
  assert (Hspan : spanDigits (ofZ (k / 100) ++ String "." two)
                  = (ofZ (k / 100), String "."%char two)).
  { apply spanDigits_app; [exact Hd|reflexivity]. }
  change (ofZ (k / 100) ++ "." ++ two)%string
    with (ofZ (k / 100) ++ String "." two)%string.
  unfold parseFloat.
  assert (Htrim : trimStart (ofZ (k / 100) ++ String "." two)
                  = String c (s ++ String "." two)).
  { rewrite Hs. cbn [append trimStart]. rewrite Hw. reflexivity. }
  rewrite Htrim, Hminus, Hplus.
  replace (String c (s ++ String "." two)) with (ofZ (k / 100) ++ String "." two)%string
    by (rewrite Hs; reflexivity).
  unfold parseUnsigned.
  assert (Hinf : startsWith "Infinity" (ofZ (k / 100) ++ String "." two) = false).
  { rewrite Hs. cbn [append startsWith]. rewrite HI. reflexivity. }
  rewrite Hinf, Hspan. cbn [Ascii.eqb Bool.eqb]. rewrite (spanDigits_all two Htwo).
  assert (Hval : digitsValue 0 (ofZ (k / 100) ++ two) = k).
  { rewrite digitsValue_app, Hv. unfold two. cbn [digitsValue]. lia. }
  rewrite Hs in *. cbn [append] in *. rewrite Hval. reflexivity.
Qed.

(** The double of a price and the cents [toFixed(2)] reads in it. *)
Lemma price_double k :
  0 <= k < 10 ^ 13 ->
  exists R,
    parseFloat (priceText k) = Fin R
    /\ 0 <= R < 10 ^ 21 * 2 ^ unitExp
    /\ (2 * R * 10 ^ 2 + 2 ^ unitExp) / (2 * 2 ^ unitExp) = k.
Proof.
  intros Hk. rewrite parseFloat_priceText by lia. apply cents_double. exact Hk.
Qed.

Lemma toFixed_price k :
  0 <= k < 10 ^ 13 -> toFixed (parseFloat (priceText k)) 2 = priceText k.
Proof.
  intros Hk. destruct (price_double k Hk) as (R & -> & HR & Hn).
  unfold toFixed. rewrite Z.abs_eq by lia.
  destruct (Z.leb_spec (10 ^ 21 * 2 ^ unitExp) R) as [|_]; [lia|].
  change (Z.of_nat 2) with 2. cbv zeta. rewrite Hn.
  destruct (Z.ltb_spec R 0) as [|_]; [lia|].
  cbn [append]. apply placePoint_cents. lia.
Qed.

Lemma priceText_nonempty k : priceText k <> EmptyString.
Proof.
  unfold priceText. destruct (ofZ (k / 100)); discriminate.
Qed.

Lemma price_eqb k k' :
  0 <= k < 10 ^ 13 -> 0 <= k' < 10 ^ 13 ->
  eqb (parseFloat (priceText k)) (parseFloat (priceText k')) = (k =? k').
Proof.
  intros Hk Hk'.
  destruct (price_double k Hk) as (R & HR & _ & Hn).
  destruct (price_double k' Hk') as (R' & HR' & _ & Hn').
  rewrite HR, HR'. cbn [eqb].
  destruct (Z.eqb_spec R R') as [->|Hne].
  - rewrite Hn in Hn'. subst. symmetry. apply Z.eqb_refl.
  - destruct (Z.eqb_spec k k') as [->|]; [|reflexivity].
    exfalso. apply Hne.
    assert (E : Fin R = Fin R') by (rewrite <- HR, <- HR'; reflexivity).
    injection E as E. exact E.
Qed.

End PriceFacts.

(** X21. A price the store writes with two decimals is shown as the store
    wrote it: for every amount below a hundred billion, reading the text
    with [parseFloat] and writing the number with [toFixed(2)] gives the
    text back, although the number in between is a binary fraction;
    and a price range with that text at both ends is shown as the single
    price. *)
Theorem price_round_trip (cents : Z) :
  0 <= cents < 10 ^ 13 ->
  toFixed (parseFloat (priceText cents)) 2 = priceText cents
  /\ formatPriceRange (parseFloat (priceText cents)) (parseFloat (priceText cents))
     = ("$" ++ priceText cents)%string.
Proof.
  intros Hk. split; [apply toFixed_price; exact Hk|].
  unfold formatPriceRange. rewrite (price_eqb cents cents Hk Hk), Z.eqb_refl.
  rewrite (toFixed_price cents Hk). reflexivity.
Qed.

Lemma price_round_trip_witness :
  toFixed (parseFloat "1234.56") 2 = "1234.56"%string.
Proof.
  exact (proj1 (price_round_trip 123456 ltac:(vm_compute; split; [discriminate|reflexivity]))).
Defined.

(** X22. From the store's response to the page: a product whose
    [price_min] and [price_max] are written with two decimals is shown
    with exactly these texts, as one price when the two amounts are
    equal and as a range otherwise. *)
Theorem product_price_shown (st : Store) (p : JsVal) (r : CardResult)
    (lowest highest : Z) :
  toCardResult st p = Normal r ->
  optProp p "price_min" = JStr (priceText lowest) ->
  optProp p "price_max" = JStr (priceText highest) ->
  0 <= lowest < 10 ^ 13 ->
  0 <= highest < 10 ^ 13 ->
  formatPriceRange (priceMin r) (priceMax r)
  = (if (lowest =? highest)%Z then "$" ++ priceText lowest
     else "$" ++ priceText lowest ++ " - $" ++ priceText highest)%string.
Proof.
  intros Hr Hmin Hmax Hl Hh.
  destruct (toCardResult_prices st p r Hr) as [Pmin Pmax].
  rewrite Hmin in Pmin. rewrite Hmax in Pmax.
  apply priceOf_string in Pmin; [|apply priceText_nonempty].
  apply priceOf_string in Pmax; [|apply priceText_nonempty].
  unfold formatPriceRange. rewrite Pmin, Pmax, (price_eqb _ _ Hl Hh).
  rewrite (toFixed_price _ Hl), (toFixed_price _ Hh). reflexivity.
Qed.

Lemma product_price_shown_witness :
  exists r,
    toCardResult playersStore (product true "Shock" "0.25" "1.50" "/products/shock")
    = Normal r
    /\ formatPriceRange (priceMin r) (priceMax r) = "$0.25 - $1.50"%string.
Proof.
  destruct (toCardResult playersStore (product true "Shock" "0.25" "1.50" "/products/shock"))
    as [r|e] eqn:Hr; [|vm_compute in Hr; discriminate Hr].
  exists r. split; [reflexivity|].
  exact (product_price_shown playersStore _ r 25 150 Hr eq_refl eq_refl
           ltac:(vm_compute; split; [discriminate|reflexivity])
           ltac:(vm_compute; split; [discriminate|reflexivity])).
Defined.

(** X6. In list mode the search runs on the lines the list editor and the
    submit button count: the card names searched are the non-blank lines
    of the card list, each trimmed, in the order of the text and as often
    as they occur; and the outcomes published last name these cards, in
    that order. *)
Theorem searchCards_list_mode (net : Network) (term cards : string) (h : Trace) :
  cardsToSearch {| searchMode := list_mode; searchTerm := term; cardList := cards |}
  = map trim (CardListEditor.currentCards cards)
  /\ (CardListEditor.currentCards cards <> [] ->
      map cardName
        (last (published
                 (snd (searchCards net
                         {| searchMode := list_mode; searchTerm := term;
                            cardList := cards |} h))) [])
      = map trim (CardListEditor.currentCards cards)).
Proof.
  assert (Hcards : cardsToSearch
                     {| searchMode := list_mode; searchTerm := term; cardList := cards |}
                   = map trim (CardListEditor.currentCards cards)).
  { rewrite <- listCards_currentCards. reflexivity. }
  split; [exact Hcards|].
  intros Hne.
  assert (Hne' : cardsToSearch
                   {| searchMode := list_mode; searchTerm := term; cardList := cards |}
                 <> []).
  { rewrite Hcards. intros H0. apply map_eq_nil in H0. contradiction. }
  destruct (searchCards_published net _ h Hne') as (rs & _ & Hnames & ->).
  rewrite Hnames. exact Hcards.
Qed.

(** ** The debounced input *)

Section DebounceFacts.

Import Debounce.

Context {A : Type}.

Local Open Scope Z_scope.

Lemma debounced_arms delay g (x : A) (s : option nat * Host A) :
  0 <= g < delay ->
  (waiting (snd s) = [] \/ exists id x0,
      fst s = Some id
      /\ waiting (snd s) = [{| timerId := id; due := now (snd s) + delay; payload := x0 |}]) ->
  let s' := step delay (step delay s (Elapse g)) (Call x) in
  (exists id,
      fst s' = Some id
      /\ waiting (snd s')
         = [{| timerId := id; due := now (snd s') + delay; payload := x |}])
  /\ now (snd s') = now (snd s) + g
  /\ calls (snd s') = calls (snd s).
Proof.
  intros Hg Hs. destruct s as [tid h]. cbn [fst snd] in Hs.
  assert (Hmax : Z.max 0 delay = delay) by lia.
  assert (Hw : waiting (clearTimeout tid (elapse g h)) = []
               /\ now (clearTimeout tid (elapse g h)) = now h + g
               /\ calls (clearTimeout tid (elapse g h)) = calls h).
  { destruct Hs as [Hq|(id & x0 & -> & Hq)].
    - assert (He : waiting (elapse g h) = [] /\ calls (elapse g h) = calls h).
      { unfold elapse. cbn [waiting calls]. rewrite Hq. cbn. rewrite app_nil_r.
        split; reflexivity. }
      destruct He as [He1 He2].
      destruct tid as [i|]; cbn [clearTimeout waiting now calls].
      + rewrite He1. repeat split; try reflexivity; exact He2.
      + repeat split; try reflexivity; assumption.
    - unfold clearTimeout, elapse. cbn [waiting now calls]. rewrite Hq.
      cbn [filter due map].
      destruct (Z.leb_spec (now h + delay) (now h + g)) as [|_]; [lia|].
      cbn [negb filter timerId map]. rewrite Nat.eqb_refl. cbn [negb].
      rewrite app_nil_r. repeat split. }
  destruct Hw as (W & N & C).
  cbn [step fst snd]. unfold debounced, setTimeout.
  cbn [fst snd waiting now calls]. rewrite W, N, C, Hmax. cbn [enqueue].
  split; [|split; reflexivity].
  eexists. split; reflexivity.
Qed.

Lemma burst_app (l1 l2 : list (Z * A)) : burst (l1 ++ l2) = burst l1 ++ burst l2.
Proof. unfold burst. rewrite map_app, concat_app. reflexivity. Qed.

Lemma burstRecreated_app (l1 l2 : list (Z * A)) :
  burstRecreated (l1 ++ l2) = burstRecreated l1 ++ burstRecreated l2.
Proof. unfold burstRecreated. rewrite map_app, concat_app. reflexivity. Qed.

Lemma run_app delay (l1 l2 : list (Step A)) s :
  run delay (l1 ++ l2) s = run delay l2 (run delay l1 s).
Proof. unfold run. apply fold_left_app. Qed.

Lemma elapsed_app (l1 l2 : list (Z * A)) : elapsed (l1 ++ l2) = elapsed l1 + elapsed l2.
Proof.
  unfold elapsed. induction l1 as [|[g x] l1 IH]; [reflexivity|].
  cbn [app map fold_right fst]. rewrite IH. lia.
Qed.

(** Calls less than [delay] apart: one timer at most is waiting, and
    nothing runs. *)
Lemma burst_run delay (l : list (Z * A)) (s : option nat * Host A) :
  Forall (fun gx => 0 <= fst gx < delay) l ->
  waiting (snd s) = [] ->
  (waiting (snd (run delay (burst l) s)) = [] \/ exists id x0,
      fst (run delay (burst l) s) = Some id
      /\ waiting (snd (run delay (burst l) s))
         = [{| timerId := id; due := now (snd (run delay (burst l) s)) + delay;
               payload := x0 |}])
  /\ now (snd (run delay (burst l) s)) = now (snd s) + elapsed l
  /\ calls (snd (run delay (burst l) s)) = calls (snd s).
Proof.
  intros Hl Hs. induction l as [|[g x] l IH] using rev_ind.
  - cbn. split; [left; exact Hs|]. split; [lia|reflexivity].
  - apply Forall_app in Hl. destruct Hl as [Hl Hg].
    inversion Hg as [|? ? Hg' _]; subst. cbn [fst] in Hg'.
    destruct (IH Hl) as (Hw & Hn & Hc).
    rewrite burst_app, run_app. cbn [burst map List.concat app fst snd].
    change (run delay [Elapse g; Call x] ?s0)
      with (step delay (step delay s0 (Elapse g)) (Call x)).
    destruct (debounced_arms delay g x (run delay (burst l) s) Hg' Hw)
      as ((id & Hid & Hwait) & Hnow & Hcalls).
    split; [right; exists id, x; split; assumption|].
    assert (He : elapsed [(g, x)] = g) by (unfold elapsed; cbn; lia).
    rewrite Hnow, Hcalls, Hn, Hc, elapsed_app, He.
    split; [lia|reflexivity].
Qed.

Lemma enqueue_last (t : Timer A) q :
  Forall (fun t' => due t' <= due t) q -> enqueue t q = q ++ [t].
Proof.
  induction 1 as [|t' q Ht' _ IH]; [reflexivity|].
  cbn [enqueue app]. destruct (Z.leb_spec (due t') (due t)); [|lia].
  rewrite IH. reflexivity.
Qed.

(** Splitting a queue in due order at a time gives its two ends. *)
Lemma queue_split t (q : list (Timer A)) :
  StronglySorted (fun a b => due a <= due b) q ->
  filter (fun x => due x <=? t) q ++ filter (fun x => negb (due x <=? t)) q = q.
Proof.
  induction 1 as [|a q Hs IH Ha]; [reflexivity|].
  cbn [filter]. destruct (Z.leb_spec (due a) t) as [Hle|Hgt]; cbn [negb app].
  - rewrite IH. reflexivity.
  - assert (Hnone : filter (fun x => due x <=? t) q = []).
    { clear - Ha Hgt. induction Ha as [|b q Hb _ IH']; [reflexivity|].
      cbn [filter]. destruct (Z.leb_spec (due b) t); [lia|exact IH']. }
    assert (Hall : filter (fun x => negb (due x <=? t)) q = q).
    { clear - Ha Hgt. induction Ha as [|b q Hb _ IH']; [reflexivity|].
      cbn [filter]. destruct (Z.leb_spec (due b) t); [lia|]. cbn [negb].
      rewrite IH'. reflexivity. }
    rewrite Hnone, Hall. reflexivity.
Qed.

Lemma callTimes_app t (l1 l2 : list (Z * A)) :
  callTimes t (l1 ++ l2) = callTimes t l1 ++ callTimes (t + elapsed l1) l2.
Proof.
  revert t. induction l1 as [|[g x] l1 IH]; intros t.
  - cbn [app callTimes]. unfold elapsed. cbn [map fold_right]. rewrite Z.add_0_r. reflexivity.
  - cbn [app callTimes]. rewrite IH. do 3 f_equal.
    unfold elapsed. cbn [map fold_right fst]. lia.
Qed.

Lemma sorted_filter (f : Timer A -> bool) q :
  StronglySorted (fun a b => due a <= due b) q ->
  StronglySorted (fun a b => due a <= due b) (filter f q).
Proof.
  induction 1 as [|a q Hs IH Ha]; [constructor|].
  cbn [filter]. destruct (f a); [|exact IH].
  constructor; [exact IH|]. apply Forall_filter. exact Ha.
Qed.

Lemma sorted_snoc (tm : Timer A) q :
  StronglySorted (fun a b => due a <= due b) q ->
  Forall (fun a => due a <= due tm) q ->
  StronglySorted (fun a b => due a <= due b) (q ++ [tm]).
Proof.
  induction 1 as [|a q Hs IH Ha]; intros Hall; [repeat constructor|].
  inversion Hall as [|? ? Hatm Hq]; subst. cbn [app].
  constructor; [apply IH; exact Hq|].
  apply Forall_app. split; [exact Ha|repeat constructor; exact Hatm].
Qed.

(** The calls made and still to be made, in order. *)
Lemma recreated_run delay (l : list (Z * A)) t n :
  Forall (fun gx => 0 <= fst gx) l ->
  StronglySorted (fun a b => due a <= due b)
    (waiting (snd (run delay (burstRecreated l) (None, idle t n))))
  /\ Forall (fun a => due a
                      <= now (snd (run delay (burstRecreated l) (None, idle t n)))
                         + Z.max 0 delay)
       (waiting (snd (run delay (burstRecreated l) (None, idle t n))))
  /\ now (snd (run delay (burstRecreated l) (None, idle t n))) = t + elapsed l
  /\ calls (snd (run delay (burstRecreated l) (None, idle t n)))
       ++ map (fun x => (due x, payload x))
            (waiting (snd (run delay (burstRecreated l) (None, idle t n))))
     = map (fun c => (fst c + Z.max 0 delay, snd c)) (callTimes t l).
Proof.
  intros Hl. induction l as [|[g x] l IH] using rev_ind.
  - cbn. repeat split; try constructor. unfold elapsed. cbn. lia.
  - apply Forall_app in Hl. destruct Hl as [Hl Hg].
    inversion Hg as [|? ? Hg' _]; subst. cbn [fst] in Hg'.
    destruct (IH Hl) as (Hs & Hd & Hn & Hc). clear IH.
    rewrite burstRecreated_app, run_app.
    set (s0 := run delay (burstRecreated l) (None, idle t n)) in *.
    cbn [burstRecreated map List.concat app fst snd].
    change (run delay [Elapse g; Recreate; Call x] s0)
      with (step delay (step delay (step delay s0 (Elapse g)) Recreate) (Call x)).
    destruct s0 as [tid h]. cbn [snd fst] in *.
    cbn [step fst snd]. unfold debounced. cbn [clearTimeout].
    unfold setTimeout. cbn [snd fst waiting now calls elapse].
    set (t1 := now h + g).
    set (rest := filter (fun a => negb (due a <=? t1)) (waiting h)).
    set (tm := {| timerId := nextId (elapse g h); due := t1 + Z.max 0 delay;
                  payload := x |}).
    assert (Hrest : Forall (fun a => due a <= due tm) rest).
    { unfold rest. apply Forall_filter. eapply Forall_impl; [|exact Hd].
      intros a Ha. cbv beta in Ha. cbn [due tm]. unfold t1. lia. }
    rewrite (enqueue_last tm rest Hrest).
    split; [apply sorted_snoc; [apply sorted_filter; exact Hs|exact Hrest]|].
    split.
    { apply Forall_app. split; [exact Hrest|]. constructor; [cbn; lia|constructor]. }
    split.
    { unfold t1. rewrite Hn, elapsed_app.
      assert (He : elapsed [(g, x)] = g) by (unfold elapsed; cbn; lia).
      rewrite He. lia. }
    rewrite callTimes_app, (map_app _ (callTimes t l)), <- Hc.
    cbn [callTimes map fst snd].
    rewrite (map_app _ rest), <- !app_assoc. f_equal.
    rewrite app_assoc, <- map_app. unfold rest, t1.
    rewrite (queue_split (now h + g) (waiting h) Hs).
    cbn [map due payload tm]. rewrite <- Hn. reflexivity.
Qed.

End DebounceFacts.

(** X23. [debounce] collapses a burst of calls into one: when a debounced
    function is called several times with less than [delay] between one
    call and the next and then left alone for [delay], the function it
    wraps is called exactly once, with the arguments of the last call,
    [delay] after that call; the earlier calls never reach it. *)
Theorem debounce_collapses_burst {A : Type} (delay : Z) (l : list (Z * A))
    (g : Z) (x : A) (w t : Z) (n : nat) :
  Forall (fun gx => 0 <= fst gx < delay) (l ++ [(g, x)]) ->
  delay <= w ->
  Debounce.calls
    (snd (Debounce.run delay (Debounce.burst (l ++ [(g, x)]) ++ [Debounce.Elapse w])
            (None, Debounce.idle t n)))
  = [(t + Debounce.elapsed (l ++ [(g, x)]) + delay, x)]
  /\ Debounce.waiting
       (snd (Debounce.run delay (Debounce.burst (l ++ [(g, x)]) ++ [Debounce.Elapse w])
               (None, Debounce.idle t n)))
     = [].
Proof.
  intros Hl Hw. apply Forall_app in Hl. destruct Hl as [Hl Hg].
  inversion Hg as [|? ? Hg' _]; subst. cbn [fst] in Hg'.
  destruct (burst_run delay l (None, Debounce.idle t n) Hl eq_refl) as (Hq & Hn & Hc).
  rewrite burst_app, !run_app.
  set (s0 := Debounce.run delay (Debounce.burst l) (None, Debounce.idle t n)) in *.
  cbn [Debounce.burst map List.concat app fst snd].
  change (Debounce.run delay [Debounce.Elapse g; Debounce.Call x] s0)
    with (Debounce.step delay (Debounce.step delay s0 (Debounce.Elapse g))
            (Debounce.Call x)).
  destruct (debounced_arms delay g x s0 Hg' Hq) as ((id & _ & Hwait) & Hnow & Hcalls).
  set (s1 := Debounce.step delay (Debounce.step delay s0 (Debounce.Elapse g))
               (Debounce.Call x)) in *.
  cbn [snd Debounce.idle Debounce.now Debounce.calls] in Hn, Hc.
  cbn [Debounce.run fold_left Debounce.step snd Debounce.elapse Debounce.calls
       Debounce.waiting].
  rewrite Hwait, Hcalls, Hc, Hnow, Hn. cbn [filter Debounce.due].
  destruct (Z.leb_spec (t + Debounce.elapsed l + g + delay)
              (t + Debounce.elapsed l + g + w)) as [_|]; [|lia].
  cbn [negb map Debounce.due Debounce.payload app filter].
  rewrite elapsed_app.
  assert (He : Debounce.elapsed [(g, x)] = g) by (unfold Debounce.elapsed; cbn; lia).
  rewrite He. split; [|reflexivity]. do 2 f_equal. lia.
Qed.

Lemma debounce_collapses_burst_witness :
  Debounce.calls
    (snd (Debounce.run 300
            (Debounce.burst [(0, "s"); (100, "sh"); (250, "sho")]%string
               ++ [Debounce.Elapse 300])
            (None, Debounce.idle 1000 7)))
  = [(1650, "sho"%string)].
Proof.
  refine (proj1 (debounce_collapses_burst 300 [(0, "s"); (100, "sh")]%string 250
                   "sho"%string 300 1000 7 _ _)).
  - repeat constructor; cbn; lia.
  - lia.
Defined.

(** X24. Calls that go through functions created anew by
    [debounce(func, delay)] do not cancel one another, however close
    together they are: every one of them reaches the wrapped function,
    [delay] after it was made and in the order of the calls.  This is the
    situation of a component that evaluates [debounce(fetchSuggestions,
    300)] in its body, every time it is drawn. *)
Theorem debounce_recreated_never_cancels {A : Type} (delay : Z) (l : list (Z * A))
    (w t : Z) (n : nat) :
  Forall (fun gx => 0 <= fst gx) l ->
  Z.max 0 delay <= w ->
  Debounce.calls
    (snd (Debounce.run delay (Debounce.burstRecreated l ++ [Debounce.Elapse w])
            (None, Debounce.idle t n)))
  = map (fun c => (fst c + Z.max 0 delay, snd c)) (Debounce.callTimes t l).
Proof.
  intros Hl Hw. destruct (recreated_run delay l t n Hl) as (Hs & Hd & Hn & Hc).
  rewrite run_app.
  set (s0 := Debounce.run delay (Debounce.burstRecreated l) (None, Debounce.idle t n)) in *.
  cbn [Debounce.run fold_left Debounce.step snd Debounce.elapse Debounce.calls].
  rewrite <- Hc. f_equal. f_equal.
  apply filter_all. eapply Forall_impl; [|exact Hd].
  intros a Ha. cbv beta in Ha. apply Z.leb_le. lia.
Qed.

Lemma debounce_recreated_never_cancels_witness :
  Debounce.calls
    (snd (Debounce.run 300
            (Debounce.burstRecreated [(0, "s"); (100, "sh"); (250, "sho")]%string
               ++ [Debounce.Elapse 300])
            (None, Debounce.idle 1000 7)))
  = [(1300, "s"); (1400, "sh"); (1650, "sho")]%string.
Proof.
  refine (debounce_recreated_never_cancels 300 [(0, "s"); (100, "sh"); (250, "sho")]%string
            300 1000 7 _ _).
  - repeat constructor; cbn; lia.
  - lia.
Defined.
